(** * Rule checker of the document quality analyzer

    A shallow embedding of [src/doc_analyzer/analyzers/rule_checker.py]
    (class [RuleChecker] and its twelve checks) together with the
    properties of the rule engine that the specification states.

    Python values are modelled as follows.
    - [str] is a sequence of Unicode code points: [list N].
    - [int] is [Z]; offsets produced by the regex scanner are [nat] and
      are injected into [Z] where the source does arithmetic on them.
    - an operation that can raise returns in the error monad [res].
    - the set [self.disabled_rules] is a [gset] of strings; where a
      property is about what a call reads and changes, the checker, its
      set and the lists of records are objects of a store
      ([Module Stateful]).
    - the Unicode character database of the interpreter ([str.isspace],
      [str.isalnum], [str.isdigit], [str.lower], the case folding of
      [re.IGNORECASE]) is not part of the repository: the checks that
      consult it take it as a parameter. *)

From Stdlib Require Import ZArith NArith List Ascii String Lia Bool.
From Stdlib Require Import Numbers.DecimalString Sorting.Sorted.
From stdpp Require Import base decidable option list gmap.

Import ListNotations.
Local Open Scope Z_scope.

(** ** Python strings *)

Module Py.

Abbreviation str := (list N).

(** A source literal (ASCII) as a Python string. *)
Definition lit (s : string) : str :=
  map (fun a => N_of_ascii a) (list_ascii_of_string s).

(** One-character literals used by the checks. *)
Definition chr (a : ascii) : N := N_of_ascii a.

Definition SPACE : N := 32%N.
Definition NEWLINE : N := 10%N.
Definition TAB : N := 9%N.
Definition QUOTE : N := 39%N.
Definition DQUOTE : N := 34%N.
Definition BACKSLASH : N := 92%N.

Definition len (s : str) : Z := Z.of_nat (length s).

(** Exceptions the modelled operations can raise. *)
Inductive exn := IndexError.

Inductive res (A : Type) :=
| Ok (a : A)
| Raise (e : exn).
Arguments Ok {A} a.
Arguments Raise {A} e.

Definition bind {A B} (m : res A) (k : A -> res B) : res B :=
  match m with
  | Ok a => k a
  | Raise e => Raise e
  end.

(** Index normalisation of the slice protocol: a negative index counts
    from the end, and the result is clipped to [0, len]. *)
Definition clip (n i : Z) : Z :=
  if i <? 0 then Z.max 0 (i + n) else Z.min i n.

(** [s[lo:hi]] *)
Definition slice (s : str) (lo hi : Z) : str :=
  let a := clip (len s) lo in
  let b := clip (len s) hi in
  take (Z.to_nat (b - a)) (drop (Z.to_nat a) s).

(** [s[i]]: raises [IndexError] outside [-len, len). *)
Definition getitem (s : str) (i : Z) : res N :=
  let j := if i <? 0 then i + len s else i in
  if (0 <=? j) && (j <? len s) then
    match s !! Z.to_nat j with
    | Some c => Ok c
    | None => Raise IndexError
    end
  else Raise IndexError.

(** [sub] is a prefix of [s]. *)
Fixpoint startswith (s sub : str) : bool :=
  match sub, s with
  | [], _ => true
  | _ :: _, [] => false
  | c :: sub', d :: s' => (c =? d)%N && startswith s' sub'
  end.

(** [s.count(sub)] for a non-empty [sub]: occurrences are counted from
    the left and do not overlap.  [skip] is the number of characters of
    the last counted occurrence that are still to be passed over. *)
Fixpoint count_from (sub : str) (skip : nat) (s : str) : nat :=
  match s with
  | [] => O
  | _ :: s' =>
      match skip with
      | S k => count_from sub k s'
      | O => if startswith s sub
             then S (count_from sub (Nat.pred (length sub)) s')
             else count_from sub O s'
      end
  end.

(** [s.count(sub)]; the empty pattern occurs [len(s) + 1] times. *)
Definition count (s sub : str) : Z :=
  match sub with
  | [] => len s + 1
  | _ => Z.of_nat (count_from sub O s)
  end.

(** [sub in s] *)
Fixpoint contains (s sub : str) : bool :=
  startswith s sub ||
  match s with
  | [] => false
  | _ :: s' => contains s' sub
  end.

(** [s.split(sep)] for a one-character separator. *)
Fixpoint split (sep : N) (s : str) : list str :=
  match s with
  | [] => [[]]
  | c :: s' =>
      if (c =? sep)%N then [] :: split sep s'
      else match split sep s' with
           | [] => [[c]]
           | l :: ls => (c :: l) :: ls
           end
  end.

(** [s.rstrip()], given the whitespace predicate of the interpreter. *)
Fixpoint rstrip (isspace : N -> bool) (s : str) : str :=
  match s with
  | [] => []
  | c :: s' =>
      match rstrip isspace s' with
      | [] => if isspace c then [] else [c]
      | t => c :: t
      end
  end.

(** [str(n)] for a non-negative integer and for any integer. *)
Definition str_of_nat (n : nat) : str :=
  lit (NilEmpty.string_of_uint (Nat.to_uint n)).

Definition str_of_int (z : Z) : str :=
  match z with
  | Zneg p => chr "-" :: str_of_nat (Pos.to_nat p)
  | _ => str_of_nat (Z.to_nat z)
  end.

Definition mem (c : N) (cs : list N) : bool := existsb (N.eqb c) cs.

(** [repr(s)].  The quote is the apostrophe unless the string has an
    apostrophe and no double quote; the quote and the backslash are
    escaped, newline, carriage return and tab are written as escapes.
    Other non-printable code points, which Python writes as hexadecimal
    escapes, are left as they are: the only caller passes a run of
    spaces. *)
Definition repr_char (q : N) (c : N) : str :=
  if (c =? q)%N || (c =? BACKSLASH)%N then [BACKSLASH; c]
  else if (c =? NEWLINE)%N then [BACKSLASH; chr "n"]
  else if (c =? 13)%N then [BACKSLASH; chr "r"]
  else if (c =? TAB)%N then [BACKSLASH; chr "t"]
  else [c].

Definition repr (s : str) : str :=
  let q := if mem QUOTE s && negb (mem DQUOTE s) then DQUOTE else QUOTE in
  q :: flat_map (repr_char q) s ++ [q].

End Py.

(** [res] is used through stdpp's monad notation [x ← m; k]. *)
#[export] Instance res_ret : MRet Py.res := @Py.Ok.
#[export] Instance res_bind : MBind Py.res := fun A B k m => Py.bind m k.

(** ** The regular expressions of the checks

    [re.finditer] is a backtracking matcher.  The six patterns of
    [rule_checker.py] are sequences of the items below: a character
    class, a greedy repetition [c{lo,}] of a character class, the word
    boundary, the two ends of a capturing group and a back-reference
    under [re.IGNORECASE]. *)

Module Re.
Import Py.

Inductive item :=
| Cls (p : N -> bool)
| Rep (p : N -> bool) (lo : nat)
| WordB (w : N -> bool)
| Open (g : nat)
| Close (g : nat)
| BackrefI (g : nat) (fold : N -> N).

Definition pattern := list item.

(** Spans of the groups closed so far, most recent first. *)
Definition groups := list (nat * (nat * nat)).

Fixpoint assoc {A} (g : nat) (l : list (nat * A)) : option A :=
  match l with
  | [] => None
  | (h, a) :: l' => if (h =? g)%nat then Some a else assoc g l'
  end.

(** Length of the longest prefix of [s] inside the class [p]. *)
Fixpoint run (p : N -> bool) (s : str) : nat :=
  match s with
  | [] => O
  | c :: s' => if p c then S (run p s') else O
  end.

Definition class_at (p : N -> bool) (text : str) (pos : nat) : bool :=
  match text !! pos with
  | Some c => p c
  | None => false
  end.

(** [\b]: exactly one of the two neighbours of [pos] is a word
    character. *)
Definition boundary (w : N -> bool) (text : str) (pos : nat) : bool :=
  xorb (match pos with O => false | S q => class_at w text q end)
       (class_at w text pos).

(** A back-reference to the [n] characters at [s], read at [pos]: the
    characters are compared one by one after lower-casing, and the text
    must not end before all of them are read. *)
Fixpoint backref (fold : N -> N) (text : str) (n s pos : nat) : bool :=
  match n with
  | O => true
  | S n' =>
      match text !! s, text !! pos with
      | Some c, Some d =>
          (fold c =? fold d)%N && backref fold text n' (S s) (S pos)
      | _, _ => false
      end
  end.

(** A greedy repetition that can take up to [n] characters: the rest of
    the pattern [k] is tried after the longest run first, then after one
    character less, and so on, never below [lo]. *)
Fixpoint give_back {A} (lo : nat) (k : nat -> option A) (n : nat)
    : option A :=
  match (if (lo <=? n)%nat then k n else None) with
  | Some x => Some x
  | None => match n with
            | O => None
            | S n' => give_back lo k n'
            end
  end.

(** Match [its] at [pos]; the result is the end of the match and the
    group spans. *)
Fixpoint m_here (text : str) (its : pattern) (pos : nat)
    (os : list (nat * nat)) (gs : groups) : option (nat * groups) :=
  match its with
  | [] => Some (pos, gs)
  | Cls p :: r =>
      if class_at p text pos then m_here text r (S pos) os gs else None
  | Rep p lo :: r =>
      give_back lo (fun k => m_here text r (pos + k)%nat os gs)
                (run p (drop pos text))
  | WordB w :: r =>
      if boundary w text pos then m_here text r pos os gs else None
  | Open g :: r => m_here text r pos ((g, pos) :: os) gs
  | Close g :: r =>
      match assoc g os with
      | Some s => m_here text r pos os ((g, (s, pos)) :: gs)
      | None => None
      end
  | BackrefI g fold :: r =>
      match assoc g gs with
      | Some (s, e) =>
          let n := (e - s)%nat in
          if backref fold text n s pos
          then m_here text r (pos + n)%nat os gs else None
      | None => None
      end
  end.

(** The match object. *)
Record Match := mkMatch {
  m_string : str;
  m_start : nat;
  m_end : nat;
  m_spans : groups
}.

(** [m.group(g)]; [m.group()] is [m.group(0)].  Every group of the
    patterns below takes part in every match, so the [None] of a group
    that did not is not modelled. *)
Definition group (m : Match) (g : nat) : str :=
  match g with
  | O => slice (m_string m) (Z.of_nat (m_start m)) (Z.of_nat (m_end m))
  | _ => match assoc g (m_spans m) with
         | Some (s, e) => slice (m_string m) (Z.of_nat s) (Z.of_nat e)
         | None => []
         end
  end.

(** The scan of [finditer]: the leftmost match from [pos] on, then the
    next one from where it ended.  No pattern of the checks matches the
    empty string; were a match empty the scan would move on by one
    character.  Every step moves [pos] forward, so [S (length text)]
    steps reach the end of the text. *)
Fixpoint scan (text : str) (pat : pattern) (fuel pos : nat) : list Match :=
  match fuel with
  | O => []
  | S fuel' =>
      if (length text <? pos)%nat then []
      else match m_here text pat pos [] [] with
           | Some (e, gs) =>
               mkMatch text pos e gs
                 :: scan text pat fuel' (Nat.max e (S pos))
           | None => scan text pat fuel' (S pos)
           end
  end.

Definition finditer (pat : pattern) (text : str) : list Match :=
  scan text pat (S (length text)) O.

(** The character classes written in the patterns. *)
Definition is_char (c : N) : N -> bool := N.eqb c.
Definition one_of (cs : string) : N -> bool := fun c => mem c (lit cs).
Definition ascii_letter (c : N) : bool :=
  ((65 <=? c) && (c <=? 90) || (97 <=? c) && (c <=? 122))%N.

End Re.

(** ** The rule checker *)

Import Py Re.

(** What the checks ask of the interpreter's Unicode tables:
    [str.isspace] (also the class [\s] and the characters [rstrip]
    removes), [str.isalnum] (the class [\w] is [isalnum] or the
    underscore), [str.isdigit], [str.lower] and the lower-casing by
    which [re.IGNORECASE] compares a back-reference. *)
Record unicode := {
  isspace : N -> bool;
  isalnum : N -> bool;
  isdigit : N -> bool;
  lower : str -> str;
  sre_lower : N -> N
}.

(** [@dataclass class RuleMatch] *)
Record RuleMatch := mkRuleMatch {
  rule_id : str;
  rule_name : str;
  category : str;
  severity : str;
  text : str;
  suggestion : str;
  location : str;
  context : str
}.

(** The instance state of [RuleChecker]: [__init__] assigns the one
    attribute and no method assigns any. *)
Record RuleChecker := { disabled_rules : gset str }.

(** [self.disabled_rules = set(disabled_rules or [])] *)
Definition __init__ (disabled : option (list str)) : RuleChecker :=
  {| disabled_rules := list_to_set (default [] disabled) |}.

(** A [for] loop over [xs] whose body either [continue]s ([None]) or
    appends one record to [matches]; it stops at the first exception. *)
Fixpoint for_append {A B} (body : A -> res (option B)) (xs : list A)
    : res (list B) :=
  match xs with
  | [] => mret []
  | x :: xs' =>
      o ← body x;
      rest ← for_append body xs';
      mret (match o with Some b => b :: rest | None => rest end)
  end.

(** [sep.join(parts)] *)
Fixpoint join (sep : str) (parts : list str) : str :=
  match parts with
  | [] => []
  | [p] => p
  | p :: ps => p ++ sep ++ join sep ps
  end.

(** [d[k] = v] on a dictionary kept in insertion order. *)
Fixpoint dict_set (k : str) (v : Z) (d : list (str * Z)) : list (str * Z) :=
  match d with
  | [] => [(k, v)]
  | (k', v') :: d' =>
      if decide (k' = k) then (k', v) :: d' else (k', v') :: dict_set k v d'
  end.

Definition _get_line_number (text : str) (position : Z) : Z :=
  count (slice text 0 position) [NEWLINE] + 1.

Definition _get_context (text : str) (start end_ : Z) (context_chars : Z)
    : str :=
  let ctx_start := Z.max 0 (start - context_chars) in
  let ctx_end := Z.min (len text) (end_ + context_chars) in
  let prefix := if 0 <? ctx_start then lit "..." else lit "" in
  let suffix := if ctx_end <? len text then lit "..." else lit "" in
  prefix ++ slice text ctx_start ctx_end ++ suffix.

(** The default of the parameter [context_chars]. *)
Definition context_chars_default : Z := 30.

Definition re_double_spaces : pattern := [Rep (is_char SPACE) 2].

Definition _check_double_spaces (text : str) : res (list RuleMatch) :=
  for_append (fun m =>
    let start := Z.of_nat (m_start m) in
    skip ← (if start =? 0 then mret true
            else c ← getitem text (start - 1); mret (c =? NEWLINE)%N);
    if skip : bool then mret None
    else mret (Some {|
      rule_id := lit "double-spaces";
      rule_name := lit "Double Spaces";
      category := lit "spacing";
      severity := lit "medium";
      text := repr (group m 0);
      suggestion := lit "Replace with single space";
      location := lit "Line " ++ str_of_int (_get_line_number text start)
                  ++ lit ", position " ++ str_of_int start;
      context := _get_context text start (Z.of_nat (m_end m))
                   context_chars_default
    |})) (finditer re_double_spaces text).

Section Checks.

Variable U : unicode.

(** [\w] and [\s] on [str] patterns. *)
Definition is_word : N -> bool := fun c => isalnum U c || (c =? chr "_")%N.
Definition is_space : N -> bool := isspace U.
Definition is_punct : N -> bool := one_of ".,;:!?".

(** [r'\b(\w+)\s+\1\b'] with [re.IGNORECASE] *)
Definition re_repeated_words : pattern :=
  [WordB is_word; Open 1; Rep is_word 1; Close 1; Rep is_space 1;
   BackrefI 1 (sre_lower U); WordB is_word].

Definition _check_repeated_words (text : str) : list RuleMatch :=
  omap (fun m =>
    let word := lower U (group m 1) in
    if bool_decide (word ∈ [lit "that"; lit "had"; lit "very";
                            lit "really"; lit "blah"])
    then None
    else Some {|
      rule_id := lit "repeated-words";
      rule_name := lit "Repeated Word";
      category := lit "grammar";
      severity := lit "high";
      text := group m 0;
      suggestion := lit "Remove duplicate '" ++ group m 1 ++ lit "'";
      location := lit "Line "
        ++ str_of_int (_get_line_number text (Z.of_nat (m_start m)));
      context := _get_context text (Z.of_nat (m_start m))
                   (Z.of_nat (m_end m)) context_chars_default
    |}) (finditer re_repeated_words text).

(** [r'([.,;:!?])([A-Za-z])'] *)
Definition re_missing_space_after_punct : pattern :=
  [Open 1; Cls is_punct; Close 1; Open 2; Cls ascii_letter; Close 2].

Definition _check_missing_space_after_punct (text : str)
    : res (list RuleMatch) :=
  for_append (fun m =>
    let start := Z.of_nat (m_start m) in
    let before := slice text (Z.max 0 (start - 10)) start in
    if existsb (fun x => contains (lower U before) x)
         [lit "http"; lit "www."; lit "ftp"; lit ".com"; lit ".org"]
    then mret None
    else
      decimal ← (if bool_decide (group m 1 = lit ".") && (0 <? start)
                 then c ← getitem text (start - 1); mret (isdigit U c)
                 else mret false);
      if decimal : bool then mret None
      else mret (Some {|
        rule_id := lit "missing-space-after-punct";
        rule_name := lit "Missing Space After Punctuation";
        category := lit "spacing";
        severity := lit "medium";
        text := group m 0;
        suggestion := group m 1 ++ lit " " ++ group m 2;
        location := lit "Line " ++ str_of_int (_get_line_number text start);
        context := _get_context text start (Z.of_nat (m_end m))
                     context_chars_default
      |})) (finditer re_missing_space_after_punct text).

(** [r'(\w)\s+([.,;:!?])'] *)
Definition re_space_before_punct : pattern :=
  [Open 1; Cls is_word; Close 1; Rep is_space 1; Open 2; Cls is_punct;
   Close 2].

Definition _check_space_before_punct (text : str) : list RuleMatch :=
  map (fun m => {|
    rule_id := lit "space-before-punct";
    rule_name := lit "Space Before Punctuation";
    category := lit "spacing";
    severity := lit "medium";
    text := group m 0;
    suggestion := group m 1 ++ group m 2;
    location := lit "Line "
      ++ str_of_int (_get_line_number text (Z.of_nat (m_start m)));
    context := _get_context text (Z.of_nat (m_start m))
                 (Z.of_nat (m_end m)) context_chars_default
  |}) (finditer re_space_before_punct text).

Definition pairs : list (N * N) :=
  [(chr "(", chr ")"); (chr "[", chr "]"); (chr "{", chr "}")].

Definition _check_unclosed_brackets (text : str) : list RuleMatch :=
  flat_map (fun '(open_char, close_char) =>
    let open_count := count text [open_char] in
    let close_count := count text [close_char] in
    if bool_decide (open_count ≠ close_count) then
      let diff := open_count - close_count in
      if 0 <? diff then
        [{| rule_id := lit "unclosed-brackets";
            rule_name := lit "Unclosed Bracket";
            category := lit "formatting";
            severity := lit "high";
            text := str_of_int diff ++ lit " unclosed '" ++ [open_char]
                    ++ lit "'";
            suggestion := lit "Add " ++ str_of_int diff ++ lit " closing '"
                          ++ [close_char] ++ lit "'";
            location := lit "Document-wide";
            context := lit "Found " ++ str_of_int open_count ++ lit " '"
                       ++ [open_char] ++ lit "' but only "
                       ++ str_of_int close_count ++ lit " '"
                       ++ [close_char] ++ lit "'" |}]
      else
        [{| rule_id := lit "unclosed-brackets";
            rule_name := lit "Extra Closing Bracket";
            category := lit "formatting";
            severity := lit "high";
            text := str_of_int (- diff) ++ lit " extra '" ++ [close_char]
                    ++ lit "'";
            suggestion := lit "Remove " ++ str_of_int (- diff)
                          ++ lit " extra '" ++ [close_char]
                          ++ lit "' or add opening '" ++ [open_char]
                          ++ lit "'";
            location := lit "Document-wide";
            context := lit "Found " ++ str_of_int close_count ++ lit " '"
                       ++ [close_char] ++ lit "' but only "
                       ++ str_of_int open_count ++ lit " '"
                       ++ [open_char] ++ lit "'" |}]
    else []) pairs.

Definition _check_trailing_whitespace (text : str) : list RuleMatch :=
  let lines := split NEWLINE text in
  let trailing_count :=
    foldl (fun n line =>
             if bool_decide (line ≠ rstrip (isspace U) line)
             then n + 1 else n) 0 lines in
  if 0 <? trailing_count then
    [{| rule_id := lit "trailing-whitespace";
        rule_name := lit "Trailing Whitespace";
        category := lit "formatting";
        severity := lit "low";
        text := str_of_int trailing_count
                ++ lit " line(s) with trailing whitespace";
        suggestion := lit "Remove trailing spaces";
        location := lit "Multiple lines";
        context := lit "Found in " ++ str_of_int trailing_count ++ lit " of "
                   ++ str_of_int (Z.of_nat (length lines)) ++ lit " lines" |}]
  else [].

(** [r'\n{3,}'] *)
Definition re_multiple_blank_lines : pattern := [Rep (is_char NEWLINE) 3].

Definition _check_multiple_blank_lines (text : str) : list RuleMatch :=
  map (fun m =>
    let num_blanks := len (group m 0) - 1 in
    {| rule_id := lit "multiple-blank-lines";
       rule_name := lit "Multiple Blank Lines";
       category := lit "formatting";
       severity := lit "low";
       text := str_of_int num_blanks ++ lit " consecutive blank lines";
       suggestion := lit "Reduce to single blank line";
       location := lit "Line "
         ++ str_of_int (_get_line_number text (Z.of_nat (m_start m)));
       context := lit "Excessive vertical spacing" |})
    (finditer re_multiple_blank_lines text).

(** As the file stands, every quote character of the two quote checks
    is the ASCII one.  In [text.count(''') + text.count(''')] the three
    apostrophes open a triple-quoted literal that the next three close:
    the expression is one call of [count] whose argument is the literal
    below. *)
Definition triple_quoted : str := lit ") + text.count(".

Definition _check_inconsistent_quotes (text : str) : list RuleMatch :=
  let straight_double := count text [DQUOTE] in
  let curly_double := count text [DQUOTE] + count text [DQUOTE] in
  let straight_single := count text [QUOTE] in
  let curly_single := count text triple_quoted in
  (if (0 <? straight_double) && (0 <? curly_double) then
     [{| rule_id := lit "inconsistent-quotes";
         rule_name := lit "Inconsistent Double Quotes";
         category := lit "formatting";
         severity := lit "low";
         text := lit "Mix of " ++ [DQUOTE] ++ lit " ("
                 ++ str_of_int straight_double ++ lit ") and "
                 ++ [DQUOTE; DQUOTE] ++ lit "/" ++ [DQUOTE; DQUOTE]
                 ++ lit " (" ++ str_of_int curly_double ++ lit ")";
         suggestion := lit "Use consistent quote style throughout";
         location := lit "Document-wide";
         context :=
           lit "Consider using curly quotes for published documents" |}]
   else [])
  ++
  (if (0 <? straight_single) && (0 <? curly_single) then
     if (3 <? straight_single) && (3 <? curly_single) then
       [{| rule_id := lit "inconsistent-quotes";
           rule_name := lit "Inconsistent Single Quotes/Apostrophes";
           category := lit "formatting";
           severity := lit "low";
           text := lit "Mix of ' (" ++ str_of_int straight_single
                   ++ lit ") and ''/'` (" ++ str_of_int curly_single
                   ++ lit ")";
           suggestion := lit "Use consistent apostrophe style";
           location := lit "Document-wide";
           context :=
             lit "May indicate copy-paste from different sources" |}]
     else []
   else []).

Definition _check_tab_characters (text : str) : list RuleMatch :=
  let tab_count := count text [TAB] in
  if 0 <? tab_count then
    [{| rule_id := lit "tab-characters";
        rule_name := lit "Tab Characters";
        category := lit "formatting";
        severity := lit "low";
        text := str_of_int tab_count ++ lit " tab character(s)";
        suggestion :=
          lit "Replace tabs with spaces for consistent formatting";
        location := lit "Multiple locations";
        context :=
          lit "Tabs may render inconsistently across applications" |}]
  else [].

Definition EM_DASH : N := 8212%N.

(** [r'(\w)\s*--\s*(\w)'] *)
Definition re_double_hyphen_emdash : pattern :=
  [Open 1; Cls is_word; Close 1; Rep is_space 0; Cls (is_char (chr "-"));
   Cls (is_char (chr "-")); Rep is_space 0; Open 2; Cls is_word; Close 2].

Definition _check_double_hyphen_emdash (text : str) : list RuleMatch :=
  map (fun m => {|
    rule_id := lit "double-hyphen-emdash";
    rule_name := lit "Double Hyphen Instead of Em-Dash";
    category := lit "formatting";
    severity := lit "low";
    text := group m 0;
    suggestion := group m 1 ++ [EM_DASH] ++ group m 2;
    location := lit "Line "
      ++ str_of_int (_get_line_number text (Z.of_nat (m_start m)));
    context := _get_context text (Z.of_nat (m_start m))
                 (Z.of_nat (m_end m)) context_chars_default
  |}) (finditer re_double_hyphen_emdash text).

(** The dictionary [hidden_chars], in the order it is written. *)
Definition hidden_chars : list (N * str) :=
  [(8203%N, lit "zero-width space");
   (8204%N, lit "zero-width non-joiner");
   (8205%N, lit "zero-width joiner");
   (65279%N, lit "byte order mark");
   (160%N, lit "non-breaking space");
   (8288%N, lit "word joiner")].

Definition _check_hidden_characters (text : str) : list RuleMatch :=
  let found :=
    foldl (fun found '(char, name) =>
             let count := count text [char] in
             if 0 <? count then dict_set name count found else found)
          [] hidden_chars in
  if bool_decide (found ≠ []) then
    let details :=
      join (lit ", ")
           (map (fun '(name, count) =>
                   name ++ lit ": " ++ str_of_int count) found) in
    [{| rule_id := lit "hidden-characters";
        rule_name := lit "Hidden Characters";
        category := lit "formatting";
        severity := lit "medium";
        text := lit "Found hidden characters";
        suggestion :=
          lit "Remove hidden characters that may cause display issues";
        location := lit "Document-wide";
        context := details |}]
  else [].

Definition _check_straight_vs_curly_quotes (text : str) : list RuleMatch :=
  let straight_quotes := count text [DQUOTE] + count text [QUOTE] in
  let curly_quotes :=
    count text [DQUOTE] + count text [DQUOTE] + count text triple_quoted in
  if (10 <? straight_quotes) && (curly_quotes =? 0) then
    [{| rule_id := lit "straight-vs-curly-quotes";
        rule_name := lit "Straight Quotes Only";
        category := lit "formatting";
        severity := lit "low";
        text := str_of_int straight_quotes ++ lit " straight quotes";
        suggestion :=
          lit "Consider using curly quotes for professional documents";
        location := lit "Document-wide";
        context :=
          lit "Straight quotes are fine for code/technical docs" |}]
  else [].

(** One step of [check_all]:
    [if rule not in self.disabled_rules: matches.extend(check(text))]. *)
Definition extend_unless_disabled (self : RuleChecker) (rule : string)
    (check : res (list RuleMatch)) (matches : list RuleMatch)
    : res (list RuleMatch) :=
  if bool_decide (lit rule ∉ disabled_rules self)
  then found ← check; mret (matches ++ found)
  else mret matches.

Definition check_all (self : RuleChecker) (text : str)
    : res (list RuleMatch) :=
  let matches := [] in
  matches ← extend_unless_disabled self "double-spaces"
              (_check_double_spaces text) matches;
  matches ← extend_unless_disabled self "repeated-words"
              (mret (_check_repeated_words text)) matches;
  matches ← extend_unless_disabled self "missing-space-after-punct"
              (_check_missing_space_after_punct text) matches;
  matches ← extend_unless_disabled self "space-before-punct"
              (mret (_check_space_before_punct text)) matches;
  matches ← extend_unless_disabled self "unclosed-brackets"
              (mret (_check_unclosed_brackets text)) matches;
  matches ← extend_unless_disabled self "trailing-whitespace"
              (mret (_check_trailing_whitespace text)) matches;
  matches ← extend_unless_disabled self "multiple-blank-lines"
              (mret (_check_multiple_blank_lines text)) matches;
  matches ← extend_unless_disabled self "inconsistent-quotes"
              (mret (_check_inconsistent_quotes text)) matches;
  matches ← extend_unless_disabled self "tab-characters"
              (mret (_check_tab_characters text)) matches;
  matches ← extend_unless_disabled self "double-hyphen-emdash"
              (mret (_check_double_hyphen_emdash text)) matches;
  matches ← extend_unless_disabled self "hidden-characters"
              (mret (_check_hidden_characters text)) matches;
  matches ← extend_unless_disabled self "straight-vs-curly-quotes"
              (mret (_check_straight_vs_curly_quotes text)) matches;
  mret matches.

End Checks.

(** An instance of the tables that is Python's on ASCII text and treats
    every other code point as caseless and neither space, letter nor
    digit.  It serves to run the checks on ASCII examples. *)
Definition ascii_lower (c : N) : N :=
  if ((65 <=? c) && (c <=? 90))%N then (c + 32)%N else c.

Definition ascii_unicode : unicode := {|
  isspace := fun c => ((9 <=? c) && (c <=? 13) || (28 <=? c) && (c <=? 32))%N;
  isalnum := fun c => ascii_letter c || ((48 <=? c) && (c <=? 57))%N;
  isdigit := fun c => ((48 <=? c) && (c <=? 57))%N;
  lower := map ascii_lower;
  sre_lower := ascii_lower
|}.

(** [rule_match_to_dict]: the dictionary in the order its keys are
    written; every value is a string. *)
Definition rule_match_to_dict (match_ : RuleMatch) : list (str * str) :=
  [(lit "rule_id", rule_id match_);
   (lit "rule_name", rule_name match_);
   (lit "category", category match_);
   (lit "severity", severity match_);
   (lit "text", text match_);
   (lit "suggestion", suggestion match_);
   (lit "location", location match_);
   (lit "context", context match_);
   (lit "source", lit "rule")].

(** [d.get(k)] on such a dictionary. *)
Fixpoint dict_get (d : list (str * str)) (k : str) : option str :=
  match d with
  | [] => None
  | (k', v) :: d' => if decide (k' = k) then Some v else dict_get d' k
  end.

(** ** The checker as an object of the store

    [check_all] is a method: it reads the attribute
    [self.disabled_rules], which refers to a set object, and fills the
    list object [matches] that it creates and returns.  Here the
    objects live in a store and the method is a computation on the
    store, so that what a call reads and what it changes is explicit. *)

Module Stateful.

Abbreviation ref := positive.

(** The objects a checker and its caller hold: a set of rule ids, an
    instance of [RuleChecker] with its attribute, a list of records. *)
Inductive object :=
| IdSet (members : gset str)
| Checker (disabled_rules : ref)
| Matches (items : list RuleMatch).

Abbreviation store := (gmap positive object).

(** How a statement ends: normally, with an exception of a check, or
    with the [AttributeError] or [TypeError] of a reference to an
    object of another class ([Wrong]). *)
Inductive outcome (A : Type) :=
| Return (a : A)
| Throw (e : exn)
| Wrong.
Arguments Return {A} a.
Arguments Throw {A} e.
Arguments Wrong {A}.

Definition M (A : Type) : Type := store -> outcome A * store.

Definition ret {A} (a : A) : M A := fun h => (Return a, h).

Definition bind {A B} (m : M A) (k : A -> M B) : M B :=
  fun h =>
    match m h with
    | (Return a, h') => k a h'
    | (Throw e, h') => (Throw e, h')
    | (Wrong, h') => (Wrong, h')
    end.

#[export] Instance M_ret : MRet M := @ret.
#[export] Instance M_bind : MBind M := fun A B k m => bind m k.

(** A new object, at a reference not in use. *)
Definition alloc (o : object) : M ref :=
  fun h => let r := fresh (dom h) in (Return r, <[r := o]> h).

(** The value or the exception of a check. *)
Definition result_of {A} (x : res A) : M A :=
  fun h => (match x with Ok a => Return a | Raise e => Throw e end, h).

(** [self.disabled_rules] *)
Definition get_disabled_rules (self : ref) : M ref :=
  fun h =>
    match h !! self with
    | Some (Checker s) => (Return s, h)
    | _ => (Wrong, h)
    end.

(** [rule not in s] *)
Definition not_in (rule : str) (s : ref) : M bool :=
  fun h =>
    match h !! s with
    | Some (IdSet members) => (Return (bool_decide (rule ∉ members)), h)
    | _ => (Wrong, h)
    end.

(** [matches.extend(found)]: the list object is changed in place. *)
Definition extend (matches : ref) (found : list RuleMatch) : M unit :=
  fun h =>
    match h !! matches with
    | Some (Matches items) =>
        (Return tt, <[matches := Matches (items ++ found)]> h)
    | _ => (Wrong, h)
    end.

(** One step of [check_all]:
    [if rule not in self.disabled_rules: matches.extend(check(text))]. *)
Definition extend_unless_disabled (self : ref) (rule : string)
    (check : res (list RuleMatch)) (matches : ref) : M unit :=
  s ← get_disabled_rules self;
  enabled ← not_in (lit rule) s;
  if enabled : bool then
    found ← result_of check;
    extend matches found
  else mret tt.

Section Dispatch.

Variable U : unicode.

Definition check_all (self : ref) (text : str) : M ref :=
  matches ← alloc (Matches []);
  _ ← extend_unless_disabled self "double-spaces"
        (_check_double_spaces text) matches;
  _ ← extend_unless_disabled self "repeated-words"
        (Ok (_check_repeated_words U text)) matches;
  _ ← extend_unless_disabled self "missing-space-after-punct"
        (_check_missing_space_after_punct U text) matches;
  _ ← extend_unless_disabled self "space-before-punct"
        (Ok (_check_space_before_punct U text)) matches;
  _ ← extend_unless_disabled self "unclosed-brackets"
        (Ok (_check_unclosed_brackets text)) matches;
  _ ← extend_unless_disabled self "trailing-whitespace"
        (Ok (_check_trailing_whitespace U text)) matches;
  _ ← extend_unless_disabled self "multiple-blank-lines"
        (Ok (_check_multiple_blank_lines text)) matches;
  _ ← extend_unless_disabled self "inconsistent-quotes"
        (Ok (_check_inconsistent_quotes text)) matches;
  _ ← extend_unless_disabled self "tab-characters"
        (Ok (_check_tab_characters text)) matches;
  _ ← extend_unless_disabled self "double-hyphen-emdash"
        (Ok (_check_double_hyphen_emdash U text)) matches;
  _ ← extend_unless_disabled self "hidden-characters"
        (Ok (_check_hidden_characters text)) matches;
  _ ← extend_unless_disabled self "straight-vs-curly-quotes"
        (Ok (_check_straight_vs_curly_quotes text)) matches;
  mret matches.

End Dispatch.

(** The set of disabled ids of the checker at [self], when [self] is a
    checker whose attribute refers to a set. *)
Definition disabled_of (h : store) (self : ref) : option (gset str) :=
  match h !! self with
  | Some (Checker s) =>
      match h !! s with
      | Some (IdSet members) => Some members
      | _ => None
      end
  | _ => None
  end.

End Stateful.

(** ** The issues and the score ([models.py], [quality_analyzer.py]) *)

Module Models.

Inductive DocumentType :=
| PROPOSAL | KICKOFF | TRANSCRIPT_SALES | TRANSCRIPT_CLIENT.

Inductive IssueSeverity := CRITICAL | HIGH | MEDIUM | LOW | INFO.

Inductive IssueCategory :=
| SPELLING | GRAMMAR | SPACING | FORMATTING | MATH
| MISSING_CONTENT | STYLE | BANNT | OPPORTUNITY | CONCERN.

#[export] Instance IssueSeverity_eq_dec : EqDecision IssueSeverity.
Proof. solve_decision. Defined.

#[export] Instance IssueCategory_eq_dec : EqDecision IssueCategory.
Proof. solve_decision. Defined.

(** [class Issue(BaseModel)] *)
Record Issue := {
  category : IssueCategory;
  severity : IssueSeverity;
  title : str;
  description : str;
  location : option str;
  context : option str;
  suggestion : option str;
  affects_score : bool
}.

(** [class ScoreBreakdown(BaseModel)] *)
Record ScoreBreakdown := mkScoreBreakdown {
  spelling_grammar : Z;
  required_content : Z;
  math_accuracy : Z
}.

(** [Field(ge=0, le=100)] *)
Definition in_field_range (v : Z) : bool := (0 <=? v) && (v <=? 100).

(** [ScoreBreakdown(spelling_grammar=..., required_content=...,
    math_accuracy=...)]: the three fields are validated, and [None]
    stands for the [ValidationError] of a value out of range. *)
Definition ScoreBreakdown_init (spelling_grammar required_content
    math_accuracy : Z) : option ScoreBreakdown :=
  if in_field_range spelling_grammar && in_field_range required_content
     && in_field_range math_accuracy
  then Some (mkScoreBreakdown spelling_grammar required_content
               math_accuracy)
  else None.

(** [class BANNTScore(BaseModel)] *)
Record BANNTScore := {
  budget : bool; budget_notes : str;
  authority : bool; authority_notes : str;
  need : bool; need_notes : str;
  next_steps : bool; next_steps_notes : str;
  timeline : bool; timeline_notes : str
}.

(** [class AnalysisResult(BaseModel)]; the time stamp [analyzed_at] is
    kept as a number. *)
Record AnalysisResult := {
  document_url : str;
  document_title : str;
  document_type : DocumentType;
  analyzed_at : Z;
  llm_provider : str;
  score : option ScoreBreakdown;
  bannt_score : option BANNTScore;
  issues : list Issue;
  text_length : Z
}.

(** [[i for i in self.issues if i.affects_score]] *)
Definition scored_issues (self : AnalysisResult) : list Issue :=
  filter (fun i => affects_score i = true) (issues self).

(** [[i for i in self.issues if not i.affects_score]] *)
Definition flagged_issues (self : AnalysisResult) : list Issue :=
  filter (fun i => negb (affects_score i) = true) (issues self).

(** [sum(1 for i in issues if cond(i))] *)
Definition sum_ones (cond : Issue -> bool) (issues : list Issue) : Z :=
  foldl (fun total i => if cond i then total + 1 else total) 0 issues.

(** [QualityAnalyzer._calculate_score]; the two results of the language
    model are passed in and not used. *)
Definition _calculate_score {D : Type} (issues : list Issue)
    (sg_result content_result : D) : option ScoreBreakdown :=
  let spelling_grammar_issues :=
    sum_ones (fun i =>
                bool_decide (category i ∈ [SPELLING; GRAMMAR; SPACING])
                && affects_score i) issues in
  let missing_content_issues :=
    sum_ones (fun i =>
                bool_decide (category i = MISSING_CONTENT)
                && affects_score i) issues in
  let sg_score := Z.max 0 (100 - spelling_grammar_issues * 5) in
  let content_score := Z.max 0 (100 - missing_content_issues * 15) in
  let math_score := 100 in
  ScoreBreakdown_init sg_score content_score math_score.

End Models.

(** * Vocabulary of the properties *)

(** The number of occurrences of the character [c] in [s]. *)
Definition occurrences (c : N) (s : str) : nat :=
  length (filter (fun x => x = c) s).

(** [m] is a match of the pattern at its start, on the text [text] and
    within it. *)
Definition is_match (pat : pattern) (text : str) (m : Match) : Prop :=
  m_string m = text /\
  (m_start m <= m_end m <= length text)%nat /\
  m_here text pat (m_start m) [] [] = Some (m_end m, m_spans m).

(** A string between two apostrophes: what [repr] makes of a run of
    spaces. *)
Definition quoted (s : str) : str := QUOTE :: s ++ [QUOTE].

(** What ties a record of the double-spaces check to the match [m] it
    was made for. *)
Definition double_spaces_record (txt : str) (m : Match) (r : RuleMatch)
    : Prop :=
  rule_id r = lit "double-spaces" /\
  text r = repr (group m 0) /\
  location r =
    lit "Line "
    ++ str_of_int (_get_line_number txt (Z.of_nat (m_start m)))
    ++ lit ", position " ++ str_of_int (Z.of_nat (m_start m)).

(** What ties a record to its match in the checks that report the
    matched text and the line. *)
Definition point_record (id : string) (txt : str) (m : Match)
    (r : RuleMatch) : Prop :=
  rule_id r = lit id /\
  text r = group m 0 /\
  location r =
    lit "Line " ++ str_of_int (_get_line_number txt (Z.of_nat (m_start m))).

Definition records_of (pat : pattern) (R : Match -> RuleMatch -> Prop)
    (txt : str) (out : list RuleMatch) : Prop :=
  Forall (fun r => exists m, m ∈ finditer pat txt /\
                             is_match pat txt m /\ R m r) out.

(** The specification's reading, for one record of a check: the matched
    text is the slice of the document between the ends of a match. *)
Definition matched_text_literal (pat : pattern) (txt : str) (r : RuleMatch)
    : Prop :=
  exists m, m ∈ finditer pat txt /\
    text r = slice txt (Z.of_nat (m_start m)) (Z.of_nat (m_end m)).

(** A document whose double space is at offset 5, in column 2 of line 2. *)
Definition two_lines : str := lit "ab" ++ [NEWLINE] ++ lit "cd  e".

(** The verdict on one pair of brackets: nothing when the two counts are
    equal, otherwise one record of severity high that says which way
    the counts differ. *)
Definition bracket_verdict (txt : str) (open_char close_char : N)
    (part : list RuleMatch) : Prop :=
  let opens := Z.of_nat (occurrences open_char txt) in
  let closes := Z.of_nat (occurrences close_char txt) in
  (opens = closes /\ part = []) \/
  (closes < opens /\
   exists r, part = [r] /\
     rule_id r = lit "unclosed-brackets" /\
     severity r = lit "high" /\
     rule_name r = lit "Unclosed Bracket" /\
     text r = str_of_int (opens - closes) ++ lit " unclosed '"
              ++ [open_char] ++ lit "'") \/
  (opens < closes /\
   exists r, part = [r] /\
     rule_id r = lit "unclosed-brackets" /\
     severity r = lit "high" /\
     rule_name r = lit "Extra Closing Bracket" /\
     text r = str_of_int (closes - opens) ++ lit " extra '"
              ++ [close_char] ++ lit "'").

(** The rule ids in the order of the catalogue. *)
Definition catalogue : list string :=
  ["double-spaces"; "repeated-words"; "missing-space-after-punct";
   "space-before-punct"; "unclosed-brackets"; "trailing-whitespace";
   "multiple-blank-lines"; "inconsistent-quotes"; "tab-characters";
   "double-hyphen-emdash"; "hidden-characters";
   "straight-vs-curly-quotes"]%string.

(** The conditionals of [check_all] as a table: the id tested and the
    check run, in the order they are written. *)
Definition registry (U : unicode) (txt : str)
    : list (string * res (list RuleMatch)) :=
  [("double-spaces", _check_double_spaces txt);
   ("repeated-words", mret (_check_repeated_words U txt));
   ("missing-space-after-punct", _check_missing_space_after_punct U txt);
   ("space-before-punct", mret (_check_space_before_punct U txt));
   ("unclosed-brackets", mret (_check_unclosed_brackets txt));
   ("trailing-whitespace", mret (_check_trailing_whitespace U txt));
   ("multiple-blank-lines", mret (_check_multiple_blank_lines txt));
   ("inconsistent-quotes", mret (_check_inconsistent_quotes txt));
   ("tab-characters", mret (_check_tab_characters txt));
   ("double-hyphen-emdash", mret (_check_double_hyphen_emdash U txt));
   ("hidden-characters", mret (_check_hidden_characters txt));
   ("straight-vs-curly-quotes",
    mret (_check_straight_vs_curly_quotes txt))]%string.

Fixpoint run_registry (self : RuleChecker)
    (reg : list (string * res (list RuleMatch))) (matches : list RuleMatch)
    : res (list RuleMatch) :=
  match reg with
  | [] => mret matches
  | (id, check) :: reg' =>
      matches ← extend_unless_disabled self id check matches;
      run_registry self reg' matches
  end.

(** The block a rule contributes: nothing when its id is disabled, the
    records of its check otherwise. *)
Definition block_of (self : RuleChecker) (id : string)
    (check : res (list RuleMatch)) (block : list RuleMatch) : Prop :=
  if bool_decide (lit id ∈ disabled_rules self)
  then block = []
  else check = Ok block.

(** A check of the table returns, and its records carry its id. *)
Definition well_tagged (entry : string * res (list RuleMatch)) : Prop :=
  exists out, entry.2 = Ok out /\
              Forall (fun r => rule_id r = lit entry.1) out.

Definition ascii_text (s : str) : Prop := Forall (fun c => (c < 128)%N) s.

(** Tables that agree with Python's on ASCII: [str.lower] maps the
    capital letters to the small ones and [str.isdigit] holds of the
    ten digits. *)
Definition ascii_faithful (U : unicode) : Prop :=
  (forall s, ascii_text s -> lower U s = map ascii_lower s) /\
  (forall c, (c < 128)%N -> isdigit U c = ((48 <=? c) && (c <=? 57))%N).

(** The matches [ms], found from position [from] on, are the leftmost
    ones: the pattern matches at no position passed over before a
    match, between two matches, or after the last one. *)
Fixpoint leftmost (pat : pattern) (text : str) (from : nat)
    (ms : list Match) : Prop :=
  match ms with
  | [] => forall p, (from <= p <= length text)%nat ->
                    m_here text pat p [] [] = None
  | m :: ms' =>
      (from <= m_start m)%nat /\
      (forall p, (from <= p < m_start m)%nat ->
                 m_here text pat p [] [] = None) /\
      leftmost pat text (Nat.max (m_end m) (S (m_start m))) ms'
  end.

(** Matches in the order of the text, none reaching into the next. *)
Definition in_text_order (ms : list Match) : Prop :=
  StronglySorted (fun a b => (m_end a <= m_start b)%nat) ms.

(** The line reported for a match. *)
Definition line_of (txt : str) (m : Match) : Z :=
  _get_line_number txt (Z.of_nat (m_start m)).

(** The records [out] were made, in order, for matches of the pattern
    taken from left to right in the text, which do not overlap and
    whose line numbers never decrease. *)
Definition records_in_order (pat : pattern) (R : Match -> RuleMatch -> Prop)
    (txt : str) (out : list RuleMatch) : Prop :=
  exists ms, ms `sublist_of` finditer pat txt /\
             in_text_order ms /\
             StronglySorted Z.le (map (line_of txt) ms) /\
             Forall2 R ms out.

(** What ties a record of the blank-lines check to its match. *)
Definition blank_lines_record (txt : str) (m : Match) (r : RuleMatch)
    : Prop :=
  rule_id r = lit "multiple-blank-lines" /\
  text r = str_of_int (len (group m 0) - 1)
           ++ lit " consecutive blank lines" /\
  location r = lit "Line " ++ str_of_int (line_of txt m).

(** What a record of the double-spaces check stands for: a run of [n]
    spaces, two at least, that cannot be extended, after a character
    [c] that is neither a space nor a newline; the position reported is
    the offset of the first space. *)
Definition double_spaces_run (txt : str) (r : RuleMatch) : Prop :=
  exists (before after : str) (c : N) (n : nat),
    txt = before ++ [c] ++ replicate n SPACE ++ after /\
    (2 <= n)%nat /\
    c <> SPACE /\ c <> NEWLINE /\
    head after <> Some SPACE /\
    text r = quoted (replicate n SPACE) /\
    location r =
      lit "Line "
      ++ str_of_int (Z.of_nat (occurrences NEWLINE before) + 1)
      ++ lit ", position " ++ str_of_int (len before + 1).

(** A line ends with a whitespace character. *)
Definition ends_with_space (U : unicode) (line : str) : bool :=
  match last line with
  | Some c => isspace U c
  | None => false
  end.

(** The number of lines of the text that end with whitespace. *)
Definition trailing_lines (U : unicode) (txt : str) : nat :=
  length (filter (fun line => ends_with_space U line = true)
                 (split NEWLINE txt)).

(** What a record of the blank-lines check stands for: a run of [k + 1]
    newlines, three at least, that cannot be extended; it is reported as
    [k] blank lines on the line that the first newline ends. *)
Definition blank_lines_run (txt : str) (r : RuleMatch) : Prop :=
  exists (before after : str) (k : nat),
    txt = before ++ replicate (S k) NEWLINE ++ after /\
    (2 <= k)%nat /\
    last before <> Some NEWLINE /\
    head after <> Some NEWLINE /\
    text r = str_of_int (Z.of_nat k) ++ lit " consecutive blank lines" /\
    location r =
      lit "Line " ++ str_of_int (Z.of_nat (occurrences NEWLINE before) + 1).

(** The entries of [hidden_chars] whose character occurs in the text,
    in the order of the dictionary. *)
Definition hidden_present (txt : str) : list (N * str) :=
  filter (fun entry => (0 < occurrences entry.1 txt)%nat) hidden_chars.

(** One entry of the summary: the name and the count. *)
Definition hidden_detail (txt : str) (entry : N * str) : str :=
  entry.2 ++ lit ": " ++ str_of_int (Z.of_nat (occurrences entry.1 txt)).

(** The markers of a URL looked for before a punctuation mark. *)
Definition url_markers : list str :=
  [lit "http"; lit "www."; lit "ftp"; lit ".com"; lit ".org"].

(** The (at most ten) characters that end [before]. *)
Definition last_ten (before : str) : str :=
  drop (length before - 10) before.

(** The two exclusions of the missing-space check, for a punctuation
    mark [p] that follows [before]: a marker of a URL within the ten
    characters before it, in any case of the letters, or a digit right
    before a full stop. *)
Definition excluded_punct (U : unicode) (before : str) (p : N) : bool :=
  existsb (fun x => contains (lower U (last_ten before)) x) url_markers
  || ((p =? chr ".")%N &&
      match last before with
      | Some d => isdigit U d
      | None => false
      end).

(** What a record of the missing-space check stands for: a punctuation
    mark [p] directly followed by an ASCII letter [l], not excluded;
    the suggestion puts one space between the two. *)
Definition missing_space_record (U : unicode) (txt : str) (r : RuleMatch)
    : Prop :=
  exists (before after : str) (p l : N),
    txt = before ++ [p; l] ++ after /\
    is_punct p = true /\ ascii_letter l = true /\
    excluded_punct U before p = false /\
    text r = [p; l] /\
    suggestion r = [p; SPACE; l] /\
    location r =
      lit "Line " ++ str_of_int (Z.of_nat (occurrences NEWLINE before) + 1).

(** What a record of the space-before-punct check stands for: a word
    character [w], whitespace [ws], and a punctuation mark [p]; the
    suggestion is the word character and the mark with the whitespace
    taken out. *)
Definition space_before_punct_record (U : unicode) (txt : str)
    (r : RuleMatch) : Prop :=
  exists (before after ws : str) (w p : N),
    txt = before ++ [w] ++ ws ++ [p] ++ after /\
    is_word U w = true /\
    ws <> [] /\ Forall (fun c => isspace U c = true) ws /\
    is_punct p = true /\
    text r = [w] ++ ws ++ [p] /\
    suggestion r = [w; p] /\
    location r =
      lit "Line " ++ str_of_int (Z.of_nat (occurrences NEWLINE before) + 1).

(** What a record of the double-hyphen check stands for: a word
    character, optional whitespace, two hyphens, optional whitespace and
    a word character; the suggestion is the two word characters with an
    em-dash between them. *)
Definition double_hyphen_record (U : unicode) (txt : str) (r : RuleMatch)
    : Prop :=
  exists (before after ws1 ws2 : str) (w1 w2 : N),
    txt = before ++ [w1] ++ ws1 ++ lit "--" ++ ws2 ++ [w2] ++ after /\
    is_word U w1 = true /\ is_word U w2 = true /\
    Forall (fun c => isspace U c = true) ws1 /\
    Forall (fun c => isspace U c = true) ws2 /\
    text r = [w1] ++ ws1 ++ lit "--" ++ ws2 ++ [w2] /\
    suggestion r = [w1; EM_DASH; w2] /\
    location r =
      lit "Line " ++ str_of_int (Z.of_nat (occurrences NEWLINE before) + 1).

(** [\b] between two adjacent parts of a text: exactly one of the last
    character of the left part and the first of the right part is a
    word character. *)
Definition word_boundary (U : unicode) (l r : str) : bool :=
  xorb (match last l with Some c => is_word U c | None => false end)
       (match head r with Some c => is_word U c | None => false end).

(** The words whose repetition is not reported. *)
Definition stoplist : list str :=
  [lit "that"; lit "had"; lit "very"; lit "really"; lit "blah"].

(** What a record of the repeated-words check stands for: a word, then
    whitespace, then the word again up to the case of its letters, with
    a word boundary before and after; the word, in lower case, is not in
    the stoplist. *)
Definition repeated_word_record (U : unicode) (txt : str) (r : RuleMatch)
    : Prop :=
  exists (before after word ws again : str),
    txt = before ++ word ++ ws ++ again ++ after /\
    word <> [] /\ Forall (fun c => is_word U c = true) word /\
    ws <> [] /\ Forall (fun c => isspace U c = true) ws /\
    Forall2 (fun c d => sre_lower U c = sre_lower U d) word again /\
    word_boundary U before word = true /\
    word_boundary U again after = true /\
    (lower U word ∉ stoplist) /\
    text r = word ++ ws ++ again /\
    suggestion r = lit "Remove duplicate '" ++ word ++ lit "'" /\
    location r =
      lit "Line " ++ str_of_int (Z.of_nat (occurrences NEWLINE before) + 1).

(** The category and the severity that the source gives to the records
    of each rule. *)
Definition rule_table : list (string * (string * string)) :=
  [("double-spaces", ("spacing", "medium"));
   ("repeated-words", ("grammar", "high"));
   ("missing-space-after-punct", ("spacing", "medium"));
   ("space-before-punct", ("spacing", "medium"));
   ("unclosed-brackets", ("formatting", "high"));
   ("trailing-whitespace", ("formatting", "low"));
   ("multiple-blank-lines", ("formatting", "low"));
   ("inconsistent-quotes", ("formatting", "low"));
   ("tab-characters", ("formatting", "low"));
   ("double-hyphen-emdash", ("formatting", "low"));
   ("hidden-characters", ("formatting", "medium"));
   ("straight-vs-curly-quotes", ("formatting", "low"))]%string.

(** A record of the rule [id] with the category and the severity of the
    table. *)
Definition static_record (id : string) (r : RuleMatch) : Prop :=
  exists cat sev : string,
    (id, (cat, sev)) ∈ rule_table /\
    rule_id r = lit id /\ category r = lit cat /\ severity r = lit sev.

(** The dictionary of such a record, as a consumer reads it. *)
Definition static_dict (id : string) (d : list (str * str)) : Prop :=
  exists cat sev : string,
    (id, (cat, sev)) ∈ rule_table /\
    dict_get d (lit "rule_id") = Some (lit id) /\
    dict_get d (lit "category") = Some (lit cat) /\
    dict_get d (lit "severity") = Some (lit sev) /\
    dict_get d (lit "source") = Some (lit "rule").

(** The issues that count for the spelling and grammar score, and for
    the required-content score. *)
Definition counts_for_spelling (i : Models.Issue) : Prop :=
  Models.affects_score i = true /\
  Models.category i ∈ [Models.SPELLING; Models.GRAMMAR; Models.SPACING].

Definition counts_for_content (i : Models.Issue) : Prop :=
  Models.affects_score i = true /\
  Models.category i = Models.MISSING_CONTENT.

(** The document cut at the match [m]: [before] is what precedes the
    match, [matched] the span [text[start:end]] and [after] the rest. *)
Definition cut_at (txt : str) (m : Match) (before matched after : str)
    : Prop :=
  txt = before ++ matched ++ after /\
  length before = m_start m /\
  length (before ++ matched) = m_end m.

(** The matched text of the record made for the match [m] is the span
    [text[start:end]] of that match, as [shown] renders it. *)
Definition text_of_span (shown : str -> str) (txt : str) (m : Match)
    (r : RuleMatch) : Prop :=
  text r = shown (slice txt (Z.of_nat (m_start m)) (Z.of_nat (m_end m))).

(** The matched text that the blank-lines check writes for a run of
    newlines: a description, with the number of newlines less one. *)
Definition blank_lines_text (newlines : str) : str :=
  str_of_int (len newlines - 1) ++ lit " consecutive blank lines".

(** The column of the position that follows [before]: the number of
    characters since the last newline. *)
Definition column (before : str) : nat :=
  length (default [] (last (split NEWLINE before))).

(** The number of characters of the given lines, each counted with the
    newline that ends it. *)
Definition lines_length (lines : list str) : nat :=
  sum_list (map (fun line => S (length line)) lines).

(** The location of the double-spaces record made for the match [m],
    whose span the record quotes: the line is one more than the number
    of newlines before the match, and the position is the number of
    characters of the whole document before the match.  The position is
    the column of the match in its line plus the lengths of all the
    lines before that line. *)
Definition located_by_offset (txt : str) (m : Match) (r : RuleMatch)
    : Prop :=
  exists before matched after : str,
    cut_at txt m before matched after /\
    text r = quoted matched /\
    location r =
      lit "Line "
      ++ str_of_int (Z.of_nat (occurrences NEWLINE before) + 1)
      ++ lit ", position " ++ str_of_int (len before) /\
    length before
    = (lines_length (take (occurrences NEWLINE before) (split NEWLINE txt))
       + column before)%nat.

(** The location of the record made for the match [m] by one of the
    other checks, whose matched text shows the span as [shown] renders
    it: the line of the start of the match, and nothing else. *)
Definition located_by_line (shown : str -> str) (txt : str) (m : Match)
    (r : RuleMatch) : Prop :=
  exists before matched after : str,
    cut_at txt m before matched after /\
    text r = shown matched /\
    location r =
      lit "Line " ++ str_of_int (Z.of_nat (occurrences NEWLINE before) + 1).

(** The context of the record made for the match [m]: the span of the
    match between the last 30 characters of the document before it and
    the first 30 after it (all of them where there are fewer), with an
    ellipsis on a side where the document has more than these. *)
Definition shown_in_context (shown : str -> str) (txt : str) (m : Match)
    (r : RuleMatch) : Prop :=
  exists before matched after : str,
    cut_at txt m before matched after /\
    text r = shown matched /\
    context r =
      (if (30 <? length before)%nat then lit "..." else [])
      ++ drop (length before - 30) before
      ++ matched
      ++ take 30 after
      ++ (if (30 <? length after)%nat then lit "..." else []).

(** What the loop of the double-spaces check writes into the record it
    appends for the match [m], beside the fixed fields. *)
Definition double_spaces_fields (txt : str) (m : Match) (r : RuleMatch)
    : Prop :=
  text r = repr (group m 0) /\
  location r =
    lit "Line "
    ++ str_of_int (_get_line_number txt (Z.of_nat (m_start m)))
    ++ lit ", position " ++ str_of_int (Z.of_nat (m_start m)) /\
  context r =
    _get_context txt (Z.of_nat (m_start m)) (Z.of_nat (m_end m))
      context_chars_default.

(** The same for the repeated-words, missing-space, space-before-punct
    and double-hyphen checks. *)
Definition point_fields (txt : str) (m : Match) (r : RuleMatch) : Prop :=
  text r = group m 0 /\
  location r =
    lit "Line " ++ str_of_int (_get_line_number txt (Z.of_nat (m_start m))) /\
  context r =
    _get_context txt (Z.of_nat (m_start m)) (Z.of_nat (m_end m))
      context_chars_default.

(** The conditionals of [check_all] on the store, as a loop over the
    table. *)
Fixpoint run_in_store (self : Stateful.ref)
    (reg : list (string * res (list RuleMatch))) (matches : Stateful.ref)
    : Stateful.M Stateful.ref :=
  match reg with
  | [] => Stateful.ret matches
  | (id, check) :: reg' =>
      Stateful.bind (Stateful.extend_unless_disabled self id check matches)
        (fun _ => run_in_store self reg' matches)
  end.

(** * Properties *)

(** ** Python strings *)

Section PyFacts.

Lemma len_nonneg (s : str) : 0 <= len s.
Proof. unfold len. lia. Qed.

Lemma len_app (s t : str) : len (s ++ t) = len s + len t.
Proof. unfold len. rewrite length_app. lia. Qed.

(** Inside the bounds a slice is the plain take-after-drop. *)
Lemma slice_inside (s : str) (lo hi : Z) :
  0 <= lo <= hi -> hi <= len s ->
  slice s lo hi = take (Z.to_nat (hi - lo)) (drop (Z.to_nat lo) s).
Proof.
  intros Hlo Hhi. unfold slice, clip.
  destruct (Z.ltb_spec lo 0); [lia|].
  destruct (Z.ltb_spec hi 0); [lia|].
  rewrite !Z.min_l by lia. reflexivity.
Qed.

(** A slice cuts the string in three. *)
Lemma slice_split (s : str) (lo hi : Z) :
  0 <= lo <= hi -> hi <= len s ->
  s = take (Z.to_nat lo) s ++ slice s lo hi ++ drop (Z.to_nat hi) s.
Proof.
  intros Hlo Hhi. rewrite slice_inside by assumption.
  rewrite <- (take_drop (Z.to_nat lo) s) at 1. f_equal.
  rewrite <- (take_drop (Z.to_nat (hi - lo)) (drop (Z.to_nat lo) s)) at 1.
  f_equal. rewrite drop_drop. f_equal. lia.
Qed.

Lemma slice_length (s : str) (lo hi : Z) :
  0 <= lo <= hi -> hi <= len s -> len (slice s lo hi) = hi - lo.
Proof.
  intros Hlo Hhi. rewrite slice_inside by assumption.
  unfold len in *. rewrite length_take, length_drop. lia.
Qed.

(** Counting a one-character pattern counts the character. *)
Lemma count_from_char (c : N) (s : str) :
  count_from [c] O s = occurrences c s.
Proof.
  unfold occurrences. induction s as [|d s IH]; [reflexivity|].
  cbn [count_from startswith length Nat.pred].
  rewrite filter_cons. destruct (N.eqb_spec c d) as [->|Hne].
  - destruct s; cbn [andb]; rewrite decide_True by reflexivity;
      cbn [length]; f_equal; exact IH.
  - cbn [andb]. rewrite decide_False by congruence. exact IH.
Qed.

Lemma count_char (c : N) (s : str) :
  count s [c] = Z.of_nat (occurrences c s).
Proof. unfold count. f_equal. apply count_from_char. Qed.

End PyFacts.

(** ** The scanner *)

Section ReFacts.

Lemma run_le (p : N -> bool) (s : str) : (run p s <= length s)%nat.
Proof.
  induction s as [|c s IH]; simpl; [lia|]. destruct (p c); simpl; lia.
Qed.

Lemma run_take (p : N -> bool) (s : str) (k : nat) :
  (k <= run p s)%nat -> Forall (fun c => p c = true) (take k s).
Proof.
  revert k. induction s as [|c s IH]; intros k Hk.
  - rewrite take_nil. constructor.
  - destruct k as [|k]; [constructor|]. simpl in Hk.
    destruct (p c) eqn:Hp; [|lia]. simpl. constructor; [assumption|].
    apply IH. lia.
Qed.

(** What [give_back] returns is the continuation at some admissible
    count. *)
Lemma give_back_some {A} (lo : nat) (k : nat -> option A) (n : nat) (x : A) :
  give_back lo k n = Some x ->
  exists j, (lo <= j <= n)%nat /\ k j = Some x.
Proof.
  induction n as [|n IH]; simpl.
  - destruct (Nat.leb_spec lo 0); [|discriminate].
    destruct (k O) eqn:Hk; [|discriminate].
    intros [= ->]. exists O. split; [lia|assumption].
  - destruct (Nat.leb_spec lo (S n)) as [Hle|Hlt].
    + destruct (k (S n)) eqn:Hk.
      * intros [= ->]. exists (S n). split; [lia|assumption].
      * intros H. destruct (IH H) as (j & Hj & Hkj). exists j.
        split; [lia|assumption].
    + intros H. destruct (IH H) as (j & Hj & Hkj). exists j.
      split; [lia|assumption].
Qed.

(** The longest admissible count is tried first. *)
Lemma give_back_longest {A} (lo : nat) (k : nat -> option A) (n : nat) (x : A) :
  (lo <= n)%nat -> k n = Some x -> give_back lo k n = Some x.
Proof.
  intros Hle Hk. destruct n; simpl.
  - destruct (Nat.leb_spec lo 0); [|lia]. rewrite Hk. reflexivity.
  - destruct (Nat.leb_spec lo (S n)); [|lia]. rewrite Hk. reflexivity.
Qed.

Lemma give_back_below {A} (lo : nat) (k : nat -> option A) (n : nat) :
  (n < lo)%nat -> give_back lo k n = None.
Proof.
  induction n as [|n IH]; intros Hlt; simpl.
  - destruct (Nat.leb_spec lo 0); [lia|reflexivity].
  - destruct (Nat.leb_spec lo (S n)); [lia|]. apply IH. lia.
Qed.

Lemma class_at_lt (p : N -> bool) (text : str) (pos : nat) :
  class_at p text pos = true -> (pos < length text)%nat.
Proof.
  unfold class_at. destruct (text !! pos) eqn:H; [|discriminate].
  intros _. eapply lookup_lt_Some. exact H.
Qed.

Lemma backref_bound (fold : N -> N) (text : str) (n s pos : nat) :
  (pos <= length text)%nat -> backref fold text n s pos = true ->
  (pos + n <= length text)%nat.
Proof.
  revert s pos. induction n as [|n IH]; intros s pos Hpos H; [lia|].
  simpl in H. destruct (text !! s); [|discriminate].
  destruct (text !! pos) eqn:Hd; [|discriminate].
  apply lookup_lt_Some in Hd. apply andb_true_iff in H as [_ H].
  apply IH in H; lia.
Qed.

(** A match that starts inside the text ends inside the text, at or
    after its start. *)
Lemma m_here_bounds (text : str) (its : pattern) :
  forall pos os gs e gs',
    (pos <= length text)%nat ->
    m_here text its pos os gs = Some (e, gs') ->
    (pos <= e <= length text)%nat.
Proof.
  induction its as [|it r IH]; intros pos os gs e gs' Hpos H.
  - simpl in H. injection H as <- <-. lia.
  - destruct it as [p|p lo|w|g|g|g fold]; simpl in H.
    + destruct (class_at p text pos) eqn:Hc; [|discriminate].
      apply class_at_lt in Hc. apply IH in H; lia.
    + apply give_back_some in H as (j & Hj & H).
      pose proof (run_le p (drop pos text)) as Hr.
      rewrite length_drop in Hr. apply IH in H; lia.
    + destruct (boundary w text pos); [|discriminate]. apply IH in H; lia.
    + apply IH in H; lia.
    + destruct (assoc g os); [|discriminate]. apply IH in H; lia.
    + destruct (assoc g gs) as [[s e0]|]; [|discriminate].
      destruct (backref _ _ _ _ _) eqn:Hf; [|discriminate].
      apply backref_bound in Hf; [|exact Hpos]. apply IH in H; lia.
Qed.

(** Every match object of a scan is a match of the pattern at its start,
    on the scanned text, within the text. *)
Lemma scan_is_match (pat : pattern) (text : str) (fuel pos : nat) :
  Forall (is_match pat text) (scan text pat fuel pos).
Proof.
  revert pos. induction fuel as [|fuel IH]; intros pos; simpl; [constructor|].
  destruct (Nat.ltb_spec (length text) pos) as [Hgt|Hle]; [constructor|].
  destruct (m_here text pat pos [] []) as [[e gs]|] eqn:Hm; [|apply IH].
  constructor; [|apply IH].
  split; [reflexivity|]. split; [|exact Hm].
  simpl. eapply m_here_bounds; eassumption.
Qed.

Lemma finditer_is_match (pat : pattern) (text : str) :
  Forall (is_match pat text) (finditer pat text).
Proof. apply scan_is_match. Qed.

(** The fuel of [finditer] is enough: more fuel finds the same matches. *)
Lemma scan_fuel (pat : pattern) (text : str) (fuel fuel' pos : nat) :
  (length text < pos + fuel)%nat -> (length text < pos + fuel')%nat ->
  scan text pat fuel pos = scan text pat fuel' pos.
Proof.
  revert fuel' pos. induction fuel as [|fuel IH]; intros fuel' pos H H'.
  - destruct fuel'; simpl; [reflexivity|].
    destruct (Nat.ltb_spec (length text) pos); [reflexivity|lia].
  - destruct fuel' as [|fuel']; simpl.
    + destruct (Nat.ltb_spec (length text) pos); [reflexivity|lia].
    + destruct (Nat.ltb_spec (length text) pos); [reflexivity|].
      destruct (m_here text pat pos [] []) as [[e gs]|].
      * f_equal. apply IH; lia.
      * apply IH; lia.
Qed.

(** [m.group()] of a match is the slice of the text between its ends. *)
Lemma group_0 (pat : pattern) (text : str) (m : Match) :
  is_match pat text m ->
  group m 0 = slice text (Z.of_nat (m_start m)) (Z.of_nat (m_end m)).
Proof. intros [H _]. unfold group. rewrite H. reflexivity. Qed.

(** A match of [c{lo,}] alone is the whole run of [c] at its start. *)
Lemma rep_match (p : N -> bool) (lo : nat) (text : str) (m : Match) :
  is_match [Rep p lo] text m ->
  m_end m = (m_start m + run p (drop (m_start m) text))%nat /\
  (lo <= run p (drop (m_start m) text))%nat.
Proof.
  intros (_ & _ & H). simpl in H.
  destruct (Nat.le_gt_cases lo (run p (drop (m_start m) text))) as [Hle|Hgt].
  - erewrite give_back_longest in H; [|exact Hle|reflexivity].
    injection H as H _. split; [symmetry; exact H|exact Hle].
  - rewrite give_back_below in H by exact Hgt. discriminate.
Qed.

Lemma rep_match_chars (p : N -> bool) (lo : nat) (text : str) (m : Match) :
  is_match [Rep p lo] text m ->
  Forall (fun c => p c = true) (group m 0) /\
  (lo <= length (group m 0))%nat.
Proof.
  intros Hm. pose proof (rep_match _ _ _ _ Hm) as [He Hlo].
  rewrite (group_0 _ _ _ Hm).
  destruct Hm as (_ & Hb & _).
  rewrite slice_inside by (unfold len; lia).
  replace (Z.to_nat (Z.of_nat (m_end m) - Z.of_nat (m_start m)))
    with (run p (drop (m_start m) text)) by lia.
  rewrite Nat2Z.id. split.
  - apply run_take. lia.
  - rewrite length_take. pose proof (run_le p (drop (m_start m) text)). lia.
Qed.

End ReFacts.

(** ** C8: the context window *)

(** C8.  For a span with [0 <= start <= end <= len(text)] the context
    helper returns the part of the text from 30 characters before
    [start] (or the document start) to 30 characters after [end] (or
    the document end): the text is [before ++ window ++ after] where
    [before] has [max 0 (start - 30)] characters and [after] has
    [max 0 (len - (end + 30))], and the result is [window] with the
    ellipsis in front exactly when [before] is not empty and the
    ellipsis behind exactly when [after] is not empty.  The helper is a
    total function: no index is out of bounds, also for a span at
    position 0 or at the end of the document. *)
Theorem get_context_window (text : str) (start end_ : Z) :
  0 <= start -> start <= end_ -> end_ <= len text ->
  exists before window after : str,
    text = before ++ window ++ after /\
    len before = Z.max 0 (start - 30) /\
    len after = Z.max 0 (len text - (end_ + 30)) /\
    _get_context text start end_ context_chars_default =
      (if bool_decide (before = []) then [] else lit "...")
      ++ window ++
      (if bool_decide (after = []) then [] else lit "...").
Proof.
  intros H0 H1 H2.
  set (a := Z.max 0 (start - 30)).
  set (b := Z.min (len text) (end_ + 30)).
  assert (Ha : 0 <= a <= b) by (unfold a, b; lia).
  assert (Hb : b <= len text) by (unfold b; lia).
  exists (take (Z.to_nat a) text), (slice text a b), (drop (Z.to_nat b) text).
  split; [apply slice_split; assumption|].
  split; [unfold len in *; rewrite length_take; lia|].
  split; [unfold len in *; rewrite length_drop; unfold b; lia|].
  unfold _get_context, context_chars_default. fold a b.
  f_equal; [|f_equal].
  - destruct (Z.ltb_spec 0 a) as [Hpos|Hz].
    + rewrite bool_decide_eq_false_2; [reflexivity|].
      intros Hnil. apply (f_equal (@length N)) in Hnil.
      rewrite length_take in Hnil. unfold len in *. simpl in Hnil. lia.
    + rewrite bool_decide_eq_true_2; [reflexivity|].
      replace a with 0 by lia. reflexivity.
  - destruct (Z.ltb_spec b (len text)) as [Hlt|Hge].
    + rewrite bool_decide_eq_false_2; [reflexivity|].
      intros Hnil. apply (f_equal (@length N)) in Hnil.
      rewrite length_drop in Hnil. unfold len in *. simpl in Hnil. lia.
    + rewrite bool_decide_eq_true_2; [reflexivity|].
      apply drop_ge. unfold len in *. lia.
Qed.

Lemma get_context_window_witness :
  exists before window after : str,
    lit "Hello  world" = before ++ window ++ after /\
    len before = Z.max 0 (5 - 30) /\
    len after = Z.max 0 (len (lit "Hello  world") - (7 + 30)) /\
    _get_context (lit "Hello  world") 5 7 context_chars_default =
      (if bool_decide (before = []) then [] else lit "...")
      ++ window ++
      (if bool_decide (after = []) then [] else lit "...").
Proof.
  apply (get_context_window (lit "Hello  world") 5 7);
    [lia | lia | vm_compute; discriminate].
Defined.

(** ** Loops over the matches *)

Section Loops.

Context {A B : Type}.

(** A loop whose body cannot raise on the elements it meets returns,
    and every record it appends comes from one of the elements. *)
Lemma for_append_ok (body : A -> res (option B)) (xs : list A)
    (P : A -> Prop) (R : A -> B -> Prop) :
  Forall P xs ->
  (forall x, P x ->
     exists o, body x = Ok o /\ forall b, o = Some b -> R x b) ->
  exists out, for_append body xs = Ok out /\
              Forall (fun b => exists x, x ∈ xs /\ P x /\ R x b) out.
Proof.
  intros HP Hbody. induction HP as [|x xs Hx HP IH].
  - exists []. split; [reflexivity|constructor].
  - destruct IH as (rest & Hrest & Hall).
    destruct (Hbody x Hx) as (o & Ho & HR).
    assert (Hall' : Forall (fun b => exists y, y ∈ x :: xs /\ P y /\ R y b) rest).
    { eapply Forall_impl; [exact Hall|].
      intros b (y & Hy & HPy & HRy). exists y.
      split; [right; exact Hy|split; assumption]. }
    cbn [for_append]. rewrite Ho. cbn. rewrite Hrest. cbn.
    destruct o as [b|]; eexists; (split; [reflexivity|]); [|exact Hall'].
    constructor; [|exact Hall'].
    exists x. split; [left|split; [exact Hx|apply HR; reflexivity]].
Qed.

End Loops.

Lemma getitem_ok (s : str) (i : Z) :
  0 <= i < len s -> exists c, getitem s i = Ok c.
Proof.
  intros Hi. unfold getitem.
  destruct (Z.ltb_spec i 0); [lia|].
  destruct (Z.leb_spec 0 i); [|lia].
  destruct (Z.ltb_spec i (len s)); [|lia]. cbn.
  destruct (s !! Z.to_nat i) eqn:Hs; [eexists; reflexivity|].
  apply lookup_ge_None in Hs. unfold len in *. lia.
Qed.

(** [repr] of a run of spaces is the run between apostrophes. *)
Lemma repr_spaces (s : str) :
  Forall (fun c => is_char SPACE c = true) s -> repr s = quoted s.
Proof.
  intros Hs. unfold repr, quoted.
  assert (Hflat : flat_map (repr_char QUOTE) s = s).
  { induction Hs as [|c s Hc _ IH]; [reflexivity|].
    unfold is_char in Hc. apply N.eqb_eq in Hc. subst c.
    cbn [flat_map]. rewrite IH. reflexivity. }
  assert (Hmem : mem QUOTE s = false).
  { clear Hflat. induction Hs as [|c s Hc _ IH]; [reflexivity|].
    unfold mem in *. simpl. rewrite IH.
    unfold is_char in Hc. apply N.eqb_eq in Hc. subst c. reflexivity. }
  rewrite Hmem. cbn [andb].
  rewrite Hflat. reflexivity.
Qed.

(** ** The double-spaces check *)

(** The check never raises: the character before the match is read only
    when the match does not start the text. *)
Lemma check_double_spaces_ok (txt : str) :
  exists out,
    _check_double_spaces txt = Ok out /\
    Forall (fun r => exists m, m ∈ finditer re_double_spaces txt /\
                               is_match re_double_spaces txt m /\
                               double_spaces_record txt m r) out.
Proof.
  unfold _check_double_spaces.
  apply for_append_ok; [apply finditer_is_match|].
  intros m (_ & Hb & _).
  destruct (Z.eqb_spec (Z.of_nat (m_start m)) 0) as [Hz|Hnz].
  - exists None. split; [reflexivity|discriminate].
  - destruct (getitem_ok txt (Z.of_nat (m_start m) - 1)) as [c Hc];
      [unfold len; lia|].
    rewrite Hc. cbn. destruct (c =? NEWLINE)%N.
    + exists None. split; [reflexivity|discriminate].
    + eexists. split; [reflexivity|].
      intros r [= <-]. repeat split.
Qed.

(** ** The other checks that report one record per match *)

Section PointChecks.

Variable U : unicode.

Lemma records_of_map (pat : pattern) (R : Match -> RuleMatch -> Prop)
    (txt : str) (f : Match -> RuleMatch) :
  (forall m, R m (f m)) ->
  records_of pat R txt (map f (finditer pat txt)).
Proof.
  intros Hf. apply Forall_forall. intros r Hr.
  apply list_elem_of_fmap in Hr as (m & -> & Hm). exists m.
  split; [exact Hm|]. split; [|apply Hf].
  pose proof (finditer_is_match pat txt) as Hall.
  rewrite Forall_forall in Hall. apply Hall, Hm.
Qed.

Lemma check_repeated_words_records (txt : str) :
  records_of (re_repeated_words U) (point_record "repeated-words" txt) txt
    (_check_repeated_words U txt).
Proof.
  apply Forall_forall. intros r Hr. unfold _check_repeated_words in Hr.
  apply list_elem_of_omap in Hr as (m & Hm & Hr). exists m.
  split; [exact Hm|]. split.
  - pose proof (finditer_is_match (re_repeated_words U) txt) as Hall.
    rewrite Forall_forall in Hall. apply Hall, Hm.
  - destruct (bool_decide _); [discriminate|].
    injection Hr as <-. repeat split.
Qed.

Lemma check_missing_space_ok (txt : str) :
  exists out,
    _check_missing_space_after_punct U txt = Ok out /\
    records_of re_missing_space_after_punct
      (point_record "missing-space-after-punct" txt) txt out.
Proof.
  unfold _check_missing_space_after_punct, records_of.
  apply for_append_ok; [apply finditer_is_match|].
  intros m (_ & Hb & _).
  destruct (existsb _ _).
  { exists None. split; [reflexivity|discriminate]. }
  destruct (bool_decide (group m 1 = lit ".")); cbn [andb].
  - destruct (Z.ltb_spec 0 (Z.of_nat (m_start m))) as [Hpos|Hz].
    + destruct (getitem_ok txt (Z.of_nat (m_start m) - 1)) as [c Hc];
        [unfold len; lia|].
      rewrite Hc. cbn. destruct (isdigit U c).
      * exists None. split; [reflexivity|discriminate].
      * eexists. split; [reflexivity|]. intros r [= <-]. repeat split.
    + eexists. split; [reflexivity|]. intros r [= <-]. repeat split.
  - eexists. split; [reflexivity|]. intros r [= <-]. repeat split.
Qed.

Lemma check_space_before_punct_records (txt : str) :
  records_of (re_space_before_punct U)
    (point_record "space-before-punct" txt) txt
    (_check_space_before_punct U txt).
Proof. apply records_of_map. intros m. repeat split. Qed.

Lemma check_double_hyphen_emdash_records (txt : str) :
  records_of (re_double_hyphen_emdash U)
    (point_record "double-hyphen-emdash" txt) txt
    (_check_double_hyphen_emdash U txt).
Proof. apply records_of_map. intros m. repeat split. Qed.

End PointChecks.

(** ** C4: the matched text *)

(** C4, counterexample.  On [Hello  world] the double-spaces check
    reports one record whose matched text is the four characters
    apostrophe, space, space, apostrophe, not the two spaces of the
    document; and on a text with three newlines in a row the
    blank-lines check reports a record whose matched text is a
    description, not the newlines. *)
Lemma double_spaces_text_is_not_literal :
  (exists out,
     _check_double_spaces (lit "Hello  world") = Ok out /\
     ~ Forall (matched_text_literal re_double_spaces (lit "Hello  world"))
         out) /\
  ~ Forall (matched_text_literal re_multiple_blank_lines
              (lit "a" ++ [NEWLINE; NEWLINE; NEWLINE] ++ lit "b"))
      (_check_multiple_blank_lines
         (lit "a" ++ [NEWLINE; NEWLINE; NEWLINE] ++ lit "b")).
Proof.
  split.
  - eexists. split; [vm_compute; reflexivity|].
    intros H. apply Forall_cons in H as [(m & Hm & Ht) _].
    vm_compute in Hm. apply list_elem_of_singleton in Hm. subst m.
    vm_compute in Ht. discriminate.
  - intros H. vm_compute in H.
    apply Forall_cons in H as [(m & Hm & Ht) _].
    apply list_elem_of_singleton in Hm. subst m.
    vm_compute in Ht. discriminate.
Qed.

(** ** The line of a position *)

Lemma get_line_number_take (txt : str) (k : nat) :
  (k <= length txt)%nat ->
  _get_line_number txt (Z.of_nat k)
  = Z.of_nat (occurrences NEWLINE (take k txt)) + 1.
Proof.
  intros Hk. unfold _get_line_number.
  rewrite slice_inside by (unfold len; lia).
  rewrite count_char. rewrite Z.sub_0_r, Nat2Z.id. reflexivity.
Qed.

(** ** C5: the bracket balance *)

(** C5.  The records of the unclosed-brackets check are those of the
    pair of parentheses, then of the square brackets, then of the
    braces; each pair, whatever the other two, contributes one record
    exactly when the number of its opening character differs from the
    number of its closing character, named Unclosed Bracket when the
    openings are more and Extra Closing Bracket when the closings are
    more, of severity high in both cases whatever the difference.  On
    [(a, (b)] the check returns one record, for the parenthesis, and on
    [(a, b)] none. *)
Theorem unclosed_brackets_per_pair (txt : str) :
  (exists round square curly,
     _check_unclosed_brackets txt = round ++ square ++ curly /\
     bracket_verdict txt (chr "(") (chr ")") round /\
     bracket_verdict txt (chr "[") (chr "]") square /\
     bracket_verdict txt (chr "{") (chr "}") curly) /\
  (exists r, _check_unclosed_brackets (lit "(a, (b)") = [r] /\
     text r = lit "1 unclosed '('" /\ severity r = lit "high") /\
  _check_unclosed_brackets (lit "(a, b)") = [].
Proof.
  split; [|split; [eexists; repeat split|reflexivity]].
  unfold _check_unclosed_brackets, pairs. cbn [flat_map].
  rewrite app_nil_r. rewrite !count_char.
  do 3 eexists. split; [reflexivity|].
  repeat split; unfold bracket_verdict; cbv zeta;
    match goal with
    | |- context [bool_decide (Z.of_nat ?a ≠ Z.of_nat ?b)] =>
        generalize (Z.of_nat a) (Z.of_nat b); intros opens closes
    end;
    (destruct (decide (opens = closes)) as [Heq|Hne];
     [ rewrite bool_decide_eq_false_2 by (intros H; apply H, Heq);
       left; split; [exact Heq|reflexivity]
     | rewrite bool_decide_eq_true_2 by exact Hne;
       destruct (Z.ltb_spec 0 (opens - closes)) as [Hpos|Hneg];
       [ right; left; split; [lia|]; eexists; repeat split
       | right; right; split; [lia|]; eexists;
         split; [reflexivity|]; cbn [rule_id severity rule_name text];
         replace (- (opens - closes)) with (closes - opens) by lia;
         repeat split ] ]).
Qed.

(** ** The dispatcher *)

Section Dispatcher.

Variable U : unicode.

Lemma check_all_registry (self : RuleChecker) (txt : str) :
  check_all U self txt = run_registry self (registry U txt) [].
Proof. reflexivity. Qed.

Lemma registry_catalogue (txt : str) :
  map fst (registry U txt) = catalogue.
Proof. reflexivity. Qed.

Lemma well_tagged_pure (id : string) (out : list RuleMatch) :
  Forall (fun r => rule_id r = lit id) out -> well_tagged (id, mret out).
Proof. intros H. exists out. split; [reflexivity|exact H]. Qed.

Lemma records_of_tagged (pat : pattern) (id : string) (txt : str)
    (out : list RuleMatch) :
  records_of pat (point_record id txt) txt out ->
  Forall (fun r => rule_id r = lit id) out.
Proof.
  intros Hall. eapply Forall_impl; [exact Hall|].
  intros r (m & _ & _ & Hid & _). exact Hid.
Qed.

Ltac tagged_cases :=
  repeat match goal with
         | |- context [if ?b then _ else _] => destruct b
         end;
  cbn [app]; repeat constructor.

Lemma registry_well_tagged (txt : str) :
  Forall well_tagged (registry U txt).
Proof.
  unfold registry. repeat apply Forall_cons_2; try apply Forall_nil_2.
  - destruct (check_double_spaces_ok txt) as (out & Hout & Hall).
    exists out. split; [exact Hout|].
    eapply Forall_impl; [exact Hall|].
    intros r (m & _ & _ & Hid & _). exact Hid.
  - apply well_tagged_pure.
    eapply records_of_tagged, check_repeated_words_records.
  - destruct (check_missing_space_ok U txt) as (out & Hout & Hall).
    exists out. split; [exact Hout|]. eapply records_of_tagged, Hall.
  - apply well_tagged_pure.
    eapply records_of_tagged, check_space_before_punct_records.
  - apply well_tagged_pure. unfold _check_unclosed_brackets, pairs.
    cbn [flat_map]. tagged_cases.
  - apply well_tagged_pure. unfold _check_trailing_whitespace.
    tagged_cases.
  - apply well_tagged_pure. apply Forall_forall. intros r Hr.
    apply list_elem_of_fmap in Hr as (m & -> & _). reflexivity.
  - apply well_tagged_pure. unfold _check_inconsistent_quotes.
    tagged_cases.
  - apply well_tagged_pure. unfold _check_tab_characters. tagged_cases.
  - apply well_tagged_pure.
    eapply records_of_tagged, check_double_hyphen_emdash_records.
  - apply well_tagged_pure. unfold _check_hidden_characters. tagged_cases.
  - apply well_tagged_pure. unfold _check_straight_vs_curly_quotes.
    tagged_cases.
Qed.

(** Running a table of checks that all return gives the blocks of the
    table, one after the other, behind what was there. *)
Lemma run_registry_blocks (self : RuleChecker)
    (reg : list (string * res (list RuleMatch))) :
  Forall well_tagged reg ->
  forall matches, exists blocks,
    run_registry self reg matches = Ok (matches ++ concat blocks) /\
    Forall2 (fun entry block =>
               block_of self entry.1 entry.2 block /\
               Forall (fun r => rule_id r = lit entry.1) block)
            reg blocks.
Proof.
  induction 1 as [|[id check] reg (out & Hout & Htag) _ IH]; intros matches.
  - exists []. split; [cbn; rewrite app_nil_r; reflexivity|constructor].
  - cbn [run_registry]. unfold extend_unless_disabled at 1.
    cbn [fst snd] in Hout, Htag. subst check.
    destruct (decide (lit id ∈ disabled_rules self)) as [Hin|Hout'].
    + rewrite bool_decide_eq_false_2 by (intros Hn; apply Hn, Hin).
      destruct (IH matches) as (blocks & Hrun & Hall).
      exists ([] :: blocks). split; [exact Hrun|].
      constructor; [|exact Hall]. split; [|constructor].
      unfold block_of. cbn [fst snd].
      rewrite bool_decide_eq_true_2 by exact Hin. reflexivity.
    + rewrite bool_decide_eq_true_2 by exact Hout'.
      destruct (IH (matches ++ out)) as (blocks & Hrun & Hall).
      exists (out :: blocks). split.
      * cbn. cbn in Hrun. rewrite Hrun. rewrite <- app_assoc. reflexivity.
      * constructor; [|exact Hall]. split; [|exact Htag].
        unfold block_of. cbn [fst snd].
        rewrite bool_decide_eq_false_2 by exact Hout'. reflexivity.
Qed.

End Dispatcher.

Section DispatcherClaims.

Variable U : unicode.

Lemma filter_all (D : gset str) (id : str) (block : list RuleMatch) :
  Forall (fun r => rule_id r = id) block -> id ∉ D ->
  filter (fun r => rule_id r ∉ D) block = block.
Proof.
  intros Htag Hid. induction Htag as [|r block Hr _ IH]; [reflexivity|].
  rewrite filter_cons, decide_True by (rewrite Hr; exact Hid).
  rewrite IH. reflexivity.
Qed.

Lemma filter_none (D : gset str) (id : str) (block : list RuleMatch) :
  Forall (fun r => rule_id r = id) block -> id ∈ D ->
  filter (fun r => rule_id r ∉ D) block = [].
Proof.
  intros Htag Hid. induction Htag as [|r block Hr _ IH]; [reflexivity|].
  rewrite filter_cons, decide_False by (rewrite Hr; intros Hn; apply Hn, Hid).
  exact IH.
Qed.

(** Filtering the blocks of a run with nothing disabled gives the
    blocks of the run with [self]. *)
Lemma filter_blocks (self : RuleChecker)
    (reg : list (string * res (list RuleMatch))) :
  forall all_blocks blocks,
    Forall2 (fun entry block =>
               block_of (__init__ None) entry.1 entry.2 block /\
               Forall (fun r => rule_id r = lit entry.1) block)
            reg all_blocks ->
    Forall2 (fun entry block =>
               block_of self entry.1 entry.2 block /\
               Forall (fun r => rule_id r = lit entry.1) block)
            reg blocks ->
    filter (fun r => rule_id r ∉ disabled_rules self) (concat all_blocks)
    = concat blocks.
Proof.
  induction reg as [|[id check] reg IH]; intros all_blocks blocks Hall Hself.
  - apply Forall2_nil_inv_l in Hall. apply Forall2_nil_inv_l in Hself.
    subst. reflexivity.
  - apply Forall2_cons_inv_l in Hall
      as (b0 & rest0 & (Hb0 & Htag0) & Hrest0 & ->).
    apply Forall2_cons_inv_l in Hself
      as (b & rest & (Hb & Htag) & Hrest & ->).
    cbn [concat fst snd] in *. rewrite filter_app.
    rewrite (IH _ _ Hrest0 Hrest). f_equal.
    unfold block_of in Hb0, Hb. cbn in Hb0.
    rewrite bool_decide_eq_false_2 in Hb0 by apply not_elem_of_empty.
    destruct (decide (lit id ∈ disabled_rules self)) as [Hin|Hnin].
    + rewrite bool_decide_eq_true_2 in Hb by exact Hin. subst b.
      eapply filter_none; eassumption.
    + rewrite bool_decide_eq_false_2 in Hb by exact Hnin.
      rewrite Hb0 in Hb. injection Hb as ->.
      eapply filter_all; eassumption.
Qed.

(** A run depends on the disabled set only through the ids of the
    table. *)
Lemma run_registry_ext (c1 c2 : RuleChecker)
    (reg : list (string * res (list RuleMatch))) :
  Forall (fun entry => lit entry.1 ∈ disabled_rules c1
                       <-> lit entry.1 ∈ disabled_rules c2) reg ->
  forall matches, run_registry c1 reg matches = run_registry c2 reg matches.
Proof.
  induction 1 as [|[id check] reg Hid _ IH]; intros matches; [reflexivity|].
  cbn [run_registry]. unfold extend_unless_disabled. cbn [fst] in Hid.
  destruct (decide (lit id ∈ disabled_rules c1)) as [H1|H1].
  - rewrite !bool_decide_eq_false_2
      by (intros Hn; apply Hn; tauto). cbn. apply IH.
  - rewrite !bool_decide_eq_true_2 by tauto.
    destruct check as [out|e]; [cbn; apply IH|reflexivity].
Qed.

(** C1.  Whatever the text and the disabled set, [check_all] with
    nothing disabled returns a list [all], and [check_all] with the set
    disabled returns [all] without the records whose [rule_id] is in the
    set, in the same order and with nothing added; and an id that is not
    one of the twelve of the catalogue can be taken out of the disabled
    set without changing the output. *)
Theorem disabling_filters_by_rule_id (self : RuleChecker) (txt : str) :
  exists all,
    check_all U (__init__ None) txt = Ok all /\
    check_all U self txt
    = Ok (filter (fun r => rule_id r ∉ disabled_rules self) all) /\
    forall id : str,
      id ∉ map lit catalogue ->
      check_all U {| disabled_rules := disabled_rules self ∖ {[id]} |} txt
      = check_all U self txt.
Proof.
  pose proof (registry_well_tagged U txt) as Hreg.
  destruct (run_registry_blocks (__init__ None) _ Hreg [])
    as (all_blocks & Hall & Hblocks0).
  destruct (run_registry_blocks self _ Hreg []) as (blocks & Hrun & Hblocks).
  exists (concat all_blocks). split; [exact Hall|]. split.
  - rewrite check_all_registry, Hrun. cbn [app]. f_equal. symmetry.
    eapply filter_blocks; eassumption.
  - intros id Hid. rewrite !check_all_registry. apply run_registry_ext.
    apply Forall_forall. intros [id' check] Hin. cbn [fst disabled_rules].
    assert (Hne : lit id' ≠ id).
    { intros <-. apply Hid. rewrite <- (registry_catalogue U txt).
      rewrite <- list_fmap_compose. apply list_elem_of_fmap.
      exists (id', check). split; [reflexivity|exact Hin]. }
    rewrite elem_of_difference, elem_of_singleton. tauto.
Qed.

(** C2.  The output of [check_all] is the concatenation of twelve
    blocks, one per rule in the order of the catalogue; the block of a
    rule holds records of that rule only, and it is empty when the rule
    is disabled and otherwise the list its check returned, in the order
    of that list.  The positions of the matches in the text play no
    part. *)
Theorem check_all_catalogue_order (self : RuleChecker) (txt : str) :
  exists blocks,
    check_all U self txt = Ok (concat blocks) /\
    Forall2 (fun id block => Forall (fun r => rule_id r = lit id) block)
            catalogue blocks /\
    Forall2 (fun entry block => block_of self entry.1 entry.2 block)
            (registry U txt) blocks.
Proof.
  pose proof (registry_well_tagged U txt) as Hreg.
  destruct (run_registry_blocks self _ Hreg []) as (blocks & Hrun & Hblocks).
  exists blocks. split; [exact Hrun|]. split.
  - rewrite <- (registry_catalogue U txt). apply Forall2_fmap_l.
    eapply Forall2_impl; [exact Hblocks|]. intros entry block [_ H]. exact H.
  - eapply Forall2_impl; [exact Hblocks|]. intros entry block [H _]. exact H.
Qed.

(** C3.  For every text, the empty one included, and every disabled set
    [check_all] returns a list of records and raises nothing.  The text
    is a value of the model and the result holds no part of the
    state: a Python [str] cannot be changed in place. *)
Theorem check_all_returns (self : RuleChecker) (txt : str) :
  exists out, check_all U self txt = Ok out.
Proof.
  pose proof (registry_well_tagged U txt) as Hreg.
  destruct (run_registry_blocks self _ Hreg []) as (blocks & Hrun & _).
  exists (concat blocks). exact Hrun.
Qed.

Lemma store_check_all_registry (self : Stateful.ref) (txt : str) :
  Stateful.check_all U self txt
  = Stateful.bind (Stateful.alloc (Stateful.Matches []))
      (run_in_store self (registry U txt)).
Proof. reflexivity. Qed.

(** One conditional of [check_all], run on a store in which the list
    [matches] is not the checker nor its set: it reads the set and
    changes the list only. *)
Lemma store_step (h : Stateful.store) (self s matches : Stateful.ref)
    (S : gset str) (id : string) (found acc : list RuleMatch) :
  h !! self = Some (Stateful.Checker s) ->
  h !! s = Some (Stateful.IdSet S) ->
  h !! matches = None ->
  Stateful.extend_unless_disabled self id (Ok found) matches
    (<[matches := Stateful.Matches acc]> h)
  = (Stateful.Return tt,
     <[matches := Stateful.Matches
                    (if bool_decide (lit id ∉ S) then acc ++ found
                     else acc)]> h).
Proof.
  intros Hself Hs Hfresh.
  assert (matches <> self) by congruence.
  assert (matches <> s) by congruence.
  unfold Stateful.extend_unless_disabled, mbind, Stateful.M_bind,
    Stateful.bind, Stateful.get_disabled_rules, Stateful.not_in.
  rewrite (lookup_insert_ne h matches self) by assumption. rewrite Hself.
  rewrite (lookup_insert_ne h matches s) by assumption. rewrite Hs.
  destruct (bool_decide (lit id ∉ S)); [|reflexivity].
  unfold Stateful.result_of, Stateful.extend.
  rewrite (lookup_insert_eq h matches), (insert_insert_eq h matches).
  reflexivity.
Qed.

Lemma run_in_store_spec (h : Stateful.store) (self s matches : Stateful.ref)
    (S : gset str) (reg : list (string * res (list RuleMatch))) :
  h !! self = Some (Stateful.Checker s) ->
  h !! s = Some (Stateful.IdSet S) ->
  h !! matches = None ->
  Forall well_tagged reg ->
  forall acc, exists acc',
    run_registry {| disabled_rules := S |} reg acc = Ok acc' /\
    run_in_store self reg matches (<[matches := Stateful.Matches acc]> h)
    = (Stateful.Return matches, <[matches := Stateful.Matches acc']> h).
Proof.
  intros Hself Hs Hfresh Hreg.
  induction Hreg as [|[id check] reg (found & Hcheck & _) _ IH]; intros acc.
  - exists acc. split; reflexivity.
  - cbn [snd] in Hcheck. subst check.
    cbn [run_registry run_in_store]. unfold Stateful.bind.
    rewrite (store_step h self s matches S id found acc Hself Hs Hfresh).
    unfold extend_unless_disabled. cbn [disabled_rules].
    destruct (bool_decide (lit id ∉ S)); apply IH.
Qed.

Lemma store_check_all_spec (h : Stateful.store) (self : Stateful.ref)
    (S : gset str) (txt : str) :
  Stateful.disabled_of h self = Some S ->
  exists (out : list RuleMatch) (l : Stateful.ref),
    check_all U {| disabled_rules := S |} txt = Ok out /\
    h !! l = None /\
    Stateful.check_all U self txt h
    = (Stateful.Return l, <[l := Stateful.Matches out]> h) /\
    Stateful.disabled_of (<[l := Stateful.Matches out]> h) self = Some S.
Proof.
  unfold Stateful.disabled_of. intros Hd.
  destruct (h !! self) as [[|s|]|] eqn:Hself; try discriminate.
  destruct (h !! s) as [[S'| |]|] eqn:Hs; try discriminate.
  injection Hd as ->.
  set (l := fresh (dom h)).
  assert (Hfresh : h !! l = None)
    by (apply not_elem_of_dom, is_fresh).
  destruct (run_in_store_spec h self s l S (registry U txt) Hself Hs Hfresh
              (registry_well_tagged U txt) [])
    as (out & Hout & Hrun).
  exists out, l. split; [rewrite check_all_registry; exact Hout|].
  split; [exact Hfresh|]. split.
  - rewrite store_check_all_registry. unfold Stateful.bind, Stateful.alloc.
    fold l. exact Hrun.
  - assert (l <> self) by congruence. assert (l <> s) by congruence.
    rewrite (lookup_insert_ne h l self) by assumption. rewrite Hself.
    rewrite (lookup_insert_ne h l s) by assumption. rewrite Hs.
    reflexivity.
Qed.

(** C7.  Two invocations of [check_all] on the same text, by checkers
    whose sets of disabled ids have the same members, return lists
    with the same records, element for element, whatever else the two
    stores hold: the two checkers may be one object or two, and the
    second store may be the first one after the first invocation and
    after any change to the lists it holds.  An invocation reads the
    set of its checker and nothing else of the store, and it changes
    no object: it adds one list, the one it returns, at a reference
    that was not in use, so the checker has the same set afterwards.
    The records are those of the function [check_all] of the set and
    of the text. *)
Theorem check_all_deterministic (h1 h2 : Stateful.store)
    (c1 c2 : Stateful.ref) (S : gset str) (txt : str) :
  Stateful.disabled_of h1 c1 = Some S ->
  Stateful.disabled_of h2 c2 = Some S ->
  exists (out : list RuleMatch) (l1 l2 : Stateful.ref),
    Stateful.check_all U c1 txt h1
    = (Stateful.Return l1, <[l1 := Stateful.Matches out]> h1) /\
    h1 !! l1 = None /\
    Stateful.check_all U c2 txt h2
    = (Stateful.Return l2, <[l2 := Stateful.Matches out]> h2) /\
    h2 !! l2 = None /\
    Stateful.disabled_of (<[l1 := Stateful.Matches out]> h1) c1 = Some S /\
    check_all U {| disabled_rules := S |} txt = Ok out.
Proof.
  intros H1 H2.
  destruct (store_check_all_spec h1 c1 S txt H1)
    as (out & l1 & Hout & Hf1 & Hrun1 & Hd1).
  destruct (store_check_all_spec h2 c2 S txt H2)
    as (out' & l2 & Hout' & Hf2 & Hrun2 & _).
  assert (out' = out) by congruence. subst out'.
  exists out, l1, l2. repeat split; assumption.
Qed.

Lemma run_registry_empty (self : RuleChecker)
    (reg : list (string * res (list RuleMatch))) :
  Forall (fun entry => entry.2 = Ok []) reg ->
  run_registry self reg [] = Ok [].
Proof.
  induction 1 as [|[id check] reg Hc _ IH]; [reflexivity|].
  cbn [run_registry snd] in *. subst check. unfold extend_unless_disabled.
  destruct (bool_decide _); exact IH.
Qed.

(** C9.  On the empty text each of the twelve checks returns the empty
    list, the aggregate ones included, and so does [check_all] for any
    disabled set. *)
Theorem check_all_empty_text (self : RuleChecker) :
  Forall (fun entry => entry.2 = Ok []) (registry U []) /\
  check_all U self [] = Ok [].
Proof.
  assert (H : Forall (fun entry : string * res (list RuleMatch) =>
                        entry.2 = Ok []) (registry U [])).
  { unfold registry. repeat constructor. }
  split; [exact H|]. rewrite check_all_registry.
  apply run_registry_empty, H.
Qed.

End DispatcherClaims.

Lemma disabling_filters_by_rule_id_witness :
  check_all ascii_unicode
    {| disabled_rules := {[lit "double-spaces"; lit "no-such-rule"]}
                         ∖ {[lit "no-such-rule"]} |} (lit "a  b,c")
  = check_all ascii_unicode
      {| disabled_rules := {[lit "double-spaces"; lit "no-such-rule"]} |}
      (lit "a  b,c").
Proof.
  destruct (disabling_filters_by_rule_id ascii_unicode
              {| disabled_rules :=
                   {[lit "double-spaces"; lit "no-such-rule"]} |}
              (lit "a  b,c")) as (all & _ & _ & H).
  apply H. apply (bool_decide_unpack _). vm_compute. exact I.
Defined.

Lemma check_all_deterministic_witness :
  exists (out : list RuleMatch) (l1 l2 : Stateful.ref),
    Stateful.check_all ascii_unicode 2%positive (lit "a  b")
      (<[2%positive := Stateful.Checker 1%positive]>
         {[1%positive := Stateful.IdSet {[lit "tab-characters"]}]})
    = (Stateful.Return l1,
       <[l1 := Stateful.Matches out]>
         (<[2%positive := Stateful.Checker 1%positive]>
            {[1%positive := Stateful.IdSet {[lit "tab-characters"]}]})) /\
    (<[2%positive := Stateful.Checker 1%positive]>
       {[1%positive := Stateful.IdSet {[lit "tab-characters"]}]} : Stateful.store)
      !! l1 = None /\
    Stateful.check_all ascii_unicode 7%positive (lit "a  b")
      (<[7%positive := Stateful.Checker 5%positive]>
         (<[5%positive := Stateful.IdSet {[lit "tab-characters"]}]>
            {[3%positive := Stateful.Matches []]}))
    = (Stateful.Return l2,
       <[l2 := Stateful.Matches out]>
         (<[7%positive := Stateful.Checker 5%positive]>
            (<[5%positive := Stateful.IdSet {[lit "tab-characters"]}]>
               {[3%positive := Stateful.Matches []]}))) /\
    (<[7%positive := Stateful.Checker 5%positive]>
       (<[5%positive := Stateful.IdSet {[lit "tab-characters"]}]>
          {[3%positive := Stateful.Matches []]}) : Stateful.store)
      !! l2 = None /\
    Stateful.disabled_of
      (<[l1 := Stateful.Matches out]>
         (<[2%positive := Stateful.Checker 1%positive]>
            {[1%positive := Stateful.IdSet {[lit "tab-characters"]}]}))
      2%positive
    = Some {[lit "tab-characters"]} /\
    check_all ascii_unicode {| disabled_rules := {[lit "tab-characters"]} |}
      (lit "a  b") = Ok out.
Proof.
  apply (check_all_deterministic ascii_unicode); reflexivity.
Defined.

(** ** C6: missing space after punctuation *)

Lemma ascii_unicode_faithful : ascii_faithful ascii_unicode.
Proof.
  split.
  - intros s Hs. reflexivity.
  - intros c Hc. reflexivity.
Qed.

Lemma for_append_ext {A B} (f g : A -> res (option B)) (xs : list A) :
  (forall x, f x = g x) -> for_append f xs = for_append g xs.
Proof.
  intros Hfg. induction xs as [|x xs IH]; [reflexivity|].
  cbn [for_append]. rewrite Hfg, IH. reflexivity.
Qed.

Lemma slice_ascii (s : str) (lo hi : Z) :
  ascii_text s -> ascii_text (slice s lo hi).
Proof. intros Hs. unfold slice. apply Forall_take, Forall_drop, Hs. Qed.

Lemma getitem_ascii (s : str) (i : Z) (c : N) :
  ascii_text s -> getitem s i = Ok c -> (c < 128)%N.
Proof.
  intros Hs. unfold getitem.
  destruct ((0 <=? _) && _); [|intros [=]].
  destruct (s !! Z.to_nat _) as [d|] eqn:Hl; [|intros [=]].
  intros [= <-]. unfold ascii_text in Hs.
  rewrite Forall_lookup in Hs. exact (Hs _ _ Hl).
Qed.

(** On an ASCII text the check consults the tables on ASCII only. *)
Lemma check_missing_space_ascii (U : unicode) (txt : str) :
  ascii_faithful U -> ascii_text txt ->
  _check_missing_space_after_punct U txt
  = _check_missing_space_after_punct ascii_unicode txt.
Proof.
  intros [Hlower Hdigit] Htxt. unfold _check_missing_space_after_punct.
  apply for_append_ext. intros m.
  rewrite Hlower by (apply slice_ascii, Htxt).
  change (lower ascii_unicode) with (map ascii_lower).
  destruct (existsb _ _); [reflexivity|].
  destruct (_ && _); [|reflexivity].
  destruct (getitem txt _) as [c|e] eqn:Hc; [|reflexivity].
  cbn. rewrite Hdigit by (eapply getitem_ascii; eassumption). reflexivity.
Qed.

Lemma ascii_text_forallb (s : str) :
  forallb (fun c => (c <? 128)%N) s = true -> ascii_text s.
Proof.
  intros H. apply Forall_forall. intros c Hc.
  rewrite forallb_forall in H. apply N.ltb_lt, H.
  apply list_elem_of_In, Hc.
Qed.

(** C6, the check at the three examples of the specification.  With
    tables that are Python's on ASCII, [Hello,world] gives one record
    with matched text [,w] and suggestion [, w], and the decimal point
    of [3.5] gives none, as specified; [Visit www.example.com] gives
    two records, for [.e] and for [.c], where the specification expects
    none: the ten characters before the first point are [Visit www],
    which hold none of the five markers, and the ten before the second
    are [ww.example]. *)
Theorem missing_space_examples (U : unicode) :
  ascii_faithful U ->
  (exists r,
     _check_missing_space_after_punct U (lit "Hello,world") = Ok [r] /\
     text r = lit ",w" /\ suggestion r = lit ", w") /\
  _check_missing_space_after_punct U (lit "The price is 3.5 dollars")
  = Ok [] /\
  (exists r1 r2,
     _check_missing_space_after_punct U (lit "Visit www.example.com")
     = Ok [r1; r2] /\
     text r1 = lit ".e" /\ text r2 = lit ".c").
Proof.
  intros HU.
  rewrite !(check_missing_space_ascii U) by
    (try exact HU; apply ascii_text_forallb; vm_compute; reflexivity).
  split; [|split].
  - eexists. split; [vm_compute; reflexivity|]. split; reflexivity.
  - vm_compute. reflexivity.
  - do 2 eexists. split; [vm_compute; reflexivity|]. split; reflexivity.
Qed.

Lemma missing_space_examples_witness :
  exists r1 r2,
    _check_missing_space_after_punct ascii_unicode
      (lit "Visit www.example.com") = Ok [r1; r2] /\
    text r1 = lit ".e" /\ text r2 = lit ".c".
Proof.
  apply (missing_space_examples ascii_unicode ascii_unicode_faithful).
Defined.

(** * Further properties of the helpers and the checks *)

(** ** The line number *)

Lemma split_nonempty (sep : N) (s : str) : split sep s <> [].
Proof.
  destruct s as [|c s]; simpl; [discriminate|].
  destruct (c =? sep)%N; [discriminate|].
  destruct (split sep s); discriminate.
Qed.

(** [split] cuts at every separator: one line more than separators. *)
Lemma split_length (sep : N) (s : str) :
  length (split sep s) = S (occurrences sep s).
Proof.
  unfold occurrences. induction s as [|c s IH]; [reflexivity|].
  simpl. rewrite filter_cons. destruct (N.eqb_spec c sep) as [->|Hne].
  - rewrite decide_True by reflexivity. simpl. rewrite IH. reflexivity.
  - rewrite decide_False by exact Hne.
    destruct (split sep s) as [|l ls] eqn:Hs; simpl in *;
      [discriminate|exact IH].
Qed.

(** The lines of a prefix of the text are the lines of the text up to
    the one the prefix stops in, of which it has a prefix. *)
Lemma split_take (sep : N) (s : str) (p : nat) :
  exists pre line,
    split sep (take p s)
    = take (occurrences sep (take p s)) (split sep s) ++ [pre] /\
    split sep s !! occurrences sep (take p s) = Some line /\
    pre `prefix_of` line.
Proof.
  unfold occurrences. revert p. induction s as [|c s IH]; intros p.
  - rewrite take_nil. exists [], []. simpl. repeat split. reflexivity.
  - destruct p as [|p].
    + simpl take. simpl filter. simpl length.
      destruct (split sep (c :: s)) as [|l ls] eqn:Hs;
        [exfalso; eapply split_nonempty, Hs|].
      exists [], l. repeat split. apply prefix_nil.
    + destruct (IH p) as (pre & line & Htake & Hline & Hpre).
      simpl take. rewrite filter_cons. simpl split.
      destruct (N.eqb_spec c sep) as [->|Hne].
      * rewrite decide_True by reflexivity. simpl length.
        exists pre, line. rewrite Htake. repeat split; assumption.
      * rewrite decide_False by exact Hne.
        destruct (split sep s) as [|l ls] eqn:Hs;
          [exfalso; eapply split_nonempty, Hs|].
        rewrite Htake.
        destruct (length (filter (fun x => x = sep) (take p s))) as [|k].
        -- simpl in Hline. injection Hline as <-. simpl.
           exists (c :: pre), (c :: l). repeat split.
           apply prefix_cons, Hpre.
        -- simpl. exists pre, line. repeat split; assumption.
Qed.

(** X1.  For a position inside the text (the end included) the line
    number is between 1 and the number of lines of [text.split('\n')],
    and the position lies in the line of that number: the text before
    the position is made of the lines before it, whole, and of a prefix
    of it. *)
Theorem get_line_number_inside (txt : str) (position : Z) :
  0 <= position -> position <= len txt ->
  exists (n : nat) (pre line : str),
    _get_line_number txt position = Z.of_nat n /\
    (1 <= n <= length (split NEWLINE txt))%nat /\
    split NEWLINE txt !! (n - 1)%nat = Some line /\
    pre `prefix_of` line /\
    split NEWLINE (slice txt 0 position)
    = take (n - 1) (split NEWLINE txt) ++ [pre].
Proof.
  intros H0 Hlen.
  assert (Hslice : slice txt 0 position = take (Z.to_nat position) txt).
  { rewrite slice_inside by lia. rewrite Z.sub_0_r. reflexivity. }
  destruct (split_take NEWLINE txt (Z.to_nat position))
    as (pre & line & Htake & Hline & Hpre).
  set (k := occurrences NEWLINE (take (Z.to_nat position) txt)) in *.
  exists (S k), pre, line.
  replace (S k - 1)%nat with k by lia.
  split; [|split; [|split; [exact Hline|split; [exact Hpre|]]]].
  - unfold _get_line_number. rewrite Hslice, count_char. fold k. lia.
  - apply lookup_lt_Some in Hline. lia.
  - rewrite Hslice. exact Htake.
Qed.

Lemma get_line_number_inside_witness :
  exists (n : nat) (pre line : str),
    _get_line_number two_lines 5 = Z.of_nat n /\
    (1 <= n <= length (split NEWLINE two_lines))%nat /\
    split NEWLINE two_lines !! (n - 1)%nat = Some line /\
    pre `prefix_of` line /\
    split NEWLINE (slice two_lines 0 5)
    = take (n - 1) (split NEWLINE two_lines) ++ [pre].
Proof.
  apply (get_line_number_inside two_lines 5); [lia|vm_compute; discriminate].
Defined.

(** ** The context *)

(** X2.  For a span inside the text the context shows the matched text
    itself, with the (at most 30) characters of the text before it and
    the (at most 30) after it, between the optional ellipses; it is
    never longer than the span plus 66 characters. *)
Theorem get_context_holds_match (txt : str) (start end_ : Z) :
  0 <= start -> start <= end_ -> end_ <= len txt ->
  exists left right : str,
    _get_context txt start end_ context_chars_default
    = (if 30 <? start then lit "..." else [])
      ++ left ++ slice txt start end_ ++ right
      ++ (if end_ + 30 <? len txt then lit "..." else []) /\
    left = slice txt (start - Z.min 30 start) start /\
    right = slice txt end_ (end_ + Z.min 30 (len txt - end_)) /\
    len left = Z.min 30 start /\
    len right = Z.min 30 (len txt - end_) /\
    len (_get_context txt start end_ context_chars_default)
    <= end_ - start + 66.
Proof.
  intros H0 H1 H2.
  set (a := Z.max 0 (start - 30)).
  set (b := Z.min (len txt) (end_ + 30)).
  assert (Ha : a = start - Z.min 30 start) by (unfold a; lia).
  assert (Hb : b = end_ + Z.min 30 (len txt - end_)) by (unfold b; lia).
  assert (Hwin : slice txt a b
                 = slice txt a start ++ slice txt start end_
                   ++ slice txt end_ b).
  { rewrite !slice_inside by lia.
    replace (Z.to_nat (b - a))
      with (Z.to_nat (start - a) + (Z.to_nat (end_ - start)
                                    + Z.to_nat (b - end_)))%nat by lia.
    rewrite <- take_take_drop. f_equal. rewrite drop_drop.
    replace (Z.to_nat a + Z.to_nat (start - a))%nat with (Z.to_nat start)
      by lia.
    rewrite <- take_take_drop. f_equal. rewrite drop_drop.
    f_equal. f_equal. lia. }
  assert (Hctx : _get_context txt start end_ context_chars_default
                 = (if 30 <? start then lit "..." else [])
                   ++ slice txt a start ++ slice txt start end_
                   ++ slice txt end_ b
                   ++ (if end_ + 30 <? len txt then lit "..." else [])).
  { unfold _get_context, context_chars_default. fold a b. rewrite Hwin.
    rewrite <- !app_assoc. f_equal; [|do 3 f_equal].
    - unfold a. destruct (Z.ltb_spec 30 start);
        destruct (Z.ltb_spec 0 (Z.max 0 (start - 30))); try lia; reflexivity.
    - unfold b. destruct (Z.ltb_spec (end_ + 30) (len txt));
        destruct (Z.ltb_spec (Z.min (len txt) (end_ + 30)) (len txt));
        try lia; reflexivity. }
  exists (slice txt a start), (slice txt end_ b).
  split; [exact Hctx|]. split; [rewrite Ha; reflexivity|].
  split; [rewrite Hb; reflexivity|].
  assert (Hl : len (slice txt a start) = Z.min 30 start)
    by (rewrite slice_length by lia; lia).
  assert (Hr : len (slice txt end_ b) = Z.min 30 (len txt - end_))
    by (rewrite slice_length by lia; lia).
  split; [exact Hl|]. split; [exact Hr|].
  rewrite Hctx. rewrite !len_app, Hl, Hr, slice_length by lia.
  assert (Hpre : len (if 30 <? start then lit "..." else []) <= 3)
    by (destruct (30 <? start); unfold len; simpl; lia).
  assert (Hsuf : len (if end_ + 30 <? len txt then lit "..." else []) <= 3)
    by (destruct (end_ + 30 <? len txt); unfold len; simpl; lia).
  lia.
Qed.

Lemma get_context_holds_match_witness :
  exists left right : str,
    _get_context (lit "Hello  world") 5 7 context_chars_default
    = (if 30 <? 5 then lit "..." else [])
      ++ left ++ slice (lit "Hello  world") 5 7 ++ right
      ++ (if 7 + 30 <? len (lit "Hello  world") then lit "..." else []) /\
    left = slice (lit "Hello  world") (5 - Z.min 30 5) 5 /\
    right = slice (lit "Hello  world") 7
              (7 + Z.min 30 (len (lit "Hello  world") - 7)) /\
    len left = Z.min 30 5 /\
    len right = Z.min 30 (len (lit "Hello  world") - 7) /\
    len (_get_context (lit "Hello  world") 5 7 context_chars_default)
    <= 7 - 5 + 66.
Proof.
  apply (get_context_holds_match (lit "Hello  world") 5 7);
    [lia | lia | vm_compute; discriminate].
Defined.

(** ** The order of the matches *)

Section ScanOrder.

Variable pat : pattern.
Variable text : str.

Lemma scan_from (fuel pos : nat) :
  Forall (fun m => (pos <= m_start m)%nat) (scan text pat fuel pos).
Proof.
  revert pos. induction fuel as [|fuel IH]; intros pos; simpl; [constructor|].
  destruct (length text <? pos)%nat; [constructor|].
  destruct (m_here text pat pos [] []) as [[e gs]|].
  - constructor; [simpl; lia|].
    eapply Forall_impl; [apply IH|]. simpl. intros m Hm. lia.
  - eapply Forall_impl; [apply IH|]. simpl. intros m Hm. lia.
Qed.

Lemma scan_in_text_order (fuel pos : nat) :
  in_text_order (scan text pat fuel pos).
Proof.
  unfold in_text_order. revert pos.
  induction fuel as [|fuel IH]; intros pos; simpl; [constructor|].
  destruct (length text <? pos)%nat; [constructor|].
  destruct (m_here text pat pos [] []) as [[e gs]|]; [|apply IH].
  constructor; [apply IH|].
  eapply Forall_impl; [apply scan_from|]. simpl. intros m Hm. lia.
Qed.

Lemma scan_leftmost (fuel pos : nat) :
  (length text < pos + fuel)%nat ->
  leftmost pat text pos (scan text pat fuel pos).
Proof.
  revert pos. induction fuel as [|fuel IH]; intros pos Hfuel; simpl.
  - intros p Hp. lia.
  - destruct (Nat.ltb_spec (length text) pos) as [Hgt|Hle].
    + simpl. intros p Hp. lia.
    + destruct (m_here text pat pos [] []) as [[e gs]|] eqn:Hm.
      * simpl. split; [lia|]. split; [intros p Hp; lia|].
        apply IH. lia.
      * specialize (IH (S pos) ltac:(lia)).
        destruct (scan text pat fuel (S pos)) as [|m ms]; simpl in *.
        -- intros p Hp. destruct (decide (p = pos)) as [->|Hne];
             [exact Hm|apply IH; lia].
        -- destruct IH as (Hfrom & Hgap & Hrest).
           split; [lia|]. split; [|exact Hrest].
           intros p Hp. destruct (decide (p = pos)) as [->|Hne];
             [exact Hm|apply Hgap; lia].
Qed.

End ScanOrder.

Lemma finditer_in_text_order (pat : pattern) (text : str) :
  in_text_order (finditer pat text).
Proof. apply scan_in_text_order. Qed.

Lemma finditer_leftmost (pat : pattern) (text : str) :
  leftmost pat text 0 (finditer pat text).
Proof. apply scan_leftmost. lia. Qed.

Lemma in_text_order_sublist (ms ms' : list Match) :
  ms `sublist_of` ms' -> in_text_order ms' -> in_text_order ms.
Proof.
  unfold in_text_order. induction 1 as [|m l1 l2 Hsub IH|m l1 l2 Hsub IH];
    intros Hs; [constructor| |].
  - apply StronglySorted_inv in Hs as [Hs Hall].
    constructor; [apply IH, Hs|].
    rewrite Forall_forall in Hall |- *. intros x Hx. apply Hall.
    eapply elem_of_sublist; eassumption.
  - apply StronglySorted_inv in Hs as [Hs _]. apply IH, Hs.
Qed.

Section InOrder.

Context {A B : Type}.

Lemma for_append_in_order (body : A -> res (option B)) (xs : list A)
    (P : A -> Prop) (R : A -> B -> Prop) :
  Forall P xs ->
  (forall x, P x ->
     exists o, body x = Ok o /\ forall b, o = Some b -> R x b) ->
  exists out ys, for_append body xs = Ok out /\
                 ys `sublist_of` xs /\ Forall2 R ys out.
Proof.
  intros HP Hbody. induction HP as [|x xs Hx HP IH].
  - exists [], []. repeat split; constructor.
  - destruct IH as (rest & ys & Hrest & Hsub & Hall).
    destruct (Hbody x Hx) as (o & Ho & HR).
    cbn [for_append]. rewrite Ho. cbn. rewrite Hrest. cbn.
    destruct o as [b|].
    + exists (b :: rest), (x :: ys). split; [reflexivity|].
      split; [apply sublist_skip, Hsub|].
      constructor; [apply HR; reflexivity|exact Hall].
    + exists rest, ys. split; [reflexivity|].
      split; [apply sublist_cons, Hsub|exact Hall].
Qed.

Lemma omap_in_order (f : A -> option B) (xs : list A) (R : A -> B -> Prop) :
  (forall x b, f x = Some b -> R x b) ->
  exists ys, ys `sublist_of` xs /\ Forall2 R ys (omap f xs).
Proof.
  intros Hf. induction xs as [|x xs (ys & Hsub & Hall)].
  - exists []. split; constructor.
  - cbn [omap list_omap]. destruct (f x) as [b|] eqn:Hx.
    + exists (x :: ys). split; [apply sublist_skip, Hsub|].
      constructor; [apply Hf, Hx|exact Hall].
    + exists ys. split; [apply sublist_cons, Hsub|exact Hall].
Qed.

Lemma map_in_order (f : A -> B) (xs : list A) (R : A -> B -> Prop) :
  (forall x, R x (f x)) -> Forall2 R xs (map f xs).
Proof.
  intros Hf. induction xs as [|x xs IH]; constructor; [apply Hf|exact IH].
Qed.

End InOrder.

Lemma occurrences_take_mono (c : N) (s : str) (j k : nat) :
  (j <= k)%nat ->
  (occurrences c (take j s) <= occurrences c (take k s))%nat.
Proof.
  intros Hjk. unfold occurrences.
  replace k with (j + (k - j))%nat by lia.
  rewrite <- take_take_drop, filter_app, length_app. lia.
Qed.

(** Later in the text is never on an earlier line. *)
Lemma get_line_number_mono (txt : str) (j k : nat) :
  (j <= k <= length txt)%nat ->
  _get_line_number txt (Z.of_nat j) <= _get_line_number txt (Z.of_nat k).
Proof.
  intros Hjk. rewrite !get_line_number_take by lia.
  pose proof (occurrences_take_mono NEWLINE txt j k). lia.
Qed.

Lemma lines_in_order (pat : pattern) (txt : str) (ms : list Match) :
  Forall (is_match pat txt) ms -> in_text_order ms ->
  StronglySorted Z.le (map (line_of txt) ms).
Proof.
  unfold in_text_order. intros Hall Hs.
  induction Hs as [|m ms Hs IH Hm]; [constructor|].
  apply Forall_cons in Hall as [(_ & Hb & _) Hall].
  cbn [map]. constructor; [apply IH, Hall|].
  apply Forall_fmap. rewrite Forall_forall in Hm, Hall |- *.
  intros m' Hm'. specialize (Hm _ Hm'). destruct (Hall _ Hm') as (_ & Hb' & _).
  apply get_line_number_mono. lia.
Qed.

Lemma records_in_order_intro (pat : pattern)
    (R : Match -> RuleMatch -> Prop) (txt : str) (ms : list Match)
    (out : list RuleMatch) :
  ms `sublist_of` finditer pat txt -> Forall2 R ms out ->
  records_in_order pat R txt out.
Proof.
  intros Hsub Hall. exists ms.
  assert (Hord : in_text_order ms)
    by (eapply in_text_order_sublist; [exact Hsub|];
        apply finditer_in_text_order).
  split; [exact Hsub|]. split; [exact Hord|]. split; [|exact Hall].
  apply (lines_in_order pat); [|exact Hord].
  apply Forall_forall. intros m Hm.
  pose proof (finditer_is_match pat txt) as His.
  rewrite Forall_forall in His. apply His.
  eapply elem_of_sublist; eassumption.
Qed.

Lemma for_append_records (pat : pattern) (R : Match -> RuleMatch -> Prop)
    (txt : str) (body : Match -> res (option RuleMatch)) :
  (forall m, is_match pat txt m ->
     exists o, body m = Ok o /\ forall b, o = Some b -> R m b) ->
  exists out, for_append body (finditer pat txt) = Ok out /\
              records_in_order pat R txt out.
Proof.
  intros Hbody.
  destruct (for_append_in_order body (finditer pat txt)
              (is_match pat txt) R (finditer_is_match pat txt) Hbody)
    as (out & ms & Hout & Hsub & Hall).
  exists out. split; [exact Hout|].
  eapply records_in_order_intro; eassumption.
Qed.

Lemma omap_records (pat : pattern) (R : Match -> RuleMatch -> Prop)
    (txt : str) (f : Match -> option RuleMatch) :
  (forall m b, f m = Some b -> R m b) ->
  records_in_order pat R txt (omap f (finditer pat txt)).
Proof.
  intros Hf.
  destruct (omap_in_order f (finditer pat txt) R Hf) as (ms & Hsub & Hall).
  eapply records_in_order_intro; eassumption.
Qed.

(** X3.  The records of each check that scans the text with a regular
    expression come in the order of the text: they were made, one each
    and in order, for matches taken from left to right, none reaching
    into the next, so that the line numbers within one check never
    decrease.  The space-before-punct, multiple-blank-lines and
    double-hyphen-emdash checks have a record for every match. *)
Theorem records_follow_the_text (U : unicode) (txt : str) :
  (exists out, _check_double_spaces txt = Ok out /\
     records_in_order re_double_spaces (double_spaces_record txt) txt out) /\
  records_in_order (re_repeated_words U)
    (point_record "repeated-words" txt) txt (_check_repeated_words U txt) /\
  (exists out, _check_missing_space_after_punct U txt = Ok out /\
     records_in_order re_missing_space_after_punct
       (point_record "missing-space-after-punct" txt) txt out) /\
  (records_in_order (re_space_before_punct U)
     (point_record "space-before-punct" txt) txt
     (_check_space_before_punct U txt) /\
   Forall2 (point_record "space-before-punct" txt)
     (finditer (re_space_before_punct U) txt)
     (_check_space_before_punct U txt)) /\
  (records_in_order re_multiple_blank_lines (blank_lines_record txt) txt
     (_check_multiple_blank_lines txt) /\
   Forall2 (blank_lines_record txt)
     (finditer re_multiple_blank_lines txt)
     (_check_multiple_blank_lines txt)) /\
  (records_in_order (re_double_hyphen_emdash U)
     (point_record "double-hyphen-emdash" txt) txt
     (_check_double_hyphen_emdash U txt) /\
   Forall2 (point_record "double-hyphen-emdash" txt)
     (finditer (re_double_hyphen_emdash U) txt)
     (_check_double_hyphen_emdash U txt)).
Proof.
  split; [|split; [|split; [|split; [|split]]]].
  - unfold _check_double_spaces. apply for_append_records.
    intros m (_ & Hb & _).
    destruct (Z.eqb_spec (Z.of_nat (m_start m)) 0) as [Hz|Hnz].
    + exists None. split; [reflexivity|discriminate].
    + destruct (getitem_ok txt (Z.of_nat (m_start m) - 1)) as [c Hc];
        [unfold len; lia|].
      rewrite Hc. cbn. destruct (c =? NEWLINE)%N.
      * exists None. split; [reflexivity|discriminate].
      * eexists. split; [reflexivity|]. intros r [= <-]. repeat split.
  - unfold _check_repeated_words. apply omap_records.
    intros m r Hr. cbv beta in Hr.
    destruct (bool_decide _); [discriminate|].
    injection Hr as <-. repeat split.
  - unfold _check_missing_space_after_punct. apply for_append_records.
    intros m (_ & Hb & _).
    destruct (existsb _ _).
    { exists None. split; [reflexivity|discriminate]. }
    destruct (bool_decide (group m 1 = lit ".")); cbn [andb].
    + destruct (Z.ltb_spec 0 (Z.of_nat (m_start m))) as [Hpos|Hz].
      * destruct (getitem_ok txt (Z.of_nat (m_start m) - 1)) as [c Hc];
          [unfold len; lia|].
        rewrite Hc. cbn. destruct (isdigit U c).
        -- exists None. split; [reflexivity|discriminate].
        -- eexists. split; [reflexivity|]. intros r [= <-]. repeat split.
      * eexists. split; [reflexivity|]. intros r [= <-]. repeat split.
    + eexists. split; [reflexivity|]. intros r [= <-]. repeat split.
  - assert (H : Forall2 (point_record "space-before-punct" txt)
                  (finditer (re_space_before_punct U) txt)
                  (_check_space_before_punct U txt))
      by (apply map_in_order; intros m; repeat split).
    split; [|exact H]. eapply records_in_order_intro; [reflexivity|exact H].
  - assert (H : Forall2 (blank_lines_record txt)
                  (finditer re_multiple_blank_lines txt)
                  (_check_multiple_blank_lines txt))
      by (apply map_in_order; intros m; repeat split).
    split; [|exact H]. eapply records_in_order_intro; [reflexivity|exact H].
  - assert (H : Forall2 (point_record "double-hyphen-emdash" txt)
                  (finditer (re_double_hyphen_emdash U) txt)
                  (_check_double_hyphen_emdash U txt))
      by (apply map_in_order; intros m; repeat split).
    split; [|exact H]. eapply records_in_order_intro; [reflexivity|exact H].
Qed.

(** ** The records and their matches *)

Lemma records_in_order_impl (pat : pattern)
    (R R' : Match -> RuleMatch -> Prop) (txt : str) (out : list RuleMatch) :
  (forall m r, is_match pat txt m -> R m r -> R' m r) ->
  records_in_order pat R txt out -> records_in_order pat R' txt out.
Proof.
  intros Himpl (ms & Hsub & Hord & Hlines & Hall).
  exists ms. split; [exact Hsub|]. split; [exact Hord|].
  split; [exact Hlines|].
  assert (His : Forall (is_match pat txt) ms).
  { apply Forall_forall. intros m Hm.
    pose proof (finditer_is_match pat txt) as Hfind.
    rewrite Forall_forall in Hfind. apply Hfind.
    eapply elem_of_sublist; eassumption. }
  clear Hsub Hord Hlines.
  induction Hall as [|m r ms out HR Hall IH]; [constructor|].
  apply Forall_cons in His as [Hm His].
  constructor; [apply Himpl; assumption|apply IH, His].
Qed.

Lemma cut_at_match (pat : pattern) (txt : str) (m : Match) :
  is_match pat txt m ->
  cut_at txt m (take (m_start m) txt) (group m 0) (drop (m_end m) txt).
Proof.
  intros Hm. pose proof Hm as (_ & Hb & _).
  rewrite (group_0 _ _ _ Hm). split; [|split].
  - rewrite <- (Nat2Z.id (m_start m)) at 1.
    rewrite <- (Nat2Z.id (m_end m)) at 2.
    apply slice_split; unfold len; lia.
  - rewrite length_take. lia.
  - rewrite length_app, length_take.
    pose proof (slice_length txt (Z.of_nat (m_start m)) (Z.of_nat (m_end m))
                  ltac:(lia) ltac:(unfold len; lia)) as Hl.
    unfold len in Hl. lia.
Qed.

(** The characters of a text: those of its lines but the last, each
    with its newline, and those of the last line. *)
Lemma split_lengths (sep : N) (s : str) (ls : list str) (x : str) :
  split sep s = ls ++ [x] ->
  length s = (lines_length ls + length x)%nat.
Proof.
  unfold lines_length. revert ls x. induction s as [|c s IH]; intros ls x Hs.
  - simpl in Hs. destruct ls as [|l ls].
    + injection Hs as <-. reflexivity.
    + injection Hs as _ Hs. destruct ls; discriminate.
  - simpl in Hs. destruct (c =? sep)%N.
    + destruct ls as [|l ls].
      * injection Hs as _ Hs. exfalso. eapply split_nonempty, Hs.
      * injection Hs as <- Hs. simpl. rewrite (IH _ _ Hs). reflexivity.
    + destruct (split sep s) as [|l0 rest] eqn:Hsplit;
        [exfalso; eapply split_nonempty, Hsplit|].
      destruct ls as [|l ls].
      * injection Hs as <- ->. simpl. rewrite (IH [] l0 eq_refl). reflexivity.
      * injection Hs as <- ->. simpl.
        rewrite (IH (l0 :: ls) x eq_refl). reflexivity.
Qed.

(** An offset in the document is the column in its line plus the
    lengths of the lines before. *)
Lemma offset_and_column (txt : str) (p : nat) :
  (p <= length txt)%nat ->
  p = (lines_length (take (occurrences NEWLINE (take p txt))
                       (split NEWLINE txt))
       + column (take p txt))%nat.
Proof.
  intros Hp.
  destruct (split_take NEWLINE txt p) as (pre & line & Htake & _ & _).
  pose proof (split_lengths NEWLINE (take p txt) _ pre Htake) as Hlen.
  unfold column. rewrite Htake, last_snoc. simpl.
  rewrite length_take in Hlen. lia.
Qed.

Lemma get_context_cut (before matched after : str) :
  _get_context (before ++ matched ++ after) (len before)
    (len (before ++ matched)) context_chars_default
  = (if (30 <? length before)%nat then lit "..." else [])
    ++ drop (length before - 30) before
    ++ matched
    ++ take 30 after
    ++ (if (30 <? length after)%nat then lit "..." else []).
Proof.
  unfold _get_context, context_chars_default. cbv zeta.
  rewrite !len_app.
  set (lb := length before). set (lm := length matched).
  set (la := length after).
  assert (Hlb : len before = Z.of_nat lb) by reflexivity.
  assert (Hlm : len matched = Z.of_nat lm) by reflexivity.
  assert (Hla : len after = Z.of_nat la) by reflexivity.
  rewrite Hlb, Hlm, Hla.
  rewrite slice_inside by (rewrite ?len_app, ?Hlb, ?Hlm, ?Hla; lia).
  replace (Z.to_nat (Z.max 0 (Z.of_nat lb - 30))) with (lb - 30)%nat by lia.
  replace (Z.to_nat (Z.min (Z.of_nat lb + (Z.of_nat lm + Z.of_nat la))
                       (Z.of_nat lb + Z.of_nat lm + 30)
                     - Z.max 0 (Z.of_nat lb - 30)))
    with ((lb - (lb - 30)) + (lm + Nat.min la 30))%nat by lia.
  rewrite drop_app_le by (fold lb; lia).
  rewrite take_app_ge by (rewrite length_drop; fold lb; lia).
  rewrite length_drop. fold lb.
  replace (lb - (lb - 30) + (lm + la `min` 30) - (lb - (lb - 30)))%nat
    with (lm + Nat.min la 30)%nat by lia.
  rewrite take_app_ge by (fold lm; lia). fold lm.
  replace (lm + la `min` 30 - lm)%nat with (Nat.min la 30) by lia.
  assert (Htake : take (Nat.min la 30) after = take 30 after).
  { destruct (Nat.le_ge_cases la 30).
    - rewrite Nat.min_l by lia. rewrite !take_ge by (fold la; lia).
      reflexivity.
    - rewrite Nat.min_r by lia. reflexivity. }
  rewrite Htake.
  assert (Hpre : (0 <? Z.max 0 (Z.of_nat lb - 30)) = (30 <? lb)%nat).
  { destruct (Nat.ltb_spec 30 lb); destruct (Z.ltb_spec 0 (Z.max 0 (Z.of_nat lb - 30))); try lia; reflexivity. }
  assert (Hsuf : (Z.min (Z.of_nat lb + (Z.of_nat lm + Z.of_nat la))
                    (Z.of_nat lb + Z.of_nat lm + 30)
                  <? Z.of_nat lb + (Z.of_nat lm + Z.of_nat la))
                 = (30 <? la)%nat).
  { destruct (Nat.ltb_spec 30 la);
      destruct (Z.ltb_spec
                  (Z.min (Z.of_nat lb + (Z.of_nat lm + Z.of_nat la))
                     (Z.of_nat lb + Z.of_nat lm + 30))
                  (Z.of_nat lb + (Z.of_nat lm + Z.of_nat la)));
      try lia; reflexivity. }
  rewrite Hpre, Hsuf. rewrite <- !app_assoc. reflexivity.
Qed.

Section Records.

Variable U : unicode.

Lemma double_spaces_fields_in_order (txt : str) :
  exists out,
    _check_double_spaces txt = Ok out /\
    records_in_order re_double_spaces (double_spaces_fields txt) txt out.
Proof.
  unfold _check_double_spaces. apply for_append_records.
  intros m (_ & Hb & _).
  destruct (Z.eqb_spec (Z.of_nat (m_start m)) 0) as [Hz|Hnz].
  - exists None. split; [reflexivity|discriminate].
  - destruct (getitem_ok txt (Z.of_nat (m_start m) - 1)) as [c Hc];
      [unfold len; lia|].
    rewrite Hc. cbn. destruct (c =? NEWLINE)%N.
    + exists None. split; [reflexivity|discriminate].
    + eexists. split; [reflexivity|]. intros r [= <-]. repeat split.
Qed.

Lemma repeated_words_fields_in_order (txt : str) :
  records_in_order (re_repeated_words U) (point_fields txt) txt
    (_check_repeated_words U txt).
Proof.
  unfold _check_repeated_words. apply omap_records.
  intros m r Hr. cbv beta in Hr.
  destruct (bool_decide _); [discriminate|].
  injection Hr as <-. repeat split.
Qed.

Lemma missing_space_fields_in_order (txt : str) :
  exists out,
    _check_missing_space_after_punct U txt = Ok out /\
    records_in_order re_missing_space_after_punct (point_fields txt) txt out.
Proof.
  unfold _check_missing_space_after_punct. apply for_append_records.
  intros m (_ & Hb & _).
  destruct (existsb _ _).
  { exists None. split; [reflexivity|discriminate]. }
  destruct (bool_decide (group m 1 = lit ".")); cbn [andb].
  - destruct (Z.ltb_spec 0 (Z.of_nat (m_start m))) as [Hpos|Hz].
    + destruct (getitem_ok txt (Z.of_nat (m_start m) - 1)) as [c Hc];
        [unfold len; lia|].
      rewrite Hc. cbn. destruct (isdigit U c).
      * exists None. split; [reflexivity|discriminate].
      * eexists. split; [reflexivity|]. intros r [= <-]. repeat split.
    + eexists. split; [reflexivity|]. intros r [= <-]. repeat split.
  - eexists. split; [reflexivity|]. intros r [= <-]. repeat split.
Qed.

Lemma space_before_punct_fields_in_order (txt : str) :
  records_in_order (re_space_before_punct U) (point_fields txt) txt
    (_check_space_before_punct U txt).
Proof.
  eapply records_in_order_intro; [reflexivity|].
  apply map_in_order. intros m. repeat split.
Qed.

Lemma double_hyphen_fields_in_order (txt : str) :
  records_in_order (re_double_hyphen_emdash U) (point_fields txt) txt
    (_check_double_hyphen_emdash U txt).
Proof.
  eapply records_in_order_intro; [reflexivity|].
  apply map_in_order. intros m. repeat split.
Qed.

Lemma blank_lines_in_order (txt : str) :
  records_in_order re_multiple_blank_lines (blank_lines_record txt) txt
    (_check_multiple_blank_lines txt).
Proof.
  eapply records_in_order_intro; [reflexivity|].
  apply map_in_order. intros m. repeat split.
Qed.

End Records.

(** What the fields written by the loops say about the document. *)

Lemma repr_group_spaces (txt : str) (m : Match) :
  is_match re_double_spaces txt m ->
  repr (group m 0) = quoted (group m 0).
Proof. intros Hm. apply repr_spaces. eapply rep_match_chars, Hm. Qed.

Lemma line_of_cut (pat : pattern) (txt : str) (m : Match) :
  is_match pat txt m ->
  _get_line_number txt (Z.of_nat (m_start m))
  = Z.of_nat (occurrences NEWLINE (take (m_start m) txt)) + 1.
Proof. intros (_ & Hb & _). apply get_line_number_take. lia. Qed.

Lemma double_spaces_located (txt : str) (m : Match) (r : RuleMatch) :
  is_match re_double_spaces txt m ->
  double_spaces_fields txt m r -> located_by_offset txt m r.
Proof.
  intros Hm (Ht & Hl & _). pose proof Hm as (_ & Hb & _).
  exists (take (m_start m) txt), (group m 0), (drop (m_end m) txt).
  split; [eapply cut_at_match, Hm|].
  split; [rewrite Ht; eapply repr_group_spaces, Hm|].
  split.
  - rewrite Hl, (line_of_cut _ _ _ Hm). unfold len. rewrite length_take.
    replace (m_start m `min` length txt)%nat with (m_start m) by lia.
    reflexivity.
  - rewrite length_take.
    replace (m_start m `min` length txt)%nat with (m_start m) by lia.
    apply offset_and_column. lia.
Qed.

Lemma point_located (pat : pattern) (txt : str) (m : Match) (r : RuleMatch) :
  is_match pat txt m ->
  point_fields txt m r -> located_by_line id txt m r.
Proof.
  intros Hm (Ht & Hl & _).
  exists (take (m_start m) txt), (group m 0), (drop (m_end m) txt).
  split; [eapply cut_at_match, Hm|]. split; [exact Ht|].
  rewrite Hl, (line_of_cut _ _ _ Hm). reflexivity.
Qed.

Lemma blank_lines_located (txt : str) (m : Match) (r : RuleMatch) :
  is_match re_multiple_blank_lines txt m ->
  blank_lines_record txt m r -> located_by_line blank_lines_text txt m r.
Proof.
  intros Hm (_ & Ht & Hl).
  exists (take (m_start m) txt), (group m 0), (drop (m_end m) txt).
  split; [eapply cut_at_match, Hm|]. split; [exact Ht|].
  rewrite Hl. unfold line_of. rewrite (line_of_cut _ _ _ Hm). reflexivity.
Qed.

Lemma context_of_cut (pat : pattern) (txt : str) (m : Match) (r : RuleMatch)
    (shown : str -> str) :
  is_match pat txt m ->
  text r = shown (group m 0) ->
  context r = _get_context txt (Z.of_nat (m_start m)) (Z.of_nat (m_end m))
                context_chars_default ->
  shown_in_context shown txt m r.
Proof.
  intros Hm Ht Hc.
  pose proof (cut_at_match _ _ _ Hm) as Hcut.
  exists (take (m_start m) txt), (group m 0), (drop (m_end m) txt).
  split; [exact Hcut|]. split; [exact Ht|].
  destruct Hcut as (Htxt & Hs & He).
  rewrite Hc. rewrite <- get_context_cut, <- Htxt.
  unfold len. rewrite Hs, He. reflexivity.
Qed.

(** ** C4 and C10: the matched text and the location *)

(** C4, amended.  The records of each check that reports matches are
    made, in order, for matches of its pattern taken from left to
    right, and the record made for a match (the one whose location
    names the line of that match) has a matched text that comes from
    the span [text[start:end]] of that same match: for repeated-words,
    missing-space-after-punct, space-before-punct and
    double-hyphen-emdash it is an exact copy of the span; for
    double-spaces it is the span between two apostrophes, which is its
    [repr]; for multiple-blank-lines it is a description that gives
    the length of the span less one.  The two checks that read a
    character of the text return without raising. *)
Theorem matched_text_of_point_findings (U : unicode) (txt : str) :
  (exists out, _check_double_spaces txt = Ok out /\
     records_in_order re_double_spaces
       (fun m r => text_of_span quoted txt m r /\ located_by_offset txt m r)
       txt out) /\
  records_in_order (re_repeated_words U)
    (fun m r => text_of_span id txt m r /\ located_by_line id txt m r)
    txt (_check_repeated_words U txt) /\
  (exists out, _check_missing_space_after_punct U txt = Ok out /\
     records_in_order re_missing_space_after_punct
       (fun m r => text_of_span id txt m r /\ located_by_line id txt m r)
       txt out) /\
  records_in_order (re_space_before_punct U)
    (fun m r => text_of_span id txt m r /\ located_by_line id txt m r)
    txt (_check_space_before_punct U txt) /\
  records_in_order (re_double_hyphen_emdash U)
    (fun m r => text_of_span id txt m r /\ located_by_line id txt m r)
    txt (_check_double_hyphen_emdash U txt) /\
  records_in_order re_multiple_blank_lines
    (fun m r => text_of_span blank_lines_text txt m r /\
                located_by_line blank_lines_text txt m r)
    txt (_check_multiple_blank_lines txt).
Proof.
  assert (Hpoint : forall pat m r,
            is_match pat txt m -> point_fields txt m r ->
            text_of_span id txt m r /\ located_by_line id txt m r).
  { intros pat m r Hm Hf. split; [|eapply point_located; eassumption].
    destruct Hf as (Ht & _). unfold text_of_span.
    rewrite Ht. apply (group_0 _ _ _ Hm). }
  split; [|split; [|split; [|split; [|split]]]].
  - destruct (double_spaces_fields_in_order txt) as (out & Hout & Hall).
    exists out. split; [exact Hout|].
    eapply records_in_order_impl; [|exact Hall].
    intros m r Hm Hf. split; [|apply double_spaces_located; assumption].
    destruct Hf as (Ht & _). unfold text_of_span.
    rewrite Ht, (repr_group_spaces _ _ Hm), (group_0 _ _ _ Hm). reflexivity.
  - eapply records_in_order_impl; [apply Hpoint|].
    apply repeated_words_fields_in_order.
  - destruct (missing_space_fields_in_order U txt) as (out & Hout & Hall).
    exists out. split; [exact Hout|].
    eapply records_in_order_impl; [apply Hpoint|exact Hall].
  - eapply records_in_order_impl; [apply Hpoint|].
    apply space_before_punct_fields_in_order.
  - eapply records_in_order_impl; [apply Hpoint|].
    apply double_hyphen_fields_in_order.
  - eapply records_in_order_impl; [|apply blank_lines_in_order].
    intros m r Hm Hf. split; [|apply blank_lines_located; assumption].
    destruct Hf as (_ & Ht & _). unfold text_of_span, blank_lines_text.
    rewrite Ht, (group_0 _ _ _ Hm). reflexivity.
Qed.

(** C10.  The records of each check that reports matches are made, in
    order, for matches of its pattern, and the location of the record
    made for a match is computed from the part of the document before
    that match.  For double-spaces it is [Line N, position P] where [P]
    is the number of characters of the whole document before the match
    and [N - 1] the number of newlines among them; [P] is the column
    of the match in line [N] plus the lengths of the [N - 1] lines
    before, newlines included, so it is the column only on line 1.
    For repeated-words, missing-space-after-punct, space-before-punct,
    multiple-blank-lines and double-hyphen-emdash the location is
    [Line N] and nothing else.  On the two-line document [two_lines]
    the position reported is 5, the offset in the document, not 2, the
    column in line 2. *)
Theorem location_of_point_findings (U : unicode) (txt : str) :
  (exists out, _check_double_spaces txt = Ok out /\
     records_in_order re_double_spaces (located_by_offset txt) txt out) /\
  records_in_order (re_repeated_words U) (located_by_line id txt) txt
    (_check_repeated_words U txt) /\
  (exists out, _check_missing_space_after_punct U txt = Ok out /\
     records_in_order re_missing_space_after_punct (located_by_line id txt)
       txt out) /\
  records_in_order (re_space_before_punct U) (located_by_line id txt) txt
    (_check_space_before_punct U txt) /\
  records_in_order re_multiple_blank_lines
    (located_by_line blank_lines_text txt) txt
    (_check_multiple_blank_lines txt) /\
  records_in_order (re_double_hyphen_emdash U) (located_by_line id txt) txt
    (_check_double_hyphen_emdash U txt) /\
  (exists r, _check_double_spaces two_lines = Ok [r] /\
     location r = lit "Line 2, position 5" /\
     column (lit "ab" ++ [NEWLINE] ++ lit "cd") = 2%nat).
Proof.
  split; [|split; [|split; [|split; [|split; [|split]]]]].
  - destruct (double_spaces_fields_in_order txt) as (out & Hout & Hall).
    exists out. split; [exact Hout|].
    eapply records_in_order_impl; [apply double_spaces_located|exact Hall].
  - eapply records_in_order_impl; [apply point_located|].
    apply repeated_words_fields_in_order.
  - destruct (missing_space_fields_in_order U txt) as (out & Hout & Hall).
    exists out. split; [exact Hout|].
    eapply records_in_order_impl; [apply point_located|exact Hall].
  - eapply records_in_order_impl; [apply point_located|].
    apply space_before_punct_fields_in_order.
  - eapply records_in_order_impl; [apply blank_lines_located|].
    apply blank_lines_in_order.
  - eapply records_in_order_impl; [apply point_located|].
    apply double_hyphen_fields_in_order.
  - eexists. split; [vm_compute; reflexivity|].
    split; vm_compute; reflexivity.
Qed.

(** ** Runs of one character *)

Section Runs.

Variable p : N -> bool.
Variable lo : nat.
Variable text : str.

Lemma run_stop_list (l : str) :
  match l !! run p l with
  | Some c => p c = false
  | None => True
  end.
Proof.
  induction l as [|c l IH]; simpl; [exact I|].
  destruct (p c) eqn:Hc; simpl; [exact IH|exact Hc].
Qed.

(** The character after a run is not of the class. *)
Lemma run_stop (s : nat) :
  class_at p text (s + run p (drop s text)) = false.
Proof.
  unfold class_at. pose proof (run_stop_list (drop s text)) as H.
  rewrite lookup_drop in H.
  destruct (text !! (s + run p (drop s text))%nat); [exact H|reflexivity].
Qed.

Lemma run_extend (s : nat) :
  class_at p text s = true ->
  run p (drop s text) = S (run p (drop (S s) text)).
Proof.
  unfold class_at. destruct (text !! s) as [c|] eqn:Hs; [|discriminate].
  intros Hc. rewrite (drop_S _ _ _ Hs). simpl. rewrite Hc. reflexivity.
Qed.

Lemma run_positive (s : nat) :
  (1 <= run p (drop s text))%nat -> class_at p text s = true.
Proof.
  unfold class_at. destruct (text !! s) as [c|] eqn:Hs.
  - rewrite (drop_S _ _ _ Hs). simpl. destruct (p c); [reflexivity|lia].
  - apply lookup_ge_None in Hs. rewrite drop_ge by lia. simpl. lia.
Qed.

(** The pattern [c{lo,}] matches exactly where the run is long enough,
    and takes the whole run. *)
Lemma rep_here (pos : nat) :
  m_here text [Rep p lo] pos [] []
  = if (lo <=? run p (drop pos text))%nat
    then Some ((pos + run p (drop pos text))%nat, [])
    else None.
Proof.
  simpl. destruct (Nat.leb_spec lo (run p (drop pos text))) as [Hle|Hlt].
  - erewrite give_back_longest; [reflexivity|exact Hle|reflexivity].
  - apply give_back_below, Hlt.
Qed.

(** A match of [c{lo,}] found by the scan starts a run: the character
    before it, if any, is not of the class. *)
Lemma rep_leftmost_starts (ms : list Match) (from : nat) :
  (1 <= lo)%nat ->
  from = O \/ class_at p text from = false ->
  leftmost [Rep p lo] text from ms ->
  Forall (is_match [Rep p lo] text) ms ->
  Forall (fun m => m_start m = O \/
                   class_at p text (m_start m - 1) = false) ms.
Proof.
  intros Hlo. revert from.
  induction ms as [|m ms IH]; intros from Hfrom Hleft Hall; [constructor|].
  apply Forall_cons in Hall as [Hm Hall].
  destruct Hleft as (Hge & Hgap & Hrest).
  pose proof (rep_match _ _ _ _ Hm) as [Hend Hrun].
  constructor.
  - destruct (decide (m_start m = from)) as [Heq|Hne].
    + destruct Hfrom as [->|Hcls]; [left; exact Heq|].
      rewrite <- Heq in Hcls.
      rewrite run_positive in Hcls by lia. discriminate.
    + right. destruct (class_at p text (m_start m - 1)) eqn:Hc;
        [|reflexivity].
      assert (Hnone : m_here text [Rep p lo] (m_start m - 1) [] [] = None)
        by (apply Hgap; lia).
      rewrite rep_here in Hnone. rewrite (run_extend _ Hc) in Hnone.
      replace (S (m_start m - 1)) with (m_start m) in Hnone by lia.
      destruct (Nat.leb_spec lo (S (run p (drop (m_start m) text))));
        [discriminate|lia].
  - apply (IH (Nat.max (m_end m) (S (m_start m)))); [|exact Hrest|exact Hall].
    right. replace (Nat.max (m_end m) (S (m_start m))) with (m_end m) by lia.
    rewrite Hend. apply run_stop.
Qed.

Lemma rep_finditer_starts :
  (1 <= lo)%nat ->
  Forall (fun m => m_start m = O \/
                   class_at p text (m_start m - 1) = false)
         (finditer [Rep p lo] text).
Proof.
  intros Hlo. apply (rep_leftmost_starts _ O Hlo).
  - left. reflexivity.
  - apply finditer_leftmost.
  - apply finditer_is_match.
Qed.

End Runs.

Lemma getitem_lookup (s : str) (i : Z) (c : N) :
  0 <= i -> getitem s i = Ok c -> s !! Z.to_nat i = Some c.
Proof.
  intros Hi. unfold getitem. destruct (Z.ltb_spec i 0); [lia|].
  destruct ((0 <=? i) && (i <? len s)); [|intros [=]].
  destruct (s !! Z.to_nat i) as [d|]; [|intros [=]].
  intros [= <-]. reflexivity.
Qed.

(** A list all of whose elements are [c] is a repetition of [c]. *)
Lemma all_is_char_replicate (c : N) (s : str) :
  Forall (fun d => is_char c d = true) s -> s = replicate (length s) c.
Proof.
  induction 1 as [|d s Hd _ IH]; [reflexivity|].
  unfold is_char in Hd. apply N.eqb_eq in Hd. subst d.
  simpl. f_equal. exact IH.
Qed.

(** ** The double-spaces check, again *)

Lemma head_drop (s : str) (e : nat) : head (drop e s) = s !! e.
Proof.
  revert e. induction s as [|c s IH]; intros [|e]; simpl; try reflexivity.
  apply IH.
Qed.

(** What the loop of the check knows of a match it makes a record for. *)
Lemma check_double_spaces_kept (txt : str) :
  exists out,
    _check_double_spaces txt = Ok out /\
    Forall (fun r => exists m c,
              is_match re_double_spaces txt m /\
              double_spaces_record txt m r /\
              (0 < m_start m)%nat /\
              txt !! (m_start m - 1)%nat = Some c /\
              c <> NEWLINE /\ c <> SPACE) out.
Proof.
  unfold _check_double_spaces.
  match goal with
  | |- context [for_append ?body ?xs] =>
      pose proof (for_append_ok body xs
                    (fun m => is_match re_double_spaces txt m /\
                              (m_start m = O \/
                               class_at (is_char SPACE) txt (m_start m - 1)
                               = false))
                    (fun m r => double_spaces_record txt m r /\
                                (0 < m_start m)%nat /\
                                exists c, txt !! (m_start m - 1)%nat = Some c /\
                                          c <> NEWLINE)) as Hloop
  end.
  match type of Hloop with
  | ?A -> ?B -> _ =>
      assert (H1 : A); [|assert (H2 : B);
        [|destruct (Hloop H1 H2) as (out & Hout & Hall); clear Hloop H1 H2]]
  end.
  - apply Forall_and. split; [apply finditer_is_match|].
    apply rep_finditer_starts. lia.
  - intros m [(_ & Hb & _) _]. cbv zeta.
    destruct (Z.eqb_spec (Z.of_nat (m_start m)) 0) as [Hz|Hnz].
    + exists None. split; [reflexivity|discriminate].
    + destruct (getitem_ok txt (Z.of_nat (m_start m) - 1)) as [c Hc];
        [unfold len; lia|].
      rewrite Hc. cbn. destruct (N.eqb_spec c NEWLINE) as [Heq|Hne].
      * exists None. split; [reflexivity|discriminate].
      * eexists. split; [reflexivity|]. intros r [= <-].
        split; [repeat split|]. split; [lia|].
        exists c. split; [|exact Hne].
        apply getitem_lookup in Hc; [|lia].
        replace (m_start m - 1)%nat
          with (Z.to_nat (Z.of_nat (m_start m) - 1)) by lia.
        exact Hc.
  - exists out. split; [exact Hout|].
    eapply Forall_impl; [exact Hall|].
    intros r (m & _ & [Hm Hstart] & Hrec & Hpos & c & Hc & Hnl).
    exists m, c. split; [exact Hm|]. split; [exact Hrec|].
    split; [exact Hpos|]. split; [exact Hc|]. split; [exact Hnl|].
    destruct Hstart as [Hz|Hcls]; [lia|].
    unfold class_at in Hcls. rewrite Hc in Hcls.
    unfold is_char in Hcls. intros Heq. subst c.
    rewrite N.eqb_refl in Hcls. discriminate.
Qed.

(** X4.  The double-spaces check returns, and every record it returns
    stands for a run of at least two spaces that cannot be extended on
    either side and that follows a character which is neither a space
    nor a newline: a run at the start of the text or of a line is never
    reported.  The matched text is the run between apostrophes and the
    position is the offset of its first space. *)
Theorem double_spaces_reports_runs (txt : str) :
  exists out,
    _check_double_spaces txt = Ok out /\
    Forall (double_spaces_run txt) out.
Proof.
  destruct (check_double_spaces_kept txt) as (out & Hout & Hall).
  exists out. split; [exact Hout|].
  eapply Forall_impl; [exact Hall|].
  intros r (m & c & Hm & (_ & Htext & Hloc) & Hpos & Hc & Hnl & Hsp).
  pose proof (rep_match _ _ _ _ Hm) as [Hend Hrun].
  pose proof (rep_match_chars _ _ _ _ Hm) as [Hchars Hlen].
  pose proof Hm as (_ & Hb & _).
  set (s := m_start m) in *. set (e := m_end m) in *.
  assert (Hgroup : group m 0 = take (e - s) (drop s txt)).
  { rewrite (group_0 _ _ _ Hm). fold s e.
    rewrite slice_inside by (unfold len; lia).
    f_equal; [lia|]. f_equal. lia. }
  assert (Hglen : length (group m 0) = (e - s)%nat).
  { rewrite Hgroup, length_take, length_drop. lia. }
  exists (take (s - 1) txt), (drop e txt), c, (e - s)%nat.
  assert (Hrep : group m 0 = replicate (e - s) SPACE).
  { rewrite (all_is_char_replicate SPACE (group m 0) Hchars) at 1.
    rewrite Hglen. reflexivity. }
  split; [|split; [lia|split; [exact Hsp|split; [exact Hnl|split;
          [|split]]]]].
  - rewrite <- Hrep, Hgroup.
    rewrite <- (take_drop_middle txt (s - 1) c Hc) at 1.
    cbn [app]. do 2 f_equal.
    replace (S (s - 1)) with s by lia.
    rewrite <- (take_drop (e - s) (drop s txt)) at 1. f_equal.
    rewrite drop_drop. f_equal. lia.
  - rewrite head_drop. intros He.
    pose proof (run_stop (is_char SPACE) txt s) as Hstop.
    fold s in Hend. rewrite <- Hend in Hstop.
    unfold class_at in Hstop. rewrite He in Hstop. discriminate.
  - rewrite Htext, repr_spaces by exact Hchars. rewrite Hrep. reflexivity.
  - rewrite Hloc. fold s. rewrite get_line_number_take by lia.
    assert (Htake : take s txt = take (s - 1) txt ++ [c]).
    { replace s with (S (s - 1)) at 1 by lia.
      erewrite take_S_r by exact Hc. reflexivity. }
    rewrite Htake. unfold occurrences at 1.
    rewrite filter_app, length_app. cbn [filter].
    rewrite filter_cons, decide_False by exact Hnl. rewrite filter_nil.
    cbn [length]. rewrite Nat.add_0_r. fold (occurrences NEWLINE (take (s - 1) txt)).
    unfold len. rewrite length_take.
    replace (Z.of_nat ((s - 1) `min` length txt) + 1) with (Z.of_nat s)
      by lia.
    reflexivity.
Qed.

Lemma leftmost_covers (pat : pattern) (text : str) (ms : list Match) :
  forall from p,
    leftmost pat text from ms ->
    (from <= p <= length text)%nat ->
    m_here text pat p [] [] <> None ->
    exists m, m ∈ ms /\
              (m_start m <= p < Nat.max (m_end m) (S (m_start m)))%nat.
Proof.
  induction ms as [|m ms IH]; intros from p Hleft Hp Hsome; simpl in Hleft.
  - exfalso. apply Hsome, Hleft, Hp.
  - destruct Hleft as (Hfrom & Hgap & Hrest).
    destruct (Nat.lt_ge_cases p (m_start m)) as [Hlt|Hge].
    { exfalso. apply Hsome, Hgap. lia. }
    destruct (Nat.lt_ge_cases p (Nat.max (m_end m) (S (m_start m))))
      as [Hin|Hout].
    + exists m. split; [left|lia].
    + destruct (IH _ p Hrest ltac:(lia) Hsome) as (m' & Hm' & Hpm').
      exists m'. split; [right; exact Hm'|exact Hpm'].
Qed.

Lemma run_inside (p : N -> bool) (l : str) (q : nat) :
  (q < run p l)%nat -> exists c, l !! q = Some c /\ p c = true.
Proof.
  revert q. induction l as [|d l IH]; intros q Hq; simpl in Hq; [lia|].
  destruct (p d) eqn:Hd; [|lia].
  destruct q as [|q]; [exists d; split; [reflexivity|exact Hd]|].
  apply IH. lia.
Qed.

Lemma run_replicate (p : N -> bool) (c : N) (n : nat) (l : str) :
  p c = true -> run p (replicate n c ++ l) = (n + run p l)%nat.
Proof.
  intros Hc. induction n as [|n IH]; [reflexivity|].
  simpl. rewrite Hc, IH. reflexivity.
Qed.

Lemma run_head (p : N -> bool) (c : N) (l : str) :
  (forall d, p d = true -> d = c) -> head l <> Some c -> run p l = O.
Proof.
  intros Hp Hl. destruct l as [|d l]; [reflexivity|]. simpl.
  destruct (p d) eqn:Hd; [|reflexivity].
  exfalso. apply Hl. simpl. f_equal. apply Hp, Hd.
Qed.

Lemma getitem_some (s : str) (i : Z) (c : N) :
  0 <= i -> s !! Z.to_nat i = Some c -> getitem s i = Ok c.
Proof.
  intros Hi Hc. unfold getitem. destruct (Z.ltb_spec i 0); [lia|].
  pose proof (lookup_lt_Some _ _ _ Hc) as Hlt.
  destruct (Z.leb_spec 0 i); [|lia].
  destruct (Z.ltb_spec i (len s)); [|unfold len in *; lia].
  cbn. rewrite Hc. reflexivity.
Qed.

Lemma for_append_keeps {A B} (body : A -> res (option B)) (xs : list A)
    (out : list B) (x : A) (b : B) :
  for_append body xs = Ok out -> x ∈ xs -> body x = Ok (Some b) -> b ∈ out.
Proof.
  revert out. induction xs as [|y xs IH]; intros out Hout Hx Hb.
  - apply elem_of_nil in Hx. contradiction.
  - cbn [for_append] in Hout.
    destruct (body y) as [o|e] eqn:Hy; [|discriminate]. cbn in Hout.
    destruct (for_append body xs) as [rest|e] eqn:Hrest; [|discriminate].
    cbn in Hout. injection Hout as <-.
    apply elem_of_cons in Hx as [->|Hx].
    + rewrite Hb in Hy. injection Hy as <-. left.
    + specialize (IH rest eq_refl Hx Hb).
      destruct o; [right|]; exact IH.
Qed.

Lemma is_char_eq (c d : N) : is_char c d = true -> d = c.
Proof. unfold is_char. intros H. apply N.eqb_eq in H. congruence. Qed.

Lemma occurrences_snoc_other (c d : N) (s : str) :
  d <> c -> occurrences c (s ++ [d]) = occurrences c s.
Proof.
  intros Hne. unfold occurrences. rewrite filter_app, length_app.
  rewrite filter_cons, decide_False by exact Hne. rewrite filter_nil.
  simpl. lia.
Qed.

(** X5.  Conversely, every run of two or more spaces that cannot be
    extended and that follows a character which is neither a space nor
    a newline is reported by the double-spaces check, with the run
    between apostrophes as matched text, its line and the offset of its
    first space. *)
Theorem double_spaces_finds_runs (txt before after : str) (c : N) (n : nat) :
  txt = before ++ [c] ++ replicate n SPACE ++ after ->
  (2 <= n)%nat ->
  c <> SPACE -> c <> NEWLINE ->
  head after <> Some SPACE ->
  exists out r,
    _check_double_spaces txt = Ok out /\
    r ∈ out /\
    text r = quoted (replicate n SPACE) /\
    location r =
      lit "Line "
      ++ str_of_int (Z.of_nat (occurrences NEWLINE before) + 1)
      ++ lit ", position " ++ str_of_int (len before + 1).
Proof.
  intros Htxt Hn Hsp Hnl Hafter.
  set (s := S (length before)).
  assert (Hlen : (s + n <= length txt)%nat).
  { rewrite Htxt, !length_app, length_replicate. simpl. lia. }
  assert (Htake : take s txt = before ++ [c]).
  { rewrite Htxt. rewrite (app_assoc before [c]).
    apply take_app_length'. rewrite length_app. simpl. lia. }
  assert (Hdrop : drop s txt = replicate n SPACE ++ after).
  { rewrite Htxt. rewrite (app_assoc before [c]).
    apply drop_app_length'. rewrite length_app. simpl. lia. }
  assert (Hc : txt !! (s - 1)%nat = Some c).
  { rewrite Htxt. unfold s. replace (S (length before) - 1)%nat
      with (length before + 0)%nat by lia.
    rewrite lookup_app_r by lia.
    replace (length before + 0 - length before)%nat with O by lia.
    reflexivity. }
  assert (Hrun : run (is_char SPACE) (drop s txt) = n).
  { rewrite Hdrop, run_replicate by apply N.eqb_refl.
    rewrite (run_head (is_char SPACE) SPACE after);
      [lia|apply is_char_eq|exact Hafter]. }
  assert (Hhere : m_here txt re_double_spaces s [] [] <> None).
  { unfold re_double_spaces. rewrite rep_here, Hrun.
    destruct (Nat.leb_spec 2 n); [discriminate|lia]. }
  assert (Hs : (0 <= s <= length txt)%nat) by lia.
  destruct (leftmost_covers re_double_spaces txt _ O s
              (finditer_leftmost _ _) Hs Hhere) as (m & Hin & Hcover).
  assert (Hm : is_match re_double_spaces txt m).
  { pose proof (finditer_is_match re_double_spaces txt) as Hall.
    rewrite Forall_forall in Hall. apply Hall, Hin. }
  pose proof (rep_match _ _ _ _ Hm) as [Hend Hlo].
  assert (Hstart : m_start m = s).
  { destruct (decide (m_start m = s)) as [Heq|Hne]; [exact Heq|exfalso].
    destruct (run_inside (is_char SPACE) (drop (m_start m) txt)
                (s - 1 - m_start m)) as (d & Hd & Hp); [lia|].
    rewrite lookup_drop in Hd.
    replace (m_start m + (s - 1 - m_start m))%nat with (s - 1)%nat in Hd
      by lia.
    rewrite Hc in Hd. injection Hd as <-. apply Hsp, is_char_eq, Hp. }
  rewrite Hstart, Hrun in Hend.
  destruct (check_double_spaces_ok txt) as (out & Hout & _).
  assert (Hgroup : group m 0 = replicate n SPACE).
  { rewrite (group_0 _ _ _ Hm), Hstart, Hend.
    rewrite slice_inside by (unfold len; lia).
    rewrite Nat2Z.id, Hdrop.
    replace (Z.to_nat (Z.of_nat (s + n) - Z.of_nat s)) with n by lia.
    apply take_app_length'. rewrite length_replicate. reflexivity. }
  eexists out, _. split; [exact Hout|]. split.
  - unfold _check_double_spaces in Hout.
    eapply for_append_keeps; [exact Hout|exact Hin|]. cbv beta zeta.
    rewrite Hstart.
    destruct (Z.eqb_spec (Z.of_nat s) 0) as [Hz|_]; [unfold s in Hz; lia|].
    rewrite (getitem_some txt (Z.of_nat s - 1) c);
      [|lia|replace (Z.to_nat (Z.of_nat s - 1)) with (s - 1)%nat by lia;
            exact Hc].
    cbn [mbind res_bind bind mret res_ret].
    destruct (N.eqb_spec c NEWLINE) as [Heq|_]; [contradiction|].
    reflexivity.
  - cbn [text location]. split.
    + rewrite Hgroup. apply repr_spaces.
      apply Forall_forall. intros d Hd.
      apply elem_of_replicate in Hd as [-> _]. apply N.eqb_refl.
    + rewrite get_line_number_take by lia.
      rewrite Htake, occurrences_snoc_other by exact Hnl.
      replace (Z.of_nat s) with (len before + 1) by (unfold len, s; lia).
      reflexivity.
Qed.

Lemma double_spaces_finds_runs_witness :
  exists out r,
    _check_double_spaces (lit "Hello  world") = Ok out /\
    r ∈ out /\
    text r = quoted (replicate 2 SPACE) /\
    location r =
      lit "Line "
      ++ str_of_int (Z.of_nat (occurrences NEWLINE (lit "Hell")) + 1)
      ++ lit ", position " ++ str_of_int (len (lit "Hell") + 1).
Proof.
  apply (double_spaces_finds_runs (lit "Hello  world") (lit "Hell")
           (lit "world") (chr "o") 2);
    [reflexivity | lia | discriminate | discriminate | discriminate].
Defined.

(** ** The trailing-whitespace check *)

Section Trailing.

Variable U : unicode.

(** [rstrip] leaves a line as it is exactly when the line does not end
    with whitespace. *)
Lemma rstrip_fixed (line : str) :
  rstrip (isspace U) line = line <-> ends_with_space U line = false.
Proof.
  unfold ends_with_space.
  induction line as [|c line IH]; [split; reflexivity|].
  destruct line as [|d line].
  - simpl. destruct (isspace U c); split; congruence.
  - change (last (c :: d :: line)) with (last (d :: line)).
    change (rstrip (isspace U) (c :: d :: line))
      with (match rstrip (isspace U) (d :: line) with
            | [] => if isspace U c then [] else [c]
            | t => c :: t
            end).
    destruct (rstrip (isspace U) (d :: line)) as [|t ts] eqn:Hr.
    + split.
      * intros H. destruct (isspace U c); discriminate.
      * intros H. apply IH in H. discriminate.
    + rewrite <- IH. split; [intros [= -> ->]; reflexivity|intros ->; reflexivity].
Qed.

Lemma trailing_count_filter (lines : list str) (n : Z) :
  foldl (fun n line =>
           if bool_decide (line <> rstrip (isspace U) line)
           then n + 1 else n) n lines
  = n + Z.of_nat (length (filter (fun line => ends_with_space U line = true)
                                 lines)).
Proof.
  revert n. induction lines as [|line lines IH]; intros n; [simpl; lia|].
  cbn [foldl]. rewrite IH, filter_cons.
  destruct (ends_with_space U line) eqn:He.
  - rewrite bool_decide_eq_true_2.
    + rewrite decide_True by reflexivity. simpl. lia.
    + intros Heq. symmetry in Heq. apply rstrip_fixed in Heq. congruence.
  - rewrite bool_decide_eq_false_2.
    + rewrite decide_False by discriminate. lia.
    + intros Hne. apply Hne. symmetry. apply rstrip_fixed, He.
Qed.

(** X6.  The trailing-whitespace check reports nothing when no line of
    [text.split('\n')] ends with a whitespace character, and otherwise
    one record that gives the number [n] of such lines, in the matched
    text and, with the number of lines (one more than the newlines of
    the text), in the context; [n] is at most the number of lines. *)
Theorem trailing_whitespace_count (txt : str) :
  (trailing_lines U txt <= S (occurrences NEWLINE txt))%nat /\
  (trailing_lines U txt = O -> _check_trailing_whitespace U txt = []) /\
  ((0 < trailing_lines U txt)%nat ->
   exists r,
     _check_trailing_whitespace U txt = [r] /\
     rule_id r = lit "trailing-whitespace" /\
     severity r = lit "low" /\
     text r = str_of_int (Z.of_nat (trailing_lines U txt))
              ++ lit " line(s) with trailing whitespace" /\
     context r = lit "Found in "
                 ++ str_of_int (Z.of_nat (trailing_lines U txt))
                 ++ lit " of "
                 ++ str_of_int (Z.of_nat (S (occurrences NEWLINE txt)))
                 ++ lit " lines").
Proof.
  split; [|split].
  - unfold trailing_lines. rewrite <- split_length. apply length_filter.
  - intros Hz. unfold _check_trailing_whitespace.
    rewrite trailing_count_filter. fold (trailing_lines U txt). rewrite Hz.
    reflexivity.
  - intros Hpos. unfold _check_trailing_whitespace.
    rewrite trailing_count_filter. fold (trailing_lines U txt).
    rewrite split_length. rewrite Z.add_0_l.
    destruct (Z.ltb_spec 0 (Z.of_nat (trailing_lines U txt))); [|lia].
    eexists. split; [reflexivity|]. repeat split.
Qed.

End Trailing.

Lemma trailing_whitespace_count_witness :
  exists r,
    _check_trailing_whitespace ascii_unicode (lit "a " ++ [NEWLINE] ++ lit "b")
    = [r] /\
    rule_id r = lit "trailing-whitespace" /\
    severity r = lit "low" /\
    text r = str_of_int (Z.of_nat (trailing_lines ascii_unicode
                                     (lit "a " ++ [NEWLINE] ++ lit "b")))
             ++ lit " line(s) with trailing whitespace" /\
    context r = lit "Found in "
                ++ str_of_int (Z.of_nat (trailing_lines ascii_unicode
                                           (lit "a " ++ [NEWLINE] ++ lit "b")))
                ++ lit " of "
                ++ str_of_int (Z.of_nat (S (occurrences NEWLINE
                                              (lit "a " ++ [NEWLINE] ++ lit "b"))))
                ++ lit " lines".
Proof.
  apply (trailing_whitespace_count ascii_unicode
           (lit "a " ++ [NEWLINE] ++ lit "b")).
  vm_compute. lia.
Defined.

(** ** Runs found by the scan *)

Section RunMatches.

Variable p : N -> bool.
Variable lo : nat.
Variable text : str.
Hypothesis lo_positive : (1 <= lo)%nat.

(** A match of [c{lo,}] cuts the text at a run that cannot be extended. *)
Lemma rep_match_split (m : Match) :
  m ∈ finditer [Rep p lo] text ->
  text = take (m_start m) text ++ group m 0 ++ drop (m_end m) text /\
  (m_start m <= length text)%nat /\
  length (group m 0) = (m_end m - m_start m)%nat /\
  (lo <= m_end m - m_start m)%nat /\
  Forall (fun c => p c = true) (group m 0) /\
  class_at p text (m_end m) = false /\
  (m_start m = O \/ class_at p text (m_start m - 1) = false).
Proof.
  intros Hin.
  assert (Hm : is_match [Rep p lo] text m).
  { pose proof (finditer_is_match [Rep p lo] text) as Hall.
    rewrite Forall_forall in Hall. apply Hall, Hin. }
  pose proof (rep_match _ _ _ _ Hm) as [Hend Hrun].
  pose proof (rep_match_chars _ _ _ _ Hm) as [Hchars _].
  pose proof Hm as (_ & Hb & _).
  assert (Hgroup : group m 0
                   = take (m_end m - m_start m) (drop (m_start m) text)).
  { rewrite (group_0 _ _ _ Hm). rewrite slice_inside by (unfold len; lia).
    f_equal; [lia|]. f_equal. lia. }
  split; [|split; [lia|split; [|split; [lia|split; [exact Hchars|split]]]]].
  - rewrite Hgroup.
    rewrite <- (take_drop (m_start m) text) at 1. f_equal.
    rewrite <- (take_drop (m_end m - m_start m) (drop (m_start m) text)) at 1.
    f_equal. rewrite drop_drop. f_equal. lia.
  - rewrite Hgroup, length_take, length_drop. lia.
  - rewrite Hend. apply run_stop.
  - pose proof (rep_finditer_starts p lo text lo_positive) as Hall.
    rewrite Forall_forall in Hall. apply Hall, Hin.
Qed.

(** Every run that is long enough and cannot be extended to the left is
    found, whole. *)
Lemma rep_finditer_complete (s : nat) :
  (s <= length text)%nat ->
  (lo <= run p (drop s text))%nat ->
  s = O \/ class_at p text (s - 1) = false ->
  exists m, m ∈ finditer [Rep p lo] text /\
            m_start m = s /\
            m_end m = (s + run p (drop s text))%nat.
Proof.
  intros Hs Hrun Hleft.
  assert (Hhere : m_here text [Rep p lo] s [] [] <> None).
  { rewrite rep_here. destruct (Nat.leb_spec lo (run p (drop s text)));
      [discriminate|lia]. }
  assert (Hs' : (0 <= s <= length text)%nat) by lia.
  destruct (leftmost_covers [Rep p lo] text _ O s
              (finditer_leftmost _ _) Hs' Hhere) as (m & Hin & Hcover).
  assert (Hm : is_match [Rep p lo] text m).
  { pose proof (finditer_is_match [Rep p lo] text) as Hall.
    rewrite Forall_forall in Hall. apply Hall, Hin. }
  pose proof (rep_match _ _ _ _ Hm) as [Hend Hlo].
  assert (Hstart : m_start m = s).
  { destruct (decide (m_start m = s)) as [Heq|Hne]; [exact Heq|exfalso].
    destruct Hleft as [->|Hcls]; [lia|].
    destruct (run_inside p (drop (m_start m) text) (s - 1 - m_start m))
      as (d & Hd & Hp); [lia|].
    rewrite lookup_drop in Hd.
    replace (m_start m + (s - 1 - m_start m))%nat with (s - 1)%nat in Hd
      by lia.
    unfold class_at in Hcls. rewrite Hd in Hcls. congruence. }
  exists m. split; [exact Hin|]. split; [exact Hstart|].
  rewrite Hend, Hstart. reflexivity.
Qed.

End RunMatches.

Lemma last_take_lookup (s : str) (n : nat) :
  (n <= length s)%nat ->
  last (take n s) = match n with O => None | S q => s !! q end.
Proof.
  intros Hn. rewrite last_lookup, length_take.
  replace (n `min` length s)%nat with n by lia.
  destruct n as [|q]; [reflexivity|]. simpl pred.
  apply lookup_take_lt. lia.
Qed.

Lemma class_at_is_char (c : N) (s : str) (q : nat) :
  class_at (is_char c) s q = false <-> s !! q <> Some c.
Proof.
  unfold class_at, is_char. destruct (s !! q) as [d|]; [|split; congruence].
  destruct (N.eqb_spec c d) as [->|Hne]; split; congruence.
Qed.

(** ** The blank-lines check *)

(** X7.  Every record of the multiple-blank-lines check stands for a
    run of [k + 1] newlines, with [k] at least 2, that cannot be
    extended on either side: the matched text announces [k] blank
    lines, and the line reported is the one the first newline of the
    run ends. *)
Theorem blank_lines_reports_runs (txt : str) :
  Forall (blank_lines_run txt) (_check_multiple_blank_lines txt).
Proof.
  apply Forall_forall. intros r Hr. unfold _check_multiple_blank_lines in Hr.
  apply list_elem_of_fmap in Hr as (m & -> & Hin).
  destruct (rep_match_split (is_char NEWLINE) 3 txt ltac:(lia) m Hin)
    as (Hsplit & Hs & Hlen & Hlo & Hchars & Hright & Hleft).
  exists (take (m_start m) txt), (drop (m_end m) txt),
         (m_end m - m_start m - 1)%nat.
  split; [|split; [lia|split; [|split; [|split]]]].
  - replace (S (m_end m - m_start m - 1)) with (m_end m - m_start m)%nat
      by lia.
    rewrite <- Hlen, <- (all_is_char_replicate _ _ Hchars). exact Hsplit.
  - rewrite last_take_lookup by exact Hs.
    destruct (m_start m) as [|q] eqn:Hq; [discriminate|].
    destruct Hleft as [Hz|Hcls]; [discriminate|].
    apply class_at_is_char. replace q with (S q - 1)%nat by lia. exact Hcls.
  - rewrite head_drop. apply class_at_is_char, Hright.
  - cbn [text]. unfold len. rewrite Hlen. do 2 f_equal. lia.
  - cbn [location]. rewrite get_line_number_take by exact Hs. reflexivity.
Qed.

(** X8.  Conversely, every run of three or more newlines that cannot
    be extended is reported by the multiple-blank-lines check, as one
    blank line less than it has newlines. *)
Theorem blank_lines_finds_runs (txt before after : str) (k : nat) :
  txt = before ++ replicate (S k) NEWLINE ++ after ->
  (2 <= k)%nat ->
  last before <> Some NEWLINE ->
  head after <> Some NEWLINE ->
  exists r,
    r ∈ _check_multiple_blank_lines txt /\
    text r = str_of_int (Z.of_nat k) ++ lit " consecutive blank lines" /\
    location r =
      lit "Line " ++ str_of_int (Z.of_nat (occurrences NEWLINE before) + 1).
Proof.
  intros Htxt Hk Hbefore Hafter.
  set (s := length before).
  assert (Hlen : (s + S k <= length txt)%nat).
  { rewrite Htxt, !length_app, length_replicate. unfold s. lia. }
  assert (Htake : take s txt = before)
    by (rewrite Htxt; apply take_app_length).
  assert (Hdrop : drop s txt = replicate (S k) NEWLINE ++ after)
    by (rewrite Htxt; apply drop_app_length).
  assert (Hrun : run (is_char NEWLINE) (drop s txt) = S k).
  { rewrite Hdrop, run_replicate by apply N.eqb_refl.
    rewrite (run_head (is_char NEWLINE) NEWLINE after);
      [lia|apply is_char_eq|exact Hafter]. }
  destruct (rep_finditer_complete (is_char NEWLINE) 3 txt ltac:(lia) s)
    as (m & Hin & Hstart & Hend); [lia|lia| |].
  { rewrite <- Htake, last_take_lookup in Hbefore by lia.
    destruct s as [|q]; [left; reflexivity|right].
    apply class_at_is_char. replace (S q - 1)%nat with q by lia.
    exact Hbefore. }
  rewrite Hrun in Hend.
  assert (Hm : is_match re_multiple_blank_lines txt m).
  { pose proof (finditer_is_match re_multiple_blank_lines txt) as Hall.
    rewrite Forall_forall in Hall. apply Hall, Hin. }
  eexists. split.
  - unfold _check_multiple_blank_lines. apply list_elem_of_fmap.
    exists m. split; [reflexivity|exact Hin].
  - cbn [text location]. split.
    + rewrite (group_0 _ _ _ Hm), slice_length by (unfold len; lia).
      do 2 f_equal. lia.
    + rewrite Hstart, get_line_number_take, Htake by lia. reflexivity.
Qed.

Lemma blank_lines_finds_runs_witness :
  exists r,
    r ∈ _check_multiple_blank_lines
          (lit "a" ++ replicate 3 NEWLINE ++ lit "b") /\
    text r = str_of_int (Z.of_nat 2) ++ lit " consecutive blank lines" /\
    location r =
      lit "Line "
      ++ str_of_int (Z.of_nat (occurrences NEWLINE (lit "a")) + 1).
Proof.
  apply (blank_lines_finds_runs (lit "a" ++ replicate 3 NEWLINE ++ lit "b")
           (lit "a") (lit "b") 2);
    [reflexivity | lia | discriminate | discriminate].
Defined.

(** ** The hidden-characters check *)

Lemma dict_set_fresh (k : str) (v : Z) (d : list (str * Z)) :
  k ∉ map fst d -> dict_set k v d = d ++ [(k, v)].
Proof.
  induction d as [|[k' v'] d IH]; intros Hk; [reflexivity|].
  cbn [map fst] in Hk. apply not_elem_of_cons in Hk as [Hne Hk].
  cbn [dict_set]. rewrite decide_False by congruence.
  rewrite IH by exact Hk. reflexivity.
Qed.

(** The loop that fills the dictionary [found]: as the names are all
    different no entry is ever overwritten, and the dictionary ends up
    with the characters that occur, in the order they are tried. *)
Lemma hidden_found (txt : str) (entries : list (N * str)) :
  NoDup (map snd entries) ->
  forall found : list (str * Z),
    (forall entry, entry ∈ entries -> entry.2 ∉ map fst found) ->
    foldl (fun found '(char, name) =>
             if 0 <? count txt [char]
             then dict_set name (count txt [char]) found else found)
          found entries
    = found
      ++ map (fun entry => (entry.2, Z.of_nat (occurrences entry.1 txt)))
             (filter (fun entry => (0 < occurrences entry.1 txt)%nat)
                     entries).
Proof.
  induction entries as [|[char name] entries IH]; intros Hnd found Hfresh.
  - cbn. rewrite app_nil_r. reflexivity.
  - cbn [map snd] in Hnd. apply NoDup_cons in Hnd as [Hname Hnd].
    cbn [foldl]. rewrite !count_char. rewrite filter_cons.
    cbn [fst].
    destruct (decide (0 < occurrences char txt)%nat) as [Hpos|Hz].
    + destruct (Z.ltb_spec 0 (Z.of_nat (occurrences char txt))); [|lia].
      rewrite dict_set_fresh by (apply (Hfresh (char, name)); left).
      rewrite IH; [| exact Hnd |].
      * cbn [map fst snd]. rewrite <- app_assoc. reflexivity.
      * intros entry Hin. rewrite map_app. cbn [map fst].
        intros Hmem. apply elem_of_app in Hmem as [Hmem|Hmem].
        -- eapply Hfresh; [right; exact Hin|exact Hmem].
        -- apply list_elem_of_singleton in Hmem. apply Hname.
           rewrite <- Hmem. apply list_elem_of_fmap.
           exists entry. split; [reflexivity|exact Hin].
    + destruct (Z.ltb_spec 0 (Z.of_nat (occurrences char txt))); [lia|].
      apply IH; [exact Hnd|].
      intros entry Hin. apply Hfresh. right. exact Hin.
Qed.

Lemma hidden_names_distinct : NoDup (map snd hidden_chars).
Proof.
  apply NoDup_ListNoDup.
  repeat (constructor;
          [intros Hin; repeat (destruct Hin as [Heq|Hin];
                               [discriminate Heq|]); exact Hin|]).
  constructor.
Qed.

(** X9.  The hidden-characters check reports nothing when the text has
    none of the six code points of [hidden_chars]; otherwise it reports
    one record, of severity medium, whose context lists, in the order of
    the dictionary and separated by a comma and a space, the name and
    the count of each of the six that occurs, once each and none that
    does not occur. *)
Theorem hidden_characters_summary (txt : str) :
  (hidden_present txt = [] -> _check_hidden_characters txt = []) /\
  (hidden_present txt <> [] ->
   exists r,
     _check_hidden_characters txt = [r] /\
     rule_id r = lit "hidden-characters" /\
     severity r = lit "medium" /\
     location r = lit "Document-wide" /\
     context r = join (lit ", ") (map (hidden_detail txt)
                                      (hidden_present txt))).
Proof.
  unfold _check_hidden_characters. cbv zeta.
  rewrite (hidden_found txt hidden_chars hidden_names_distinct [])
    by (intros entry _; apply not_elem_of_nil).
  cbn [app]. fold (hidden_present txt). split.
  - intros ->. reflexivity.
  - intros Hne. rewrite bool_decide_eq_true_2.
    + eexists. split; [reflexivity|]. cbn [rule_id severity location context].
      repeat split. f_equal. rewrite <- list_fmap_compose.
      apply list_fmap_ext. intros i entry _. reflexivity.
    + intros Hmap. apply Hne. apply fmap_nil_inv in Hmap. exact Hmap.
Qed.

Lemma hidden_characters_summary_witness :
  exists r,
    _check_hidden_characters [chr "a"; 8203%N; 160%N; 8203%N] = [r] /\
    rule_id r = lit "hidden-characters" /\
    severity r = lit "medium" /\
    location r = lit "Document-wide" /\
    context r = join (lit ", ")
                  (map (hidden_detail [chr "a"; 8203%N; 160%N; 8203%N])
                       (hidden_present [chr "a"; 8203%N; 160%N; 8203%N])).
Proof.
  apply (hidden_characters_summary [chr "a"; 8203%N; 160%N; 8203%N]).
  vm_compute. discriminate.
Defined.

(** ** The missing-space check *)

Lemma slice_one (s : str) (i : nat) (c : N) :
  s !! i = Some c -> slice s (Z.of_nat i) (Z.of_nat (S i)) = [c].
Proof.
  intros Hc. pose proof (lookup_lt_Some _ _ _ Hc) as Hlt.
  rewrite slice_inside by (unfold len; lia).
  rewrite Nat2Z.id. replace (Z.to_nat (Z.of_nat (S i) - Z.of_nat i))
    with 1%nat by lia.
  rewrite (drop_S _ _ _ Hc). reflexivity.
Qed.

Lemma slice_two (s : str) (i : nat) (c d : N) :
  s !! i = Some c -> s !! S i = Some d ->
  slice s (Z.of_nat i) (Z.of_nat (S (S i))) = [c; d].
Proof.
  intros Hc Hd. pose proof (lookup_lt_Some _ _ _ Hd) as Hlt.
  rewrite slice_inside by (unfold len; lia).
  rewrite Nat2Z.id. replace (Z.to_nat (Z.of_nat (S (S i)) - Z.of_nat i))
    with 2%nat by lia.
  rewrite (drop_S _ _ _ Hc), (drop_S _ _ _ Hd). reflexivity.
Qed.

Lemma class_at_some (p : N -> bool) (s : str) (i : nat) :
  class_at p s i = true -> exists c, s !! i = Some c /\ p c = true.
Proof.
  unfold class_at. destruct (s !! i) as [c|]; [|discriminate].
  intros Hc. exists c. split; [reflexivity|exact Hc].
Qed.

(** The pattern of the check matches where a punctuation mark is
    followed by a letter, and takes the two. *)
Lemma missing_space_here (txt : str) (pos : nat) :
  m_here txt re_missing_space_after_punct pos [] []
  = if class_at is_punct txt pos && class_at ascii_letter txt (S pos)
    then Some (S (S pos), [(2%nat, (S pos, S (S pos))); (1%nat, (pos, S pos))])
    else None.
Proof.
  unfold re_missing_space_after_punct. cbn [m_here assoc Nat.eqb].
  destruct (class_at is_punct txt pos); [|reflexivity].
  cbn [m_here assoc Nat.eqb]. 
  destruct (class_at ascii_letter txt (S pos)); reflexivity.
Qed.

(** What a match of the pattern is made of. *)
Lemma missing_space_match (txt : str) (m : Match) :
  is_match re_missing_space_after_punct txt m ->
  exists p l,
    txt !! m_start m = Some p /\ txt !! S (m_start m) = Some l /\
    is_punct p = true /\ ascii_letter l = true /\
    m_end m = S (S (m_start m)) /\
    group m 0 = [p; l] /\ group m 1 = [p] /\ group m 2 = [l].
Proof.
  intros (Hstr & Hb & Hhere). rewrite missing_space_here in Hhere.
  destruct (class_at is_punct txt (m_start m)) eqn:Hp; [|discriminate].
  destruct (class_at ascii_letter txt (S (m_start m))) eqn:Hl;
    [|discriminate].
  cbn [andb] in Hhere. injection Hhere as Hend Hspans.
  apply class_at_some in Hp as (p & Hp & Hpc).
  apply class_at_some in Hl as (l & Hl & Hlc).
  exists p, l. split; [exact Hp|]. split; [exact Hl|].
  split; [exact Hpc|]. split; [exact Hlc|]. split; [symmetry; exact Hend|].
  unfold group. rewrite <- Hspans, Hstr, <- Hend. cbn [assoc Nat.eqb].
  split; [apply slice_two; assumption|].
  split; [apply slice_one; assumption|apply slice_one; assumption].
Qed.

Lemma slice_last_ten (txt : str) (s : nat) :
  (s <= length txt)%nat ->
  slice txt (Z.max 0 (Z.of_nat s - 10)) (Z.of_nat s)
  = last_ten (take s txt).
Proof.
  intros Hs. unfold last_ten. rewrite slice_inside by (unfold len; lia).
  rewrite length_take. replace (s `min` length txt)%nat with s by lia.
  replace (Z.to_nat (Z.max 0 (Z.of_nat s - 10))) with (s - 10)%nat by lia.
  replace (Z.to_nat (Z.of_nat s - Z.max 0 (Z.of_nat s - 10)))
    with (s - (s - 10))%nat by lia.
  rewrite take_drop_commute. f_equal. f_equal. lia.
Qed.

(** What the loop of the check knows of a match it makes a record for. *)
Lemma check_missing_space_kept (U : unicode) (txt : str) :
  exists out,
    _check_missing_space_after_punct U txt = Ok out /\
    Forall (fun r => exists m,
              m ∈ finditer re_missing_space_after_punct txt /\
              is_match re_missing_space_after_punct txt m /\
              (text r = group m 0 /\
               suggestion r = group m 1 ++ lit " " ++ group m 2 /\
               location r = lit "Line " ++ str_of_int (line_of txt m) /\
               existsb (fun x =>
                          contains
                            (lower U (slice txt
                                        (Z.max 0 (Z.of_nat (m_start m) - 10))
                                        (Z.of_nat (m_start m)))) x)
                       url_markers = false /\
               (group m 1 = lit "." -> (0 < m_start m)%nat ->
                exists d, txt !! (m_start m - 1)%nat = Some d /\
                          isdigit U d = false))) out.
Proof.
  unfold _check_missing_space_after_punct.
  match goal with
  | |- context [for_append ?body ?xs] =>
      apply (for_append_ok body xs
               (is_match re_missing_space_after_punct txt))
  end; [apply finditer_is_match|].
  intros m (_ & Hb & _). cbv beta zeta. fold url_markers.
  destruct (existsb _ url_markers) eqn:Hurl.
  { exists None. split; [reflexivity|discriminate]. }
  destruct (bool_decide (group m 1 = lit ".")) eqn:Hdot; cbn [andb].
  - destruct (Z.ltb_spec 0 (Z.of_nat (m_start m))) as [Hpos|Hz].
    + destruct (getitem_ok txt (Z.of_nat (m_start m) - 1)) as [c Hc];
        [unfold len; lia|].
      rewrite Hc. cbn [mbind res_bind bind mret res_ret].
      destruct (isdigit U c) eqn:Hdig.
      * exists None. split; [reflexivity|discriminate].
      * eexists. split; [reflexivity|]. intros r [= <-].
        cbn [text suggestion location].
        split; [reflexivity|]. split; [reflexivity|].
        split; [reflexivity|]. split; [reflexivity|].
        intros _ _. exists c. split; [|exact Hdig].
        apply getitem_lookup in Hc; [|lia].
        replace (m_start m - 1)%nat
          with (Z.to_nat (Z.of_nat (m_start m) - 1)) by lia.
        exact Hc.
    + eexists. split; [reflexivity|]. intros r [= <-].
      cbn [text suggestion location].
      split; [reflexivity|]. split; [reflexivity|].
      split; [reflexivity|]. split; [reflexivity|].
      intros _ Hpos. lia.
  - eexists. split; [reflexivity|]. intros r [= <-].
    cbn [text suggestion location].
    split; [reflexivity|]. split; [reflexivity|].
    split; [reflexivity|]. split; [reflexivity|].
    intros Heq. apply bool_decide_eq_false_1 in Hdot. contradiction.
Qed.

(** X10.  The missing-space check returns, and every record it returns
    stands for one of the marks [. , ; : ! ?] directly followed by an
    ASCII letter, such that the ten characters before the mark hold no
    marker of a URL once put in lower case and such that the mark is
    not a full stop that follows a digit.  The matched text is the mark
    and the letter; the suggestion is the two with one space between. *)
Theorem missing_space_reports (U : unicode) (txt : str) :
  exists out,
    _check_missing_space_after_punct U txt = Ok out /\
    Forall (missing_space_record U txt) out.
Proof.
  destruct (check_missing_space_kept U txt) as (out & Hout & Hall).
  exists out. split; [exact Hout|].
  eapply Forall_impl; [exact Hall|].
  intros r (m & _ & Hm & Htext & Hsug & Hloc & Hurl & Hdec).
  destruct (missing_space_match txt m Hm)
    as (p & l & Hp & Hl & Hpc & Hlc & Hend & Hg0 & Hg1 & Hg2).
  pose proof (lookup_lt_Some _ _ _ Hl) as Hlt.
  exists (take (m_start m) txt), (drop (S (S (m_start m))) txt), p, l.
  split; [|split; [exact Hpc|split; [exact Hlc|split; [|split; [|split]]]]].
  - rewrite <- (take_drop (m_start m) txt) at 1. f_equal.
    rewrite (drop_S _ _ _ Hp), (drop_S _ _ _ Hl). reflexivity.
  - unfold excluded_punct. rewrite <- slice_last_ten by lia. rewrite Hurl.
    cbn [orb]. destruct (N.eqb_spec p (chr ".")) as [->|Hne]; [|reflexivity].
    cbn [andb]. rewrite last_take_lookup by lia.
    destruct (m_start m) as [|q] eqn:Hq; [reflexivity|].
    destruct (Hdec Hg1 ltac:(lia)) as (d & Hd & Hdig).
    replace (S q - 1)%nat with q in Hd by lia. rewrite Hd. exact Hdig.
  - rewrite Htext. exact Hg0.
  - rewrite Hsug, Hg1, Hg2. reflexivity.
  - rewrite Hloc. unfold line_of. rewrite get_line_number_take by lia.
    reflexivity.
Qed.

Lemma punct_not_letter (c : N) : is_punct c = true -> ascii_letter c = false.
Proof.
  unfold is_punct, one_of, mem. cbn [lit list_ascii_of_string map existsb].
  intros H. repeat (apply orb_true_iff in H as [H|H];
                    [apply N.eqb_eq in H; subst c; reflexivity|]).
  discriminate.
Qed.

(** X11.  Conversely, every punctuation mark of the six that is
    directly followed by an ASCII letter and is not excluded (no URL
    marker within the ten characters before it, and not a full stop
    after a digit) is reported by the missing-space check. *)
Theorem missing_space_finds (U : unicode) (txt before after : str)
    (p l : N) :
  txt = before ++ [p; l] ++ after ->
  is_punct p = true -> ascii_letter l = true ->
  excluded_punct U before p = false ->
  exists out r,
    _check_missing_space_after_punct U txt = Ok out /\
    r ∈ out /\
    text r = [p; l] /\
    suggestion r = [p; SPACE; l] /\
    location r =
      lit "Line " ++ str_of_int (Z.of_nat (occurrences NEWLINE before) + 1).
Proof.
  intros Htxt Hpc Hlc Hexcl.
  set (s := length before).
  assert (Hlen : (S (S s) <= length txt)%nat).
  { rewrite Htxt, !length_app. simpl. unfold s. lia. }
  assert (Htake : take s txt = before)
    by (rewrite Htxt; apply take_app_length).
  assert (Hp : txt !! s = Some p).
  { rewrite Htxt. unfold s. rewrite lookup_app_r by lia.
    rewrite Nat.sub_diag. reflexivity. }
  assert (Hl : txt !! S s = Some l).
  { rewrite Htxt. unfold s. rewrite lookup_app_r by lia.
    replace (S (length before) - length before)%nat with 1%nat by lia.
    reflexivity. }
  assert (Hhere : m_here txt re_missing_space_after_punct s [] [] <> None).
  { rewrite missing_space_here. unfold class_at. rewrite Hp, Hl, Hpc, Hlc.
    discriminate. }
  assert (Hs : (0 <= s <= length txt)%nat) by lia.
  destruct (leftmost_covers re_missing_space_after_punct txt _ O s
              (finditer_leftmost _ _) Hs Hhere) as (m & Hin & Hcover).
  assert (Hm : is_match re_missing_space_after_punct txt m).
  { pose proof (finditer_is_match re_missing_space_after_punct txt) as Hall.
    rewrite Forall_forall in Hall. apply Hall, Hin. }
  destruct (missing_space_match txt m Hm)
    as (p' & l' & Hp' & Hl' & Hpc' & Hlc' & Hend & Hg0 & Hg1 & Hg2).
  assert (Hstart : m_start m = s).
  { destruct (decide (m_start m = s)) as [Heq|Hne]; [exact Heq|exfalso].
    assert (Hs1 : S (m_start m) = s) by lia.
    rewrite Hs1, Hp in Hl'. injection Hl' as <-.
    rewrite (punct_not_letter _ Hpc) in Hlc'. discriminate. }
  rewrite Hstart in Hp', Hl'. rewrite Hp in Hp'. rewrite Hl in Hl'.
  injection Hp' as <-. injection Hl' as <-.
  apply orb_false_iff in Hexcl as [Hurl Hdec].
  destruct (check_missing_space_ok U txt) as (out & Hout & _).
  eexists out, _. split; [exact Hout|]. split.
  - unfold _check_missing_space_after_punct in Hout.
    eapply for_append_keeps; [exact Hout|exact Hin|]. cbv beta zeta.
    rewrite Hg1, Hstart, slice_last_ten, Htake by lia.
    fold url_markers. rewrite Hurl.
    destruct (bool_decide ([p] = lit ".")) eqn:Hdot; cbn [andb].
    + assert (Hpdot : p = chr ".")
        by (apply bool_decide_eq_true_1 in Hdot; vm_compute in Hdot;
            vm_compute; congruence).
      rewrite Hpdot, N.eqb_refl in Hdec. cbn [andb] in Hdec.
      destruct (Z.ltb_spec 0 (Z.of_nat s)) as [Hpos|Hz]; [|reflexivity].
      rewrite <- Htake, last_take_lookup in Hdec by lia.
      destruct s as [|q] eqn:Hq; [lia|].
      destruct (txt !! q) as [d|] eqn:Hd;
        [|apply lookup_ge_None in Hd; lia].
      rewrite (getitem_some txt (Z.of_nat (S q) - 1) d);
        [|lia|replace (Z.to_nat (Z.of_nat (S q) - 1)) with q by lia;
              exact Hd].
      cbn [mbind res_bind bind mret res_ret]. rewrite Hdec. reflexivity.
    + reflexivity.
  - cbn [text suggestion location].
    rewrite ?Hg0, ?Hg1, ?Hg2, ?Hstart.
    rewrite get_line_number_take, Htake by lia.
    repeat split.
Qed.

Lemma missing_space_finds_witness :
  exists out r,
    _check_missing_space_after_punct ascii_unicode (lit "Hello,world")
    = Ok out /\
    r ∈ out /\
    text r = [chr ","; chr "w"] /\
    suggestion r = [chr ","; SPACE; chr "w"] /\
    location r =
      lit "Line "
      ++ str_of_int (Z.of_nat (occurrences NEWLINE (lit "Hello")) + 1).
Proof.
  apply (missing_space_finds ascii_unicode (lit "Hello,world")
           (lit "Hello") (lit "orld") (chr ",") (chr "w"));
    reflexivity.
Defined.

(** ** The space-before-punct check *)

(** A slice that starts with a character, goes on with [k] characters
    and ends with a character. *)
Lemma slice_char_run_char (txt : str) (s k : nat) (w p : N) :
  txt !! s = Some w -> txt !! (S s + k)%nat = Some p ->
  slice txt (Z.of_nat s) (Z.of_nat (S (S s + k)))
  = [w] ++ take k (drop (S s) txt) ++ [p].
Proof.
  intros Hw Hp. pose proof (lookup_lt_Some _ _ _ Hp) as Hlt.
  rewrite slice_inside by (unfold len; lia).
  rewrite Nat2Z.id.
  replace (Z.to_nat (Z.of_nat (S (S s + k)) - Z.of_nat s))
    with (S (S k)) by lia.
  rewrite (drop_S _ _ _ Hw). cbn [take app]. f_equal.
  apply take_S_r. rewrite lookup_drop. exact Hp.
Qed.

Lemma split_at_slice (txt : str) (s e : nat) :
  (s <= e <= length txt)%nat ->
  txt = take s txt ++ slice txt (Z.of_nat s) (Z.of_nat e) ++ drop e txt.
Proof.
  intros H. rewrite (slice_split txt (Z.of_nat s) (Z.of_nat e)) at 1
    by (unfold len; lia).
  rewrite !Nat2Z.id. reflexivity.
Qed.

Section SpaceBeforePunct.

Variable U : unicode.

(** What a match of the pattern is made of. *)
Lemma space_before_punct_match (txt : str) (m : Match) :
  is_match (re_space_before_punct U) txt m ->
  exists (k : nat) (w p : N),
    txt !! m_start m = Some w /\ is_word U w = true /\
    (1 <= k <= run (is_space U) (drop (S (m_start m)) txt))%nat /\
    txt !! (S (m_start m) + k)%nat = Some p /\ is_punct p = true /\
    m_end m = S (S (m_start m) + k) /\
    group m 1 = [w] /\ group m 2 = [p].
Proof.
  intros (Hstr & Hb & Hhere). unfold re_space_before_punct in Hhere.
  cbn [m_here assoc Nat.eqb] in Hhere.
  destruct (class_at (is_word U) txt (m_start m)) eqn:Hw; [|discriminate].
  cbn [m_here assoc Nat.eqb] in Hhere.
  apply give_back_some in Hhere as (k & Hk & Hhere).
  cbn [m_here assoc Nat.eqb] in Hhere.
  destruct (class_at is_punct txt (S (m_start m) + k)) eqn:Hp;
    [|discriminate].
  cbn [m_here assoc Nat.eqb] in Hhere. injection Hhere as Hend Hspans.
  apply class_at_some in Hw as (w & Hw & Hwc).
  apply class_at_some in Hp as (p & Hp & Hpc).
  exists k, w, p. split; [exact Hw|]. split; [exact Hwc|].
  split; [exact Hk|]. split; [exact Hp|]. split; [exact Hpc|].
  split; [symmetry; exact Hend|].
  unfold group. rewrite <- Hspans, Hstr. cbn [assoc Nat.eqb].
  split; apply slice_one; assumption.
Qed.

(** X12.  Every record of the space-before-punct check stands for a
    word character, then one or more whitespace characters, then one of
    the marks [. , ; : ! ?]; the matched text is the three parts and the
    suggestion is the word character directly followed by the mark. *)
Theorem space_before_punct_reports (txt : str) :
  Forall (space_before_punct_record U txt) (_check_space_before_punct U txt).
Proof.
  apply Forall_forall. intros r Hr. unfold _check_space_before_punct in Hr.
  apply list_elem_of_fmap in Hr as (m & -> & Hin).
  assert (Hm : is_match (re_space_before_punct U) txt m).
  { pose proof (finditer_is_match (re_space_before_punct U) txt) as Hall.
    rewrite Forall_forall in Hall. apply Hall, Hin. }
  destruct (space_before_punct_match txt m Hm)
    as (k & w & p & Hw & Hwc & Hk & Hp & Hpc & Hend & Hg1 & Hg2).
  pose proof (lookup_lt_Some _ _ _ Hp) as Hlt.
  assert (Hg0 : group m 0
                = [w] ++ take k (drop (S (m_start m)) txt) ++ [p]).
  { rewrite (group_0 _ _ _ Hm), Hend. apply slice_char_run_char; assumption. }
  exists (take (m_start m) txt), (drop (m_end m) txt),
         (take k (drop (S (m_start m)) txt)), w, p.
  split; [|split; [exact Hwc|split; [|split; [|split; [exact Hpc|split;
          [exact Hg0|split]]]]]].
  - rewrite (split_at_slice txt (m_start m) (m_end m)) at 1 by lia.
    rewrite <- (group_0 _ _ _ Hm), Hg0, <- !app_assoc. reflexivity.
  - intros Hnil. apply (f_equal (@length N)) in Hnil.
    rewrite length_take, length_drop in Hnil. simpl in Hnil. lia.
  - apply (run_take (is_space U)). lia.
  - cbn [suggestion]. rewrite Hg1, Hg2. reflexivity.
  - cbn [location]. rewrite get_line_number_take by lia. reflexivity.
Qed.

End SpaceBeforePunct.

(** ** The double-hyphen check *)

(** Segments of a text, between offsets. *)
Lemma slice_nat (txt : str) (a b : nat) :
  (a <= b <= length txt)%nat ->
  slice txt (Z.of_nat a) (Z.of_nat b) = take (b - a) (drop a txt).
Proof.
  intros H. rewrite slice_inside by (unfold len; lia).
  rewrite Nat2Z.id. f_equal. lia.
Qed.

Lemma segment_app (txt : str) (a b c : nat) :
  (a <= b <= c)%nat ->
  take (c - a) (drop a txt)
  = take (b - a) (drop a txt) ++ take (c - b) (drop b txt).
Proof.
  intros H. replace (c - a)%nat with ((b - a) + (c - b))%nat by lia.
  rewrite <- take_take_drop, drop_drop. do 3 f_equal. lia.
Qed.

Lemma segment_one (txt : str) (a : nat) (c : N) :
  txt !! a = Some c -> take (S a - a) (drop a txt) = [c].
Proof.
  intros H. replace (S a - a)%nat with 1%nat by lia.
  rewrite (drop_S _ _ _ H). reflexivity.
Qed.

Section DoubleHyphen.

Variable U : unicode.

(** What a match of the pattern is made of. *)
Lemma double_hyphen_match (txt : str) (m : Match) :
  is_match (re_double_hyphen_emdash U) txt m ->
  exists (k1 k2 : nat) (w1 w2 : N),
    let s := m_start m in
    let q := (S s + k1)%nat in
    let t := (S (S q) + k2)%nat in
    txt !! s = Some w1 /\ is_word U w1 = true /\
    (k1 <= run (is_space U) (drop (S s) txt))%nat /\
    txt !! q = Some (chr "-") /\ txt !! S q = Some (chr "-") /\
    (k2 <= run (is_space U) (drop (S (S q)) txt))%nat /\
    txt !! t = Some w2 /\ is_word U w2 = true /\
    m_end m = S t /\
    group m 1 = [w1] /\ group m 2 = [w2].
Proof.
  intros (Hstr & Hb & Hhere). unfold re_double_hyphen_emdash in Hhere.
  cbn [m_here assoc Nat.eqb] in Hhere.
  destruct (class_at (is_word U) txt (m_start m)) eqn:Hw1; [|discriminate].
  cbn [m_here assoc Nat.eqb] in Hhere.
  apply give_back_some in Hhere as (k1 & Hk1 & Hhere).
  cbn [m_here assoc Nat.eqb] in Hhere.
  destruct (class_at (is_char (chr "-")) txt (S (m_start m) + k1)) eqn:Hh1;
    [|discriminate].
  cbn [m_here assoc Nat.eqb] in Hhere.
  destruct (class_at (is_char (chr "-")) txt (S (S (m_start m) + k1)))
    eqn:Hh2; [|discriminate].
  cbn [m_here assoc Nat.eqb] in Hhere.
  apply give_back_some in Hhere as (k2 & Hk2 & Hhere).
  cbn [m_here assoc Nat.eqb] in Hhere.
  destruct (class_at (is_word U) txt (S (S (S (m_start m) + k1)) + k2))
    eqn:Hw2; [|discriminate].
  cbn [m_here assoc Nat.eqb] in Hhere. injection Hhere as Hend Hspans.
  apply class_at_some in Hw1 as (w1 & Hw1 & Hw1c).
  apply class_at_some in Hw2 as (w2 & Hw2 & Hw2c).
  apply class_at_some in Hh1 as (h1 & Hh1 & Hh1c).
  apply class_at_some in Hh2 as (h2 & Hh2 & Hh2c).
  apply is_char_eq in Hh1c, Hh2c. subst h1 h2.
  exists k1, k2, w1, w2. cbv zeta.
  split; [exact Hw1|]. split; [exact Hw1c|]. split; [lia|].
  split; [exact Hh1|]. split; [exact Hh2|]. split; [lia|].
  split; [exact Hw2|]. split; [exact Hw2c|]. split; [symmetry; exact Hend|].
  unfold group. rewrite <- Hspans, Hstr. cbn [assoc Nat.eqb].
  split; apply slice_one; assumption.
Qed.

(** X13.  Every record of the double-hyphen check stands for a word
    character, optional whitespace, two hyphens, optional whitespace
    and a word character; the matched text is all of it and the
    suggestion is the first word character, an em-dash and the second
    word character. *)
Theorem double_hyphen_reports (txt : str) :
  Forall (double_hyphen_record U txt) (_check_double_hyphen_emdash U txt).
Proof.
  apply Forall_forall. intros r Hr. unfold _check_double_hyphen_emdash in Hr.
  apply list_elem_of_fmap in Hr as (m & -> & Hin).
  assert (Hm : is_match (re_double_hyphen_emdash U) txt m).
  { pose proof (finditer_is_match (re_double_hyphen_emdash U) txt) as Hall.
    rewrite Forall_forall in Hall. apply Hall, Hin. }
  destruct (double_hyphen_match txt m Hm)
    as (k1 & k2 & w1 & w2 & Hw1 & Hw1c & Hk1 & Hh1 & Hh2 & Hk2 & Hw2 & Hw2c
        & Hend & Hg1 & Hg2).
  cbv zeta in *.
  set (s := m_start m) in *.
  set (q := (S s + k1)%nat) in *.
  set (t := (S (S q) + k2)%nat) in *.
  pose proof (lookup_lt_Some _ _ _ Hw2) as Hlt.
  assert (Hg0 : group m 0
                = [w1] ++ take k1 (drop (S s) txt) ++ lit "--"
                  ++ take k2 (drop (S (S q)) txt) ++ [w2]).
  { rewrite (group_0 _ _ _ Hm). fold s. rewrite Hend.
    rewrite slice_nat by lia.
    rewrite (segment_app txt s (S s) (S t)) by lia.
    rewrite (segment_one txt s w1 Hw1). f_equal.
    rewrite (segment_app txt (S s) q (S t)) by lia.
    replace (q - S s)%nat with k1 by lia. f_equal.
    rewrite (segment_app txt q (S q) (S t)) by lia.
    rewrite (segment_one txt q _ Hh1).
    rewrite (segment_app txt (S q) (S (S q)) (S t)) by lia.
    rewrite (segment_one txt (S q) _ Hh2).
    rewrite (segment_app txt (S (S q)) t (S t)) by lia.
    replace (t - S (S q))%nat with k2 by lia.
    rewrite (segment_one txt t w2 Hw2). reflexivity. }
  exists (take s txt), (drop (m_end m) txt),
         (take k1 (drop (S s) txt)), (take k2 (drop (S (S q)) txt)), w1, w2.
  split; [|split; [exact Hw1c|split; [exact Hw2c|split; [|split; [|split;
          [exact Hg0|split]]]]]].
  - rewrite (split_at_slice txt s (m_end m)) at 1 by lia.
    fold s in Hg0. unfold s at 2. rewrite <- (group_0 _ _ _ Hm), Hg0.
    rewrite <- !app_assoc. reflexivity.
  - apply (run_take (is_space U)). exact Hk1.
  - apply (run_take (is_space U)). exact Hk2.
  - cbn [suggestion]. rewrite Hg1, Hg2. reflexivity.
  - cbn [location]. fold s. rewrite get_line_number_take by lia. reflexivity.
Qed.

End DoubleHyphen.

(** ** The repeated-words check *)

Lemma backref_same (fold : N -> N) (txt : str) (n : nat) :
  forall s pos,
    backref fold txt n s pos = true ->
    length (take n (drop s txt)) = n /\
    Forall2 (fun c d => fold c = fold d)
            (take n (drop s txt)) (take n (drop pos txt)).
Proof.
  induction n as [|n IH]; intros s pos H.
  - split; [reflexivity|constructor].
  - cbn [backref] in H. destruct (txt !! s) as [c|] eqn:Hc; [|discriminate].
    destruct (txt !! pos) as [d|] eqn:Hd; [|discriminate].
    apply andb_true_iff in H as [Hcd H]. apply N.eqb_eq in Hcd.
    destruct (IH _ _ H) as [Hlen Hall].
    rewrite (drop_S _ _ _ Hc), (drop_S _ _ _ Hd). cbn [take length].
    split; [f_equal; exact Hlen|constructor; assumption].
Qed.

(** [\b] at the place where a text is cut in two. *)
Lemma boundary_cut (w : N -> bool) (l r : str) :
  boundary w (l ++ r) (length l)
  = xorb (match last l with Some c => w c | None => false end)
         (match head r with Some c => w c | None => false end).
Proof.
  unfold boundary, class_at. f_equal.
  - destruct (length l) as [|q] eqn:Hq.
    + destruct l; [reflexivity|discriminate].
    + rewrite last_lookup, Hq. cbn [pred].
      rewrite lookup_app_l by lia. reflexivity.
  - rewrite lookup_app_r by lia. rewrite Nat.sub_diag.
    destruct r; reflexivity.
Qed.

Lemma head_app_nonempty (l r : str) : l <> [] -> head (l ++ r) = head l.
Proof. destruct l; [contradiction|reflexivity]. Qed.

Lemma last_app_nonempty (l r : str) : r <> [] -> last (l ++ r) = last r.
Proof.
  intros Hr. destruct r as [|c r]; [contradiction|].
  clear Hr. revert c. induction r as [|d r IH] using rev_ind; intros c.
  - apply last_snoc.
  - rewrite app_comm_cons, app_assoc, !last_snoc. reflexivity.
Qed.

Lemma nonempty_length (l : str) : (1 <= length l)%nat -> l <> [].
Proof. destruct l; simpl; [lia|discriminate]. Qed.

Section RepeatedWords.

Variable U : unicode.

(** What a match of the pattern is made of. *)
Lemma repeated_words_match (txt : str) (m : Match) :
  is_match (re_repeated_words U) txt m ->
  exists k1 k2 : nat,
    let s := m_start m in
    let a := (s + k1)%nat in
    let b := (a + k2)%nat in
    boundary (is_word U) txt s = true /\
    (1 <= k1 <= run (is_word U) (drop s txt))%nat /\
    (1 <= k2 <= run (is_space U) (drop a txt))%nat /\
    backref (sre_lower U) txt k1 s b = true /\
    boundary (is_word U) txt (b + k1) = true /\
    m_end m = (b + k1)%nat /\
    group m 1 = take k1 (drop s txt).
Proof.
  intros (Hstr & Hb & Hhere). unfold re_repeated_words in Hhere.
  cbn [m_here assoc Nat.eqb] in Hhere.
  destruct (boundary (is_word U) txt (m_start m)) eqn:Hb1; [|discriminate].
  apply give_back_some in Hhere as (k1 & Hk1 & Hhere).
  cbn [m_here assoc Nat.eqb] in Hhere.
  apply give_back_some in Hhere as (k2 & Hk2 & Hhere).
  cbn [m_here assoc Nat.eqb] in Hhere.
  replace (m_start m + k1 - m_start m)%nat with k1 in Hhere by lia.
  destruct (backref (sre_lower U) txt k1 (m_start m)
              (m_start m + k1 + k2)) eqn:Href; [|discriminate].
  destruct (boundary (is_word U) txt (m_start m + k1 + k2 + k1)) eqn:Hb2;
    [|discriminate].
  injection Hhere as Hend Hspans.
  exists k1, k2. cbv zeta.
  split; [exact Hb1|]. split; [exact Hk1|]. split; [exact Hk2|].
  split; [exact Href|]. split; [exact Hb2|]. split; [symmetry; exact Hend|].
  unfold group. rewrite <- Hspans, Hstr. cbn [assoc Nat.eqb].
  pose proof (run_le (is_word U) (drop (m_start m) txt)) as Hrun.
  rewrite length_drop in Hrun.
  rewrite slice_nat by lia. f_equal. lia.
Qed.

(** X14.  Every record of the repeated-words check stands for a word
    of one or more word characters, one or more whitespace characters,
    and the word again, equal to the first up to the case of its
    letters, with a word boundary before the first and after the
    second; the word in lower case is none of [that], [had], [very],
    [really], [blah].  The matched text is the three parts, and the
    suggestion names the first word. *)
Theorem repeated_words_reports (txt : str) :
  Forall (repeated_word_record U txt) (_check_repeated_words U txt).
Proof.
  apply Forall_forall. intros r Hr. unfold _check_repeated_words in Hr.
  apply list_elem_of_omap in Hr as (m & Hin & Hr).
  assert (Hm : is_match (re_repeated_words U) txt m).
  { pose proof (finditer_is_match (re_repeated_words U) txt) as Hall.
    rewrite Forall_forall in Hall. apply Hall, Hin. }
  fold stoplist in Hr.
  destruct (bool_decide (lower U (group m 1) ∈ stoplist)) eqn:Hstop;
    [discriminate|].
  apply bool_decide_eq_false_1 in Hstop. apply (inj Some) in Hr. subst r.
  destruct (repeated_words_match txt m Hm)
    as (k1 & k2 & Hb1 & Hk1 & Hk2 & Href & Hb2 & Hend & Hg1).
  cbv zeta in *.
  set (s := m_start m) in *.
  set (a := (s + k1)%nat) in *.
  set (b := (a + k2)%nat) in *.
  destruct (backref_same _ _ _ _ _ Href) as [Hwlen Hsame].
  pose proof (Forall2_length _ _ _ Hsame) as Hlen2.
  rewrite Hwlen, length_take, length_drop in Hlen2.
  pose proof (run_le (is_space U) (drop a txt)) as Hrun2.
  rewrite length_drop in Hrun2.
  set (word := take k1 (drop s txt)) in *.
  set (ws := take k2 (drop a txt)).
  set (again := take k1 (drop b txt)) in *.
  assert (Hwslen : length ws = k2)
    by (unfold ws; rewrite length_take, length_drop; lia).
  assert (Halen : length again = k1)
    by (unfold again; rewrite length_take, length_drop; lia).
  assert (Hg0 : group m 0 = word ++ ws ++ again).
  { rewrite (group_0 _ _ _ Hm). fold s. rewrite Hend.
    rewrite slice_nat by lia.
    rewrite (segment_app txt s a (b + k1)) by lia.
    replace (a - s)%nat with k1 by lia. f_equal.
    rewrite (segment_app txt a b (b + k1)) by lia.
    replace (b - a)%nat with k2 by lia.
    replace (b + k1 - b)%nat with k1 by lia. reflexivity. }
  assert (Htxt : txt = take s txt ++ word ++ ws ++ again
                       ++ drop (b + k1) txt).
  { rewrite (split_at_slice txt s (b + k1)) at 1 by lia.
    rewrite <- Hend. unfold s at 2. rewrite <- (group_0 _ _ _ Hm), Hg0.
    rewrite <- !app_assoc. reflexivity. }
  assert (Hword : word <> []) by (apply nonempty_length; lia).
  assert (Hagain : again <> []) by (apply nonempty_length; lia).
  exists (take s txt), (drop (b + k1) txt), word, ws, again.
  split; [exact Htxt|]. split; [exact Hword|].
  split; [apply (run_take (is_word U)); lia|].
  split; [apply nonempty_length; lia|].
  split; [apply (run_take (is_space U)); lia|].
  split; [exact Hsame|]. split; [|split; [|split; [|split; [|split]]]].
  - unfold word_boundary.
    rewrite <- (head_app_nonempty word (ws ++ again ++ drop (b + k1) txt))
      by exact Hword.
    rewrite <- boundary_cut, <- Htxt, length_take.
    replace (s `min` length txt)%nat with s by lia. exact Hb1.
  - unfold word_boundary.
    rewrite <- (last_app_nonempty (take s txt ++ word ++ ws) again)
      by exact Hagain.
    rewrite <- boundary_cut. rewrite <- !app_assoc, <- Htxt.
    rewrite !length_app, length_take, Hwlen, Hwslen, Halen.
    replace (s `min` length txt + (k1 + (k2 + k1)))%nat with (b + k1)%nat
      by lia.
    exact Hb2.
  - rewrite <- Hg1. exact Hstop.
  - exact Hg0.
  - cbn [suggestion]. rewrite Hg1. reflexivity.
  - cbn [location]. fold s. rewrite get_line_number_take by lia. reflexivity.
Qed.

End RepeatedWords.

(** ** Serialization *)

(** The dictionary made of a record has nine different keys; under the
    key of each field it holds the value of that field and under
    [source] the tag [rule]; no two different records have the same
    dictionary. *)
Lemma rule_match_to_dict_faithful (m1 m2 : RuleMatch) :
  NoDup (map fst (rule_match_to_dict m1)) /\
  length (rule_match_to_dict m1) = 9%nat /\
  dict_get (rule_match_to_dict m1) (lit "source") = Some (lit "rule") /\
  map (dict_get (rule_match_to_dict m1))
      [lit "rule_id"; lit "rule_name"; lit "category"; lit "severity";
       lit "text"; lit "suggestion"; lit "location"; lit "context"]
  = map Some [rule_id m1; rule_name m1; category m1; severity m1;
              text m1; suggestion m1; location m1; context m1] /\
  (rule_match_to_dict m1 = rule_match_to_dict m2 -> m1 = m2).
Proof.
  split; [|split; [reflexivity|split; [reflexivity|split; [reflexivity|]]]].
  - apply NoDup_ListNoDup. cbn [rule_match_to_dict map fst].
    repeat (constructor;
            [intros Hin; repeat (destruct Hin as [Heq|Hin];
                                 [discriminate Heq|]); exact Hin|]).
    constructor.
  - destruct m1, m2. unfold rule_match_to_dict. cbn [rule_id rule_name
      category severity text suggestion location context].
    intros H. injection H as -> -> -> -> -> -> -> ->. reflexivity.
Qed.

(** ** The fields that do not depend on the text *)

Ltac in_table :=
  repeat first [apply list_elem_of_here | apply list_elem_of_further].

Ltac static_as cat sev :=
  exists cat, sev; split; [in_table|repeat split].

Ltac static_cases cat sev :=
  repeat match goal with
         | |- context [if ?b then _ else _] => destruct b
         end;
  cbn [app]; repeat (constructor; [static_as cat sev|]); constructor.

Section Static.

Variable U : unicode.

Definition static_entry (entry : string * res (list RuleMatch)) : Prop :=
  exists out, entry.2 = Ok out /\ Forall (static_record entry.1) out.

Lemma static_entry_pure (id : string) (out : list RuleMatch) :
  Forall (static_record id) out -> static_entry (id, mret out).
Proof. intros H. exists out. split; [reflexivity|exact H]. Qed.

Lemma static_map (id : string) (f : Match -> RuleMatch) (ms : list Match) :
  (forall m, static_record id (f m)) -> Forall (static_record id) (map f ms).
Proof. intros Hf. apply Forall_fmap, Forall_forall. intros m _. apply Hf. Qed.

Lemma static_for_append (id : string) (body : Match -> res (option RuleMatch))
    (pat : pattern) (txt : str) :
  (forall m, is_match pat txt m ->
     exists o, body m = Ok o /\ forall r, o = Some r -> static_record id r) ->
  static_entry (id, for_append body (finditer pat txt)).
Proof.
  intros Hbody.
  destruct (for_append_ok body (finditer pat txt) (is_match pat txt)
              (fun _ r => static_record id r)
              (finditer_is_match pat txt) Hbody) as (out & Hout & Hall).
  exists out. split; [exact Hout|].
  eapply Forall_impl; [exact Hall|]. intros r (m & _ & _ & Hr). exact Hr.
Qed.

Lemma registry_static (txt : str) : Forall static_entry (registry U txt).
Proof.
  unfold registry. repeat apply Forall_cons_2; try apply Forall_nil_2.
  - unfold _check_double_spaces. apply static_for_append.
    intros m (_ & Hb & _). cbv beta zeta.
    destruct (Z.eqb_spec (Z.of_nat (m_start m)) 0) as [Hz|Hnz].
    + exists None. split; [reflexivity|discriminate].
    + destruct (getitem_ok txt (Z.of_nat (m_start m) - 1)) as [c Hc];
        [unfold len; lia|].
      rewrite Hc. cbn [mbind res_bind bind mret res_ret].
      destruct (c =? NEWLINE)%N.
      * exists None. split; [reflexivity|discriminate].
      * eexists. split; [reflexivity|]. intros r Hr.
        apply (inj Some) in Hr. subst r. static_as "spacing"%string "medium"%string.
  - apply static_entry_pure. apply Forall_forall. intros r Hr.
    apply list_elem_of_omap in Hr as (m & _ & Hr). cbv zeta in Hr.
    destruct (bool_decide (lower U (group m 1) ∈ _)); [discriminate|].
    apply (inj Some) in Hr. subst r. static_as "grammar"%string "high"%string.
  - unfold _check_missing_space_after_punct. apply static_for_append.
    intros m (_ & Hb & _). cbv beta zeta.
    destruct (existsb _ _).
    { exists None. split; [reflexivity|discriminate]. }
    destruct (bool_decide (group m 1 = lit ".")); cbn [andb].
    + destruct (Z.ltb_spec 0 (Z.of_nat (m_start m))) as [Hpos|Hz].
      * destruct (getitem_ok txt (Z.of_nat (m_start m) - 1)) as [c Hc];
          [unfold len; lia|].
        rewrite Hc. cbn [mbind res_bind bind mret res_ret].
        destruct (isdigit U c).
        -- exists None. split; [reflexivity|discriminate].
        -- eexists. split; [reflexivity|]. intros r Hr.
           apply (inj Some) in Hr. subst r. static_as "spacing"%string "medium"%string.
      * eexists. split; [reflexivity|]. intros r Hr.
        apply (inj Some) in Hr. subst r. static_as "spacing"%string "medium"%string.
    + eexists. split; [reflexivity|]. intros r Hr.
      apply (inj Some) in Hr. subst r. static_as "spacing"%string "medium"%string.
  - apply static_entry_pure, static_map. intros m.
    static_as "spacing"%string "medium"%string.
  - apply static_entry_pure. unfold _check_unclosed_brackets, pairs.
    cbn [flat_map]. static_cases "formatting"%string "high"%string.
  - apply static_entry_pure. unfold _check_trailing_whitespace.
    static_cases "formatting"%string "low"%string.
  - apply static_entry_pure, static_map. intros m.
    static_as "formatting"%string "low"%string.
  - apply static_entry_pure. unfold _check_inconsistent_quotes.
    static_cases "formatting"%string "low"%string.
  - apply static_entry_pure. unfold _check_tab_characters.
    static_cases "formatting"%string "low"%string.
  - apply static_entry_pure, static_map. intros m.
    static_as "formatting"%string "low"%string.
  - apply static_entry_pure. unfold _check_hidden_characters.
    static_cases "formatting"%string "medium"%string.
  - apply static_entry_pure. unfold _check_straight_vs_curly_quotes.
    static_cases "formatting"%string "low"%string.
Qed.

(** A run keeps what holds of the records of each enabled check. *)
Lemma run_registry_static (self : RuleChecker)
    (reg : list (string * res (list RuleMatch))) :
  Forall static_entry reg ->
  forall matches, exists out,
    run_registry self reg matches = Ok (matches ++ out) /\
    Forall (fun r => exists id, static_record id r /\
                                lit id ∉ disabled_rules self) out.
Proof.
  induction 1 as [|[id check] reg (out & Hout & Hst) _ IH]; intros matches.
  - exists []. split; [cbn; rewrite app_nil_r; reflexivity|constructor].
  - cbn [run_registry]. unfold extend_unless_disabled at 1.
    cbn [fst snd] in Hout, Hst. subst check.
    destruct (decide (lit id ∈ disabled_rules self)) as [Hin|Hnin].
    + rewrite bool_decide_eq_false_2 by (intros Hn; apply Hn, Hin).
      apply IH.
    + rewrite bool_decide_eq_true_2 by exact Hnin.
      destruct (IH (matches ++ out)) as (rest & Hrun & Hall).
      exists (out ++ rest). split.
      * cbn. cbn in Hrun. rewrite Hrun, <- app_assoc. reflexivity.
      * apply Forall_app. split; [|exact Hall].
        eapply Forall_impl; [exact Hst|]. intros r Hr. exists id.
        split; [exact Hr|exact Hnin].
Qed.

(** X15.  Whatever the text, every record that [check_all] returns
    belongs to one of the twelve rules, which is not disabled, and has
    the category and the severity that the table gives for that rule:
    neither depends on the text, the categories are spacing, grammar
    and formatting only, and the severities high, medium and low.
    Serialized with [rule_match_to_dict], the record shows these values
    under the keys rule_id, category and severity, and the tag [rule]
    under the key source. *)
Theorem check_all_static_fields (self : RuleChecker) (txt : str) :
  exists out,
    check_all U self txt = Ok out /\
    Forall (fun r => exists id,
              static_record id r /\
              (lit id ∉ disabled_rules self) /\
              static_dict id (rule_match_to_dict r)) out.
Proof.
  destruct (run_registry_static self _ (registry_static txt) [])
    as (out & Hrun & Hall).
  exists out. split; [exact Hrun|].
  eapply Forall_impl; [exact Hall|].
  intros r (id & Hst & Hid). exists id. split; [exact Hst|].
  split; [exact Hid|].
  destruct Hst as (cat & sev & Htab & Hrid & Hcat & Hsev).
  exists cat, sev. split; [exact Htab|].
  unfold rule_match_to_dict. rewrite <- Hrid, <- Hcat, <- Hsev.
  repeat split.
Qed.

End Static.

(** ** Disabling more rules *)

Section Composition.

Variable U : unicode.

Lemma filter_blocks_union (self : RuleChecker) (more : gset str)
    (reg : list (string * res (list RuleMatch))) :
  forall blocks blocks',
    Forall2 (fun entry block =>
               block_of self entry.1 entry.2 block /\
               Forall (fun r => rule_id r = lit entry.1) block)
            reg blocks ->
    Forall2 (fun entry block =>
               block_of {| disabled_rules := disabled_rules self ∪ more |}
                        entry.1 entry.2 block /\
               Forall (fun r => rule_id r = lit entry.1) block)
            reg blocks' ->
    filter (fun r => rule_id r ∉ more) (concat blocks) = concat blocks'.
Proof.
  induction reg as [|[id check] reg IH]; intros blocks blocks' Hall Hmore.
  - apply Forall2_nil_inv_l in Hall. apply Forall2_nil_inv_l in Hmore.
    subst. reflexivity.
  - apply Forall2_cons_inv_l in Hall
      as (b & rest & (Hb & Htag) & Hrest & ->).
    apply Forall2_cons_inv_l in Hmore
      as (b' & rest' & (Hb' & Htag') & Hrest' & ->).
    cbn [concat fst snd] in *. rewrite filter_app.
    rewrite (IH _ _ Hrest Hrest'). f_equal.
    unfold block_of in Hb, Hb'. cbn [disabled_rules] in Hb'.
    destruct (decide (lit id ∈ disabled_rules self)) as [Hin|Hnin].
    + rewrite bool_decide_eq_true_2 in Hb by exact Hin.
      rewrite bool_decide_eq_true_2 in Hb'
        by (apply elem_of_union; left; exact Hin).
      subst. reflexivity.
    + rewrite bool_decide_eq_false_2 in Hb by exact Hnin.
      destruct (decide (lit id ∈ more)) as [Hm|Hnm].
      * rewrite bool_decide_eq_true_2 in Hb'
          by (apply elem_of_union; right; exact Hm).
        subst b'. eapply filter_none; eassumption.
      * rewrite bool_decide_eq_false_2 in Hb'
          by (intros Hu; apply elem_of_union in Hu as [Hu|Hu];
              contradiction).
        rewrite Hb in Hb'. injection Hb' as ->.
        eapply filter_all; eassumption.
Qed.

Lemma all_disabled_blocks (self : RuleChecker)
    (reg : list (string * res (list RuleMatch)))
    (blocks : list (list RuleMatch)) :
  Forall2 (fun entry block =>
             block_of self entry.1 entry.2 block /\
             Forall (fun r => rule_id r = lit entry.1) block)
          reg blocks ->
  Forall (fun entry => lit entry.1 ∈ disabled_rules self) reg ->
  concat blocks = [].
Proof.
  induction 1 as [|entry block reg blocks [Hb _] _ IH]; intros Hall;
    [reflexivity|].
  apply Forall_cons in Hall as [Hentry Hall].
  unfold block_of in Hb. rewrite bool_decide_eq_true_2 in Hb by exact Hentry.
  subst block. cbn [concat app]. apply IH, Hall.
Qed.

(** X16.  Disabling composes: the output with the rules of [more]
    disabled on top of those already disabled is the output before,
    without the records whose [rule_id] is in [more], in the same
    order.  With all twelve rules disabled the output is empty. *)
Theorem disabling_composes (self : RuleChecker) (more : gset str)
    (txt : str) :
  exists out,
    check_all U self txt = Ok out /\
    check_all U {| disabled_rules := disabled_rules self ∪ more |} txt
    = Ok (filter (fun r => rule_id r ∉ more) out) /\
    ((forall id, id ∈ catalogue -> lit id ∈ disabled_rules self) ->
     out = []).
Proof.
  pose proof (registry_well_tagged U txt) as Hreg.
  destruct (run_registry_blocks self _ Hreg []) as (blocks & Hrun & Hblocks).
  destruct (run_registry_blocks
              {| disabled_rules := disabled_rules self ∪ more |} _ Hreg [])
    as (blocks' & Hrun' & Hblocks').
  exists (concat blocks). split; [exact Hrun|]. split.
  - rewrite check_all_registry, Hrun'. cbn [app]. f_equal. symmetry.
    eapply filter_blocks_union; eassumption.
  - intros Hall. eapply all_disabled_blocks; [exact Hblocks|].
    apply Forall_forall. intros entry Hin. apply Hall.
    rewrite <- (registry_catalogue U txt). apply list_elem_of_fmap.
    exists entry. split; [reflexivity|exact Hin].
Qed.

End Composition.

Lemma disabling_composes_witness :
  exists out,
    check_all ascii_unicode
      {| disabled_rules := list_to_set (map lit catalogue) |}
      (lit "a  b ,c") = Ok out /\
    out = [].
Proof.
  destruct (disabling_composes ascii_unicode
              {| disabled_rules := list_to_set (map lit catalogue) |}
              ∅ (lit "a  b ,c")) as (out & Hout & _ & Hempty).
  exists out. split; [exact Hout|]. apply Hempty.
  intros id Hid. cbn [disabled_rules]. apply elem_of_list_to_set.
  apply list_elem_of_fmap. exists id. split; [reflexivity|exact Hid].
Defined.

(** ** The context of the records *)

(** X17.  The context of the record made for a match shows that
    match in its place in the document: it is the span of the match
    between the last 30 characters of the document before it and the
    first 30 after it (all of them where there are fewer), with an
    ellipsis before when more than 30 characters precede the match and
    an ellipsis after when more than 30 follow.  This holds for the
    repeated-words, missing-space, space-before-punct and double-hyphen
    checks, whose matched text is the span, and for the double-spaces
    check, whose matched text quotes it; the record is the one whose
    location names the match. *)
Theorem context_shows_the_match (U : unicode) (txt : str) :
  (exists out, _check_double_spaces txt = Ok out /\
     records_in_order re_double_spaces
       (fun m r => shown_in_context quoted txt m r /\
                   located_by_offset txt m r)
       txt out) /\
  records_in_order (re_repeated_words U)
    (fun m r => shown_in_context id txt m r /\ located_by_line id txt m r)
    txt (_check_repeated_words U txt) /\
  (exists out, _check_missing_space_after_punct U txt = Ok out /\
     records_in_order re_missing_space_after_punct
       (fun m r => shown_in_context id txt m r /\
                   located_by_line id txt m r)
       txt out) /\
  records_in_order (re_space_before_punct U)
    (fun m r => shown_in_context id txt m r /\ located_by_line id txt m r)
    txt (_check_space_before_punct U txt) /\
  records_in_order (re_double_hyphen_emdash U)
    (fun m r => shown_in_context id txt m r /\ located_by_line id txt m r)
    txt (_check_double_hyphen_emdash U txt).
Proof.
  assert (Hpoint : forall pat m r,
            is_match pat txt m -> point_fields txt m r ->
            shown_in_context id txt m r /\ located_by_line id txt m r).
  { intros pat m r Hm Hf. split; [|eapply point_located; eassumption].
    destruct Hf as (Ht & _ & Hc).
    eapply context_of_cut; [exact Hm|exact Ht|exact Hc]. }
  split; [|split; [|split; [|split]]].
  - destruct (double_spaces_fields_in_order txt) as (out & Hout & Hall).
    exists out. split; [exact Hout|].
    eapply records_in_order_impl; [|exact Hall].
    intros m r Hm Hf. split; [|apply double_spaces_located; assumption].
    destruct Hf as (Ht & _ & Hc).
    eapply context_of_cut; [exact Hm| |exact Hc].
    rewrite Ht. apply (repr_group_spaces _ _ Hm).
  - eapply records_in_order_impl; [apply Hpoint|].
    apply repeated_words_fields_in_order.
  - destruct (missing_space_fields_in_order U txt) as (out & Hout & Hall).
    exists out. split; [exact Hout|].
    eapply records_in_order_impl; [apply Hpoint|exact Hall].
  - eapply records_in_order_impl; [apply Hpoint|].
    apply space_before_punct_fields_in_order.
  - eapply records_in_order_impl; [apply Hpoint|].
    apply double_hyphen_fields_in_order.
Qed.

(** ** The score *)

Section Score.

Import Models.

Lemma sum_ones_count (cond : Issue -> bool) (l : list Issue) (n : Z) :
  foldl (fun total i => if cond i then total + 1 else total) n l
  = n + Z.of_nat (length (filter (fun i => cond i = true) l)).
Proof.
  revert n. induction l as [|i l IH]; intros n; [simpl; lia|].
  cbn [foldl]. rewrite IH, filter_cons. destruct (cond i).
  - rewrite decide_True by reflexivity. simpl. lia.
  - rewrite decide_False by discriminate. lia.
Qed.

Lemma sum_ones_filter (cond : Issue -> bool) (P : Issue -> Prop)
    `{!forall i, Decision (P i)} (l : list Issue) :
  (forall i, cond i = true <-> P i) ->
  sum_ones cond l = Z.of_nat (length (filter P l)).
Proof.
  intros Hc. unfold sum_ones. rewrite sum_ones_count, Z.add_0_l. do 2 f_equal.
  apply list_filter_iff. exact Hc.
Qed.

Lemma spelling_cond (i : Issue) :
  bool_decide (category i ∈ [SPELLING; GRAMMAR; SPACING]) && affects_score i
  = true <-> counts_for_spelling i.
Proof.
  unfold counts_for_spelling. rewrite andb_true_iff, bool_decide_eq_true.
  tauto.
Qed.

Lemma content_cond (i : Issue) :
  bool_decide (category i = MISSING_CONTENT) && affects_score i = true
  <-> counts_for_content i.
Proof.
  unfold counts_for_content. rewrite andb_true_iff, bool_decide_eq_true.
  tauto.
Qed.

#[local] Instance counts_for_spelling_dec (i : Issue) :
  Decision (counts_for_spelling i).
Proof. unfold counts_for_spelling. apply _. Defined.

#[local] Instance counts_for_content_dec (i : Issue) :
  Decision (counts_for_content i).
Proof. unfold counts_for_content. apply _. Defined.

(** The score as a function of the two counts. *)
Lemma calculate_score_counts {D : Type} (l : list Issue) (sg content : D) :
  _calculate_score l sg content
  = Some {| spelling_grammar :=
              Z.max 0 (100 - 5 * Z.of_nat
                                   (length (filter counts_for_spelling l)));
            required_content :=
              Z.max 0 (100 - 15 * Z.of_nat
                                    (length (filter counts_for_content l)));
            math_accuracy := 100 |}.
Proof.
  unfold _calculate_score. cbv zeta.
  rewrite (sum_ones_filter _ counts_for_spelling l spelling_cond).
  rewrite (sum_ones_filter _ counts_for_content l content_cond).
  set (a := Z.of_nat _). set (b := Z.of_nat _).
  unfold ScoreBreakdown_init, in_field_range.
  replace (a * 5) with (5 * a) by lia. replace (b * 15) with (15 * b) by lia.
  assert (Ha : 0 <= a) by (unfold a; lia).
  assert (Hb : 0 <= b) by (unfold b; lia).
  destruct (Z.leb_spec 0 (Z.max 0 (100 - 5 * a))); [|lia].
  destruct (Z.leb_spec (Z.max 0 (100 - 5 * a)) 100); [|lia].
  destruct (Z.leb_spec 0 (Z.max 0 (100 - 15 * b))); [|lia].
  destruct (Z.leb_spec (Z.max 0 (100 - 15 * b)) 100); [|lia].
  reflexivity.
Qed.

(** X18.  [_calculate_score] always builds a valid [ScoreBreakdown]:
    whatever the issues, the three scores pass the validation of the
    fields (between 0 and 100), so no [ValidationError] is raised.  The
    spelling and grammar score loses 5 points for each issue that
    affects the score and whose category is spelling, grammar or
    spacing, and is 0 from 20 such issues on; the required-content
    score loses 15 points for each scoring issue of category
    missing-content and is 0 from 7 on; the math score is always 100.
    The two results of the language model play no part. *)
Theorem calculate_score_valid {D : Type} (l : list Issue)
    (sg content : D) :
  exists s,
    _calculate_score l sg content = Some s /\
    0 <= spelling_grammar s <= 100 /\
    0 <= required_content s <= 100 /\
    math_accuracy s = 100 /\
    spelling_grammar s
    = Z.max 0 (100 - 5 * Z.of_nat (length (filter counts_for_spelling l))) /\
    required_content s
    = Z.max 0 (100 - 15 * Z.of_nat (length (filter counts_for_content l))) /\
    ((20 <= length (filter counts_for_spelling l))%nat ->
     spelling_grammar s = 0) /\
    ((7 <= length (filter counts_for_content l))%nat ->
     required_content s = 0).
Proof.
  eexists. split; [apply calculate_score_counts|].
  cbn [spelling_grammar required_content math_accuracy].
  repeat split; lia.
Qed.

(** X19.  The score looks only at the issues that affect it and does
    not depend on their order: it is the same for the list of all the
    issues of a result and for its [scored_issues], the issues split
    into [scored_issues] and [flagged_issues] with none lost, and one
    more issue never raises a score. *)
Theorem calculate_score_ignores_flagged {D : Type} (r : AnalysisResult)
    (sg content : D) (i : Issue) :
  _calculate_score (issues r) sg content
  = _calculate_score (scored_issues r) sg content /\
  issues r ≡ₚ scored_issues r ++ flagged_issues r /\
  (forall l', issues r ≡ₚ l' ->
     _calculate_score l' sg content = _calculate_score (issues r) sg content) /\
  exists s s',
    _calculate_score (issues r) sg content = Some s /\
    _calculate_score (i :: issues r) sg content = Some s' /\
    spelling_grammar s' <= spelling_grammar s /\
    required_content s' <= required_content s.
Proof.
  split; [|split; [|split]].
  - rewrite !calculate_score_counts. unfold scored_issues.
    rewrite !list_filter_filter.
    rewrite (list_filter_iff
               (fun a => counts_for_spelling a /\ affects_score a = true)
               counts_for_spelling)
      by (unfold counts_for_spelling; tauto).
    rewrite (list_filter_iff
               (fun a => counts_for_content a /\ affects_score a = true)
               counts_for_content)
      by (unfold counts_for_content; tauto).
    reflexivity.
  - unfold scored_issues, flagged_issues.
    induction (issues r) as [|j l IH]; [reflexivity|].
    rewrite !filter_cons. destruct (affects_score j) eqn:Hj.
    + rewrite decide_True by reflexivity.
      rewrite decide_False by (cbn; discriminate).
      cbn [app]. constructor. exact IH.
    + rewrite decide_False by discriminate.
      rewrite decide_True by reflexivity.
      rewrite <- Permutation_middle. constructor. exact IH.
  - intros l' Hperm. rewrite !calculate_score_counts.
    rewrite <- Hperm. reflexivity.
  - do 2 eexists. split; [apply calculate_score_counts|].
    split; [apply calculate_score_counts|].
    cbn [spelling_grammar required_content]. rewrite !filter_cons.
    split.
    + destruct (decide (counts_for_spelling i)); cbn [length]; lia.
    + destruct (decide (counts_for_content i)); cbn [length]; lia.
Qed.

End Score.
